(** * app_transform.py: picture-in-picture story formatter

    A shallow embedding of [src/app_transform.py] and the proofs of the
    properties its specification states.

    Layout of the development (definitions first, then the proofs):
    - [B64]: Python's [float] is IEEE-754 binary64.  The operations are the
      ones of the standard library's [SpecFloat] at precision 53.
    - [Py]: the fragment of Python's value model the script uses: [int],
      [float], the conversions between them and their exceptions.
    - [Np]: numpy arrays of pixels as nested lists, [np.full], slice
      assignment with broadcasting, and the interface of [cv2.resize].
    - [DateTime]: [datetime.strptime] and [strftime] for the directives the
      script uses.
    - [App]: the script itself, function by function, over the shared
      module-level dictionary [img_vars].
    - [Spec]: the formulas of the specification, written from its words;
      the planner in exact rational arithmetic.
    - [Pipeline], [DateFormat], [Examples]: the states one pass goes
      through, the planner's arithmetic in binary64, the expression of the
      date format, and concrete inputs.
    - [Picture], [DateText], [MoreExamples]: the pixels and the keys of a
      result, the text of the date argument, and more concrete inputs.
    - [B64Facts], [B64Int], [PlanFacts]: a rounded quotient or product never
      crosses a representable bound; integer quotients truncate exactly;
      the planner's floats stay within the canvas.
    - [AppFacts]: the script stage by stage.
    - [PlanCases], [PlanExact], [SpecFacts]: the proposal the floats give
      against the exact proportion, and against the planner of the
      specification.
    - [DateFacts]: the parser of the date argument.
    - the properties of the specification, and their instances at concrete
      inputs.
    - [RunFacts], [PictureFacts], [NameFacts], [DateTextFacts]: the run
      pass by pass, the buffer pixel by pixel, the names of the files.
    - further properties of the script, and their instances at concrete
      inputs. *)

From Stdlib Require Import QArith Qround.
From Stdlib Require Import ZArith Lia Reals Lra List Bool Ascii String.
From Stdlib Require Import Floats.SpecFloat.
From stdpp Require Import gmap strings list pretty.

Close Scope Q_scope.

(* ===================================================================== *)
(** * Binary64 arithmetic: definitions *)
(* ===================================================================== *)

Module B64.

Definition prec : Z := 53.
Definition emax : Z := 1024.

(** The exponent of the unit in the last place of a number whose binary
    magnitude is [e]: [max (e - 53) (-1074)]. *)
Definition fexp (e : Z) : Z := SpecFloat.fexp prec emax e.

(** Conversion of an integer, correctly rounded (an infinity on overflow). *)
Definition of_int (n : Z) : spec_float := binary_normalize prec emax n 0 false.
Definition mul (x y : spec_float) : spec_float := SFmul prec emax x y.
Definition div (x y : spec_float) : spec_float := SFdiv prec emax x y.

(** Truncation of a positive dyadic [m * 2^e] to an integer. *)
Definition trunc_pos (m : positive) (e : Z) : Z :=
  match e with
  | Z0 => Zpos m
  | Zpos p => Zpos m * 2 ^ Zpos p
  | Zneg p => Zpos m / 2 ^ Zpos p
  end.

(** Truncation toward zero; undefined on infinities and NaN. *)
Definition trunc (x : spec_float) : option Z :=
  match x with
  | S754_zero _ => Some 0%Z
  | S754_finite s m e => Some (cond_Zopp s (trunc_pos m e))
  | _ => None
  end.

(** Rounding toward minus infinity of a positive dyadic's opposite:
    [ceil_pos m e] is the least integer not below [m * 2^e]. *)
Definition ceil_pos (m : positive) (e : Z) : Z :=
  match e with
  | Z0 => Zpos m
  | Zpos p => Zpos m * 2 ^ Zpos p
  | Zneg p => (Zpos m + 2 ^ Zpos p - 1) / 2 ^ Zpos p
  end.

(** The floor of a float; undefined on infinities and NaN. *)
Definition floor (x : spec_float) : option Z :=
  match x with
  | S754_zero _ => Some 0%Z
  | S754_finite false m e => Some (trunc_pos m e)
  | S754_finite true m e => Some (- ceil_pos m e)%Z
  | _ => None
  end.

Definition is_zero (x : spec_float) : bool :=
  match x with S754_zero _ => true | _ => false end.

Definition is_nan (x : spec_float) : bool :=
  match x with S754_nan => true | _ => false end.

(** ** Vocabulary of the rounding proofs *)

(** A shift record is inexact when its round or its sticky bit is set. *)
Definition inex (mrs : shr_record) : bool := shr_r mrs || shr_s mrs.

(** [shifted n a b]: [b] is [a] shifted right by [n] bits; the bits shifted
    out are remembered as inexactness. *)
Definition shifted (n : Z) (a b : shr_record) : Prop :=
  (exists rem, 0 <= rem < 2 ^ n /\ shr_m a = shr_m b * 2 ^ n + rem /\
              0 <= shr_m b /\
              (inex b = false <-> inex a = false /\ rem = 0))%Z.

(** What [binary_round_aux] returns once the mantissa has been rounded to
    [mr] at exponent [e1]: a carry out of the 53 bits moves the exponent up
    by one, and an exponent above 971 overflows. *)
Definition round_result (s : bool) (mr e1 : Z) : spec_float :=
  (if mr =? 0 then S754_zero s
   else if mr <? 2 ^ 53 then
     (if e1 <=? 971 then S754_finite s (Z.to_pos mr) e1 else S754_infinity s)
   else
     (if e1 + 1 <=? 971 then S754_finite s (Z.to_pos (2 ^ 52)) (e1 + 1)
      else S754_infinity s))%Z.

Definition bpow (e : Z) : R := powerRZ 2 e.

(** The real number [m * 2^e]. *)
Definition F2R (m e : Z) : R := (IZR m * bpow e)%R.

(** A canonical positive mantissa: its exponent is the one of its unit in
    the last place. *)
Definition canonical (c k : Z) : Prop :=
  (0 < c)%Z /\ k = fexp (Zdigits2 c + k).

(** [le_bound z B]: [z] is a zero, or finite with magnitude at most [B]. *)
Definition le_bound (z : spec_float) (B : R) : Prop :=
  match z with
  | S754_zero _ => True
  | S754_finite _ p e => (F2R (Zpos p) e <= B)%R /\ (e <= 971)%Z
  | _ => False
  end.

(** [ge_bound z B]: [z] is finite with magnitude at least [B], or infinite. *)
Definition ge_bound (z : spec_float) (B : R) : Prop :=
  match z with
  | S754_finite _ p e => (B <= F2R (Zpos p) e)%R
  | S754_infinity _ => True
  | _ => False
  end.

Definition has_sign (s : bool) (z : spec_float) : Prop :=
  match z with
  | S754_zero s' | S754_infinity s' | S754_finite s' _ _ => s' = s
  | S754_nan => False
  end.

(** The position of the exact value [x] with respect to the mantissa [m] at
    exponent [e] and the location [l]: [x] lies in [[m, m+1) * 2^e], on the
    lower bound exactly when [l] is exact. *)
Definition located (m e : Z) (l : location) (x : R) : Prop :=
  (F2R m e <= x < F2R (m + 1) e)%R /\
  (l = loc_Exact -> x = F2R m e) /\ (l <> loc_Exact -> (F2R m e < x)%R).

End B64.

(* ===================================================================== *)
(** * Python: exceptions, [float] and [int] *)
(* ===================================================================== *)

Module Py.

Inductive exn : Type :=
  | AttributeError
  | KeyError
  | TypeError
  | ValueError
  | OverflowError
  | ZeroDivisionError
  | ArgumentTypeError  (* argparse.ArgumentTypeError *)
  | Cv2Error           (* cv2.error *)
  | Unmodelled.        (* a behaviour this model does not describe *)

(** The result of running a piece of Python: a value, or a raised
    exception. *)
Inductive result (A : Type) : Type :=
  | Ok (a : A)
  | Raise (e : exn).

Arguments Ok {A} a.
Arguments Raise {A} e.

#[global] Instance result_ret : MRet result := fun A a => Ok a.
#[global] Instance result_bind : MBind result :=
  fun A B f m => match m with Ok a => f a | Raise e => Raise e end.

(** [float(n)] for an [int] [n]: correctly rounded; [OverflowError] when
    the integer is too large. *)
Definition float (n : Z) : result spec_float :=
  match B64.of_int n with
  | S754_infinity _ => Raise OverflowError
  | f => Ok f
  end.

(** [x / y] on floats: Python raises on a zero divisor. *)
Definition truediv (x y : spec_float) : result spec_float :=
  if B64.is_zero y then Raise ZeroDivisionError else Ok (B64.div x y).

(** [int(x)] for a float [x]: truncation toward zero; [ValueError] on NaN and
    [OverflowError] on an infinity. *)
Definition int (x : spec_float) : result Z :=
  match B64.trunc x with
  | Some n => Ok n
  | None => if B64.is_nan x then Raise ValueError else Raise OverflowError
  end.

End Py.

Export Py.

(* ===================================================================== *)
(** * numpy arrays of pixels *)
(* ===================================================================== *)

Module Np.

(** A pixel: its three [uint8] channels. *)
Definition pixel : Type := (Z * Z * Z)%type.

(** An array of shape (rows, columns, 3), row by row. *)
Definition ndarray : Type := list (list pixel).

(** [a.shape[:2]].  The width of an array without rows is read as 0. *)
Definition shape (a : ndarray) : Z * Z :=
  (Z.of_nat (length a), Z.of_nat (length (hd [] a))).

(** Every row has the width [shape] reports. *)
Definition rect (a : ndarray) : Prop :=
  Forall (fun row => length row = length (hd [] a)) a.

(** [np.full(shape=(h, w, 3), fill_value=v, dtype=np.uint8)]. *)
Definition full (h w : Z) (v : Z) : result ndarray :=
  if ((h <? 0) || (w <? 0))%Z then Raise ValueError
  else Ok (replicate (Z.to_nat h) (replicate (Z.to_nat w) (v, v, v))).

(** The image of [f] on a grid of [h] rows and [w] columns. *)
Definition tabulate (h w : nat) (f : nat -> nat -> pixel) : ndarray :=
  map (fun y => map (f y) (seq 0 w)) (seq 0 h).

(** A slice bound [i] of a dimension of length [n], as Python adjusts it:
    a negative bound counts from the end, and bounds are clipped. *)
Definition norm_index (n i : Z) : Z :=
  if (i <? 0)%Z then Z.max 0 (i + n) else Z.min i n.

(** Broadcasting of one dimension: the lengths agree, or the source has
    length one and is repeated. *)
Definition broadcast_to {A} (l : list A) (n : nat) : option (list A) :=
  if (length l =? n)%nat then Some l
  else match l with
       | [x] => Some (replicate n x)
       | _ => None
       end.

(** [a[y1:y2, x1:x2] = v], in place: [ValueError] when [v] does not
    broadcast to the shape of the slice. *)
Definition setslice (a : ndarray) (y1 y2 x1 x2 : Z) (v : ndarray)
  : result ndarray :=
  let '(h, w) := shape a in
  let ys := norm_index h y1 in
  let ye := Z.max ys (norm_index h y2) in
  let xs := norm_index w x1 in
  let xe := Z.max xs (norm_index w x2) in
  let nr := Z.to_nat (ye - ys) in
  let nc := Z.to_nat (xe - xs) in
  match broadcast_to v nr with
  | None => Raise ValueError
  | Some vr =>
    match mapM (fun row => broadcast_to row nc) vr with
    | None => Raise ValueError
    | Some vb =>
      Ok (take (Z.to_nat ys) a
          ++ zip_with (fun crow vrow =>
                         take (Z.to_nat xs) crow ++ vrow ++ drop (Z.to_nat xe) crow)
                      (take nr (drop (Z.to_nat ys) a)) vb
          ++ drop (Z.to_nat ye) a)
    end
  end.

Definition int64_ok (z : Z) : bool := ((- 2 ^ 63 <=? z) && (z <? 2 ^ 63))%Z.

(** Two's complement wrap-around of [int64] arithmetic. *)
Definition wrap64 (z : Z) : Z := ((z + 2 ^ 63) mod 2 ^ 64 - 2 ^ 63)%Z.

(** [np.asarray(t)] for a pair of Python ints: an [int64] array.  (For
    larger entries numpy leaves [int64]; the script never gets there.) *)
Definition asarray2 (t : Z * Z) : result (Z * Z) :=
  if int64_ok t.1 && int64_ok t.2 then Ok t else Raise Unmodelled.

(** [a - b] on [int64] arrays of two entries. *)
Definition sub2 (a b : Z * Z) : Z * Z :=
  (wrap64 (a.1 - b.1), wrap64 (a.2 - b.2)).

(** [a / 2] on an [int64] array of two entries: a [float64] array. *)
Definition halve2 (a : Z * Z) : spec_float * spec_float :=
  (B64.div (B64.of_int a.1) (B64.of_int 2),
   B64.div (B64.of_int a.2) (B64.of_int 2)).

(** [cv2.resize(src, (w, h))], with the interpolation [interp] left
    abstract: [interp src h w y x] is the pixel at row [y] and column [x] of
    the result.  OpenCV rejects an empty source and an empty size; sizes
    that do not fit a C [int] are outside the model. *)
Definition resize (interp : ndarray -> Z -> Z -> nat -> nat -> pixel)
    (src : ndarray) (w h : Z) : result ndarray :=
  if ((2 ^ 31 <=? w) || (2 ^ 31 <=? h))%Z then Raise Unmodelled
  else if ((shape src).1 =? 0)%Z || ((shape src).2 =? 0)%Z then Raise Cv2Error
  else if ((w <=? 0) || (h <=? 0))%Z then Raise Cv2Error
  else Ok (tabulate (Z.to_nat h) (Z.to_nat w) (interp src h w)).

End Np.

(* ===================================================================== *)
(** * datetime: strptime and strftime *)
(* ===================================================================== *)

Module DateTime.

Record datetime : Type := mk_datetime
  { year : Z; month : Z; day : Z; hour : Z; minute : Z }.

(** ** The regular expressions of [_strptime.TimeRE]

    Characters are code points below 256; among them [\d] matches the ten
    ASCII digits only. *)

Inductive regex : Type :=
  | REmpty
  | RChar (c : ascii)
  | RDigit
  | RRange (lo hi : ascii)
  | RSeq (r1 r2 : regex)
  | RAlt (r1 r2 : regex)
  | RGroup (name : string) (r : regex).

Definition in_range (lo hi c : ascii) : bool :=
  (N_of_ascii lo <=? N_of_ascii c)%N && (N_of_ascii c <=? N_of_ascii hi)%N.

Definition is_digit (c : ascii) : bool := in_range "0" "9" c.

(** Backtracking matching, as [re.match] does it: alternatives are tried
    from left to right, and the first way to match the whole expression and
    its continuation [k] wins.  [caps] holds the text of the named groups. *)
Fixpoint rmatch {X} (r : regex) (s : list ascii)
    (caps : gmap string (list ascii))
    (k : list ascii -> gmap string (list ascii) -> option X) : option X :=
  match r with
  | REmpty => k s caps
  | RChar c =>
      match s with
      | c' :: s' => if Ascii.eqb c c' then k s' caps else None
      | [] => None
      end
  | RDigit =>
      match s with
      | c' :: s' => if is_digit c' then k s' caps else None
      | [] => None
      end
  | RRange lo hi =>
      match s with
      | c' :: s' => if in_range lo hi c' then k s' caps else None
      | [] => None
      end
  | RSeq r1 r2 => rmatch r1 s caps (fun s' caps' => rmatch r2 s' caps' k)
  | RAlt r1 r2 =>
      match rmatch r1 s caps k with
      | Some x => Some x
      | None => rmatch r2 s caps k
      end
  | RGroup name r1 =>
      rmatch r1 s caps
        (fun s' caps' => k s' (<[name := take (length s - length s') s]> caps'))
  end.

Definition two (a b : regex) : regex := RSeq a b.

(** The table of [TimeRE.__init__], for the directives the script uses. *)
Definition directive (d : ascii) : option regex :=
  if Ascii.eqb d "Y" then
    (* (?P<Y>\d\d\d\d) *)
    Some (RGroup "Y" (RSeq RDigit (RSeq RDigit (RSeq RDigit RDigit))))
  else if Ascii.eqb d "m" then
    (* (?P<m>1[0-2]|0[1-9]|[1-9]) *)
    Some (RGroup "m"
            (RAlt (two (RChar "1") (RRange "0" "2"))
            (RAlt (two (RChar "0") (RRange "1" "9"))
                  (RRange "1" "9"))))
  else if Ascii.eqb d "d" then
    (* (?P<d>3[0-1]|[1-2]\d|0[1-9]|[1-9]| [1-9]) *)
    Some (RGroup "d"
            (RAlt (two (RChar "3") (RRange "0" "1"))
            (RAlt (two (RRange "1" "2") RDigit)
            (RAlt (two (RChar "0") (RRange "1" "9"))
            (RAlt (RRange "1" "9")
                  (two (RChar " ") (RRange "1" "9")))))))
  else if Ascii.eqb d "H" then
    (* (?P<H>2[0-3]|[0-1]\d|\d) *)
    Some (RGroup "H"
            (RAlt (two (RChar "2") (RRange "0" "3"))
            (RAlt (two (RRange "0" "1") RDigit)
                  RDigit)))
  else if Ascii.eqb d "M" then
    (* (?P<M>[0-5]\d|\d) *)
    Some (RGroup "M" (RAlt (two (RRange "0" "5") RDigit) RDigit))
  else None.

(** [TimeRE.pattern]: a directive becomes its expression, any other
    character of the format stands for itself. *)
Fixpoint pattern (fmt : list ascii) : option regex :=
  match fmt with
  | [] => Some REmpty
  | c :: rest =>
      if Ascii.eqb c "%" then
        match rest with
        | d :: rest' =>
            match directive d, pattern rest' with
            | Some r, Some rs => Some (RSeq r rs)
            | _, _ => None
            end
        | [] => None
        end
      else
        match pattern rest with
        | Some rs => Some (RSeq (RChar c) rs)
        | None => None
        end
  end.

(** [int(text)] on the text of a group: leading blanks are skipped, the
    digits are read in base ten. *)
Fixpoint digits_value (acc : Z) (s : list ascii) : Z :=
  match s with
  | [] => acc
  | c :: s' =>
      if is_digit c
      then digits_value (10 * acc + (Z.of_N (N_of_ascii c) - 48)) s'
      else digits_value acc s'
  end.

Definition group_int (caps : gmap string (list ascii)) (name : string)
    (default : Z) : Z :=
  match caps !! name with
  | Some text => digits_value 0 text
  | None => default
  end.

Definition is_leap (y : Z) : bool :=
  ((y mod 4 =? 0) && (negb (y mod 100 =? 0) || (y mod 400 =? 0)))%Z.

Definition days_in_month (y m : Z) : Z :=
  if (m =? 2)%Z then (if is_leap y then 29 else 28)
  else if ((m =? 4) || (m =? 6) || (m =? 9) || (m =? 11))%Z then 30
  else 31.

(** What the constructors [datetime.date] and [datetime.datetime] accept. *)
Definition valid_datetime (dt : datetime) : bool :=
  ((1 <=? year dt) && (year dt <=? 9999)
   && (1 <=? month dt) && (month dt <=? 12)
   && (1 <=? day dt) && (day dt <=? days_in_month (year dt) (month dt))
   && (0 <=? hour dt) && (hour dt <=? 23)
   && (0 <=? minute dt) && (minute dt <=? 59))%Z.

(** [datetime.strptime(s, fmt)]: the format's expression must match a
    prefix of [s] and leave nothing unconverted, and the fields must form a
    date; every failure is a [ValueError]. *)
Definition strptime (s fmt : string) : result datetime :=
  match pattern (list_ascii_of_string fmt) with
  | None => Raise Unmodelled
  | Some r =>
      match rmatch r (list_ascii_of_string s) ∅ (fun s' caps => Some (s', caps)) with
      | None => Raise ValueError
      | Some (rest, caps) =>
          match rest with
          | _ :: _ => Raise ValueError
          | [] =>
              let dt := {| year := group_int caps "Y" 1900;
                           month := group_int caps "m" 1;
                           day := group_int caps "d" 1;
                           hour := group_int caps "H" 0;
                           minute := group_int caps "M" 0 |} in
              if valid_datetime dt then Ok dt else Raise ValueError
          end
      end
  end.

(** ** strftime *)

(** [n] in decimal, padded with zeros to [k] characters. *)
Definition zpad (k : nat) (n : Z) : string :=
  let s := pretty (Z.to_N n) in
  string_of_list_ascii (replicate (k - String.length s) "0"%char) +:+ s.

(** The year as [%Y] writes it.  [strftime] hands the directive to the C
    library, and the one of Linux writes the decimal digits without padding:
    a year below 1000 has fewer than four characters.  From the year 1000
    on every platform writes the same four digits. *)
Definition year_text (y : Z) : string := pretty (Z.to_N y).

(** The fields of [strftime] the script uses. *)
Definition strftime_directive (dt : datetime) (d : ascii) : option string :=
  if Ascii.eqb d "Y" then Some (year_text (year dt))
  else if Ascii.eqb d "m" then Some (zpad 2 (month dt))
  else if Ascii.eqb d "d" then Some (zpad 2 (day dt))
  else if Ascii.eqb d "H" then Some (zpad 2 (hour dt))
  else if Ascii.eqb d "M" then Some (zpad 2 (minute dt))
  else None.

Fixpoint strftime_chars (dt : datetime) (fmt : list ascii) : result string :=
  match fmt with
  | [] => Ok EmptyString
  | c :: rest =>
      if Ascii.eqb c "%" then
        match rest with
        | d :: rest' =>
            match strftime_directive dt d with
            | Some field =>
                tail ← strftime_chars dt rest'; Ok (field +:+ tail)
            | None => Raise Unmodelled
            end
        | [] => Raise Unmodelled
        end
      else tail ← strftime_chars dt rest; Ok (String c tail)
  end.

(** [dt.strftime(fmt)]. *)
Definition strftime (dt : datetime) (fmt : string) : result string :=
  strftime_chars dt (list_ascii_of_string fmt).

End DateTime.

(* ===================================================================== *)
(** * The script *)
(* ===================================================================== *)

Module App.

Import Np DateTime.

(** The values the script stores in [img_vars]. *)
Inductive value : Type :=
  | VNone
  | VBool (b : bool)
  | VInt (n : Z)
  | VFloat (f : spec_float)
  | VStr (s : string)
  | VTuple (a b : Z)              (* a pair of ints *)
  | VArray (a : ndarray)
  | VDict (c : gmap string Z).    (* a dict of ints *)

(** [d[k]]. *)
Definition get (d : gmap string value) (k : string) : result value :=
  match d !! k with
  | Some v => Ok v
  | None => Raise KeyError
  end.

(** [v.shape[:2]]. *)
Definition shape_of (v : value) : result (Z * Z) :=
  match v with
  | VArray a => Ok (shape a)
  | _ => Raise AttributeError
  end.

Definition as_tuple (v : value) : result (Z * Z) :=
  match v with VTuple a b => Ok (a, b) | _ => Raise TypeError end.

Definition as_float (v : value) : result spec_float :=
  match v with VFloat f => Ok f | _ => Raise TypeError end.

Definition as_int (v : value) : result Z :=
  match v with VInt n => Ok n | _ => Raise TypeError end.

Definition as_str (v : value) : result string :=
  match v with VStr s => Ok s | _ => Raise TypeError end.

Definition as_array (v : value) : result ndarray :=
  match v with VArray a => Ok a | _ => Raise TypeError end.

Definition as_dict (v : value) : result (gmap string Z) :=
  match v with VDict c => Ok c | _ => Raise TypeError end.

(** [d[k]] where a pair, a float, an int, a str, an array or a dict is
    expected. *)
Definition get_tuple (d : gmap string value) (k : string) : result (Z * Z) :=
  get d k ≫= as_tuple.
Definition get_float (d : gmap string value) (k : string) : result spec_float :=
  get d k ≫= as_float.
Definition get_int (d : gmap string value) (k : string) : result Z :=
  get d k ≫= as_int.
Definition get_str (d : gmap string value) (k : string) : result string :=
  get d k ≫= as_str.
Definition get_array (d : gmap string value) (k : string) : result ndarray :=
  get d k ≫= as_array.
Definition get_dict (d : gmap string value) (k : string)
  : result (gmap string Z) :=
  get d k ≫= as_dict.

Definition get_item (c : gmap string Z) (k : string) : result Z :=
  match c !! k with
  | Some n => Ok n
  | None => Raise KeyError
  end.

(** [valid_date(s)]: the [ValueError] of [strptime] becomes an
    [ArgumentTypeError]. *)
Definition valid_date (s : string) : result datetime :=
  match strptime s "%Y-%m-%d_%H-%M" with
  | Ok dt => Ok dt
  | Raise ValueError => Raise ArgumentTypeError
  | Raise e => Raise e
  end.

(** The module-level constants. *)
Definition ig_defined_res : Z * Z := (1920, 1080)%Z.   (* height x width *)
Definition screen_factor : spec_float := S754_finite false 6755399441055744 (-53).
Definition scale_tolerance : Z := 2.

(** [os.path.join(a, b)] on a POSIX system. *)
Definition path_join (a b : string) : string :=
  match b with
  | String "/" _ => b
  | _ =>
      match last (list_ascii_of_string a) with
      | None => b
      | Some c => if Ascii.eqb c "/" then a +:+ b else a +:+ "/" +:+ b
      end
  end.

(** ** The usage text of the parser *)

(** [fmt % mapping] for a mapping with string values.  Modelled: text, "%%"
    and "%(key)s".  A conversion without a key that comes after one with a
    key finds no argument left and raises [TypeError], whatever its letter.
    Flags, widths and the other conversions are not modelled. *)
Inductive format_state : Type :=
  | FText
  | FPercent
  | FKey (key : list ascii)
  | FConversion (key : list ascii).

(** The characters that may stand between "%" and the conversion letter. *)
Definition is_format_modifier (c : ascii) : bool :=
  existsb (Ascii.eqb c) (list_ascii_of_string "-+ #0123456789*.hlL").

Fixpoint percent_format_from (st : format_state) (keyed : bool)
    (mapping : gmap string string) (fmt : list ascii) : result string :=
  match fmt with
  | [] =>
      match st with
      | FText => Ok EmptyString
      | _ => Raise ValueError
      end
  | c :: rest =>
      match st with
      | FText =>
          if Ascii.eqb c "%" then percent_format_from FPercent keyed mapping rest
          else
            tail ← percent_format_from FText keyed mapping rest;
            Ok (String c tail)
      | FPercent =>
          if Ascii.eqb c "%" then
            tail ← percent_format_from FText keyed mapping rest;
            Ok (String "%" tail)
          else if Ascii.eqb c "(" then
            percent_format_from (FKey []) keyed mapping rest
          else if negb (is_format_modifier c) && keyed then Raise TypeError
          else Raise Unmodelled
      | FKey key =>
          if Ascii.eqb c ")" then
            percent_format_from (FConversion key) keyed mapping rest
          else if Ascii.eqb c "(" then Raise Unmodelled
          else percent_format_from (FKey (key ++ [c])) keyed mapping rest
      | FConversion key =>
          if Ascii.eqb c "s" then
            match mapping !! string_of_list_ascii key with
            | Some v =>
                tail ← percent_format_from FText true mapping rest;
                Ok (v +:+ tail)
            | None => Raise KeyError
            end
          else Raise Unmodelled
      end
  end.

Definition percent_format (fmt : string) (mapping : gmap string string)
  : result string :=
  percent_format_from FText false mapping (list_ascii_of_string fmt).

(** The arguments [prog] and [usage] of [argparse.ArgumentParser]. *)
Definition prog : string := "app_transform.py".

Definition double_quote : string := String "034" EmptyString.

Definition usage : string :=
  "%(prog)s execution_date(format:%Y-%m-%d_%H-%M) "
  +:+ double_quote +:+ "${meme_absolute_file_paths[@]}" +:+ double_quote
  +:+ " " +:+ double_quote +:+ "output_directory" +:+ double_quote.

Section Script.

(** The two collaborators of the script: [imread path] is the decoded image
    at [path] ([None] when there is none), [interp] the interpolation of
    [cv2.resize]. *)
Variable imread : string -> option ndarray.
Variable interp : ndarray -> Z -> Z -> nat -> nat -> pixel.

(** [resize_type].  The dictionary is the module-level [img_vars]: the
    function updates it and returns it. *)
Definition resize_type (img_vars : gmap string value) (file_path : string)
    (defined_res : Z * Z) (screen_factor : spec_float) (scale_tolerance : Z)
  : result (gmap string value) :=
  (* img_vars['img_obj'] = cv2.imread(file_path) *)
  let d := <["img_obj" := match imread file_path with
                          | Some a => VArray a
                          | None => VNone
                          end]> img_vars in
  (* img_vars['img_res'] = img_vars['img_obj'].shape[:2] *)
  res ← get d "img_obj" ≫= shape_of;
  let d := <["img_res" := VTuple res.1 res.2]> d in
  (* img_vars['img_aspect_ratio'] =
       float(img_vars['img_res'][1]) / float(img_vars['img_res'][0]) *)
  t ← get_tuple d "img_res"; num ← Py.float t.2;
  t ← get_tuple d "img_res"; den ← Py.float t.1;
  ratio ← Py.truediv num den;
  let d := <["img_aspect_ratio" := VFloat ratio]> d in
  (* img_vars['defined_res'] = defined_res *)
  let d := <["defined_res" := VTuple defined_res.1 defined_res.2]> d in
  (* img_vars['screen_factor'] = screen_factor *)
  let d := <["screen_factor" := VFloat screen_factor]> d in
  (* proposed_width = int(screen_factor * float(img_vars['defined_res'][1])) *)
  t ← get_tuple d "defined_res"; target_w ← Py.float t.2;
  proposed_width ← Py.int (B64.mul screen_factor target_w);
  (* proposed_height = int(float(proposed_width) / img_vars['img_aspect_ratio']) *)
  fw ← Py.float proposed_width;
  ar ← get_float d "img_aspect_ratio";
  quot ← Py.truediv fw ar;
  proposed_height ← Py.int quot;
  (* if proposed_height <= defined_res[0]: pass
     else:
       proposed_height = int(screen_factor * float(img_vars['defined_res'][0]))
       proposed_width = int(float(proposed_height) * img_vars['img_aspect_ratio']) *)
  proposed ←
    (if (proposed_height <=? defined_res.1)%Z
     then Ok (proposed_height, proposed_width)
     else
       t ← get_tuple d "defined_res"; target_h ← Py.float t.1;
       proposed_height ← Py.int (B64.mul screen_factor target_h);
       fh ← Py.float proposed_height;
       ar ← get_float d "img_aspect_ratio";
       proposed_width ← Py.int (B64.mul fh ar);
       Ok (proposed_height, proposed_width));
  (* img_vars['proposed_res'] = (proposed_height, proposed_width) *)
  let d := <["proposed_res" := VTuple proposed.1 proposed.2]> d in
  (* if img_vars['proposed_res'][1] <= img_vars['img_res'][1]:
         img_vars['proposed_resize_dir'] = 'shrink'
     else: img_vars['proposed_resize_dir'] = 'scale' *)
  pres ← get_tuple d "proposed_res";
  ires ← get_tuple d "img_res";
  let d := <["proposed_resize_dir" :=
               VStr (if (pres.2 <=? ires.2)%Z then "shrink" else "scale")]> d in
  (* img_vars['scale_tolerance'] = scale_tolerance *)
  let d := <["scale_tolerance" := VInt scale_tolerance]> d in
  (* img_vars['proposed_resize_factor'] =
       int(float(img_vars['proposed_res'][1]) / float(img_vars['img_res'][1])) *)
  t ← get_tuple d "proposed_res"; num ← Py.float t.2;
  t ← get_tuple d "img_res"; den ← Py.float t.2;
  quot ← Py.truediv num den;
  factor ← Py.int quot;
  let d := <["proposed_resize_factor" := VInt factor]> d in
  (* if img_vars['proposed_resize_dir'] == 'scale':
         if img_vars['proposed_resize_factor'] <= img_vars['scale_tolerance']:
             img_vars['resize_validity'] = True
         else: img_vars['resize_validity'] = False
     elif img_vars['proposed_resize_dir'] == 'shrink':
         img_vars['resize_validity'] = None *)
  dir ← get_str d "proposed_resize_dir";
  if String.eqb dir "scale" then
    f ← get_int d "proposed_resize_factor";
    tol ← get_int d "scale_tolerance";
    Ok (<["resize_validity" := VBool (f <=? tol)%Z]> d)
  else if String.eqb dir "shrink" then
    Ok (<["resize_validity" := VNone]> d)
  else Ok d.

(** [add_pip_vars]. *)
Definition add_pip_vars (img_vars : gmap string value)
  : result (gmap string value) :=
  (* height, width = img_vars['defined_res'] *)
  hw ← get_tuple img_vars "defined_res";
  (* colored_image = np.full(shape=(height, width, 3), fill_value=128,
                             dtype=np.uint8)
     img_vars['canvas'] = colored_image *)
  colored_image ← full hw.1 hw.2 128;
  let d := <["canvas" := VArray colored_image]> img_vars in
  (* y1, x1 = map(int, (np.asarray(img_vars['defined_res'])
                        - np.asarray(img_vars['proposed_res'])) / 2) *)
  a ← get_tuple d "defined_res" ≫= asarray2;
  b ← get_tuple d "proposed_res" ≫= asarray2;
  let halves := halve2 (sub2 a b) in
  y1 ← Py.int halves.1;
  x1 ← Py.int halves.2;
  (* x2 = x1 + img_vars['proposed_res'][1]
     y2 = y1 + img_vars['proposed_res'][0] *)
  pres ← get_tuple d "proposed_res";
  let x2 := (x1 + pres.2)%Z in
  pres ← get_tuple d "proposed_res";
  let y2 := (y1 + pres.1)%Z in
  (* img_vars['pip_coords'] = {'x1':x1,'x2':x2,'y1':y1,'y2':y2} *)
  Ok (<["pip_coords" :=
          VDict (<["y2" := y2]> (<["y1" := y1]> (<["x2" := x2]> {["x1" := x1]})))]> d).

(** [process_image]: the updated dictionary and the call of [cv2.imwrite]
    (the destination and the buffer).  [processed_img] is the canvas object
    itself, not a copy: the paste is seen through [img_vars['canvas']].
    The two [print] calls read shapes only and are left out. *)
Definition process_image (img_vars : gmap string value) (output_dir : string)
    (exec_datetime : datetime) (iter : nat)
  : result (gmap string value * (string * ndarray)) :=
  (* resized_img = cv2.resize(img_vars['img_obj'],
       (img_vars['proposed_res'][1], img_vars['proposed_res'][0])) *)
  src ← get_array img_vars "img_obj";
  t ← get_tuple img_vars "proposed_res"; let w := t.2 in
  t ← get_tuple img_vars "proposed_res"; let h := t.1 in
  resized_img ← resize interp src w h;
  (* processed_img = img_vars['canvas'] *)
  processed_img ← get_array img_vars "canvas";
  (* processed_img[y1:y2, x1:x2] = resized_img *)
  c ← get_dict img_vars "pip_coords"; y1 ← get_item c "y1";
  c ← get_dict img_vars "pip_coords"; y2 ← get_item c "y2";
  c ← get_dict img_vars "pip_coords"; x1 ← get_item c "x1";
  c ← get_dict img_vars "pip_coords"; x2 ← get_item c "x2";
  processed_img ← setslice processed_img y1 y2 x1 x2 resized_img;
  let d := <["canvas" := VArray processed_img]> img_vars in
  (* exec_date = exec_datetime.strftime("%Y%m%d")
     exec_time = exec_datetime.strftime("%H%M") *)
  exec_date ← strftime exec_datetime "%Y%m%d";
  exec_time ← strftime exec_datetime "%H%M";
  (* file_dest = os.path.join(output_dir,
       "{0}_{1}_{2}{3}".format(exec_date, exec_time, str(iter), ".jpg")) *)
  let file_dest :=
    path_join output_dir
      (exec_date +:+ "_" +:+ exec_time +:+ "_" +:+ pretty iter +:+ ".jpg") in
  (* cv2.imwrite(file_dest, processed_img) *)
  Ok (d, (file_dest, processed_img)).

(** One pass of the main loop on the file at index [i]. *)
Definition iteration (img_vars : gmap string value) (path output_dir : string)
    (exec_datetime : datetime) (i : nat)
  : result (gmap string value * (string * ndarray)) :=
  resized_img_vars ←
    resize_type img_vars path ig_defined_res screen_factor scale_tolerance;
  pip_img_vars ← add_pip_vars resized_img_vars;
  process_image pip_img_vars output_dir exec_datetime i.

(** How a run ends, and the files it has written by then. *)
Inductive status : Type :=
  | Completed
  | Uncaught (e : exn)
  | SysExit (code : Z).

Record run : Type := mk_run
  { ended : status; written : list (string * ndarray) }.

(** [for i in range(len(args.meme_absolute_file_paths))], from index [i],
    with the dictionary [img_vars] and the files [acc] written so far. *)
Fixpoint loop (img_vars : gmap string value) (paths : list string)
    (output_dir : string) (exec_datetime : datetime) (i : nat)
    (acc : list (string * ndarray)) : run :=
  match paths with
  | [] => {| ended := Completed; written := acc |}
  | path :: rest =>
      match iteration img_vars path output_dir exec_datetime i with
      | Raise e => {| ended := Uncaught e; written := acc |}
      | Ok (d, file) => loop d rest output_dir exec_datetime (S i) (acc ++ [file])
      end
  end.


(** [parser.error(message)]: argparse prints the usage, which it formats
    with [usage % dict(prog=self.prog)], and then exits with status 2.  An
    exception of the formatting leaves the script uncaught. *)
Definition parser_error : status :=
  match percent_format usage {["prog" := prog]} with
  | Ok _ => SysExit 2
  | Raise e => Uncaught e
  end.

(** The program, on the values of its three positional arguments (a command
    line none of whose words [argparse] reads as an option).  The exception
    of the [type] function and a missing path both end in [parser.error].
    [img_vars] starts empty. *)
Definition main (execution_date : string) (meme_absolute_file_paths : list string)
    (output_directory : string) : run :=
  match valid_date execution_date with
  | Raise _ => {| ended := parser_error; written := [] |}
  | Ok dt =>
      match meme_absolute_file_paths with
      | [] => {| ended := parser_error; written := [] |}
      | _ => loop ∅ meme_absolute_file_paths output_directory dt 0 []
      end
  end.

End Script.

End App.

(* ===================================================================== *)
(** * The formulas of the specification *)
(* ===================================================================== *)

Module Spec.

(** The geometry planner, from the words of the specification, in exact
    arithmetic: the aspect ratio is the rational width / height and [floor]
    is the mathematical floor. *)

(** r = natural_width / natural_height. *)
Definition ratio (natural_width natural_height : Z) : Q :=
  (inject_Z natural_width / inject_Z natural_height)%Q.

(** Candidate A: proposed_width = floor(factor x target_width), and the
    value proposed_width / r whose floor is its proposed_height. *)
Definition candidate_a_width (factor : Q) (target_width : Z) : Z :=
  Qfloor (factor * inject_Z target_width).

Definition candidate_a_height_exact (factor : Q) (target_width : Z)
    (natural_width natural_height : Z) : Q :=
  (inject_Z (candidate_a_width factor target_width)
   / ratio natural_width natural_height)%Q.

Definition candidate_a_height (factor : Q) (target_width : Z)
    (natural_width natural_height : Z) : Z :=
  Qfloor (candidate_a_height_exact factor target_width
                                   natural_width natural_height).

(** The recomputation from the height:
    proposed_height = floor(factor x target_height), and the value
    proposed_height x r whose floor is its proposed_width. *)
Definition candidate_b_height (factor : Q) (target_height : Z) : Z :=
  Qfloor (factor * inject_Z target_height).

Definition candidate_b_width_exact (factor : Q) (target_height : Z)
    (natural_width natural_height : Z) : Q :=
  (inject_Z (candidate_b_height factor target_height)
   * ratio natural_width natural_height)%Q.

Definition candidate_b_width (factor : Q) (target_height : Z)
    (natural_width natural_height : Z) : Z :=
  Qfloor (candidate_b_width_exact factor target_height
                                  natural_width natural_height).

(** The planner: candidate A when its height is at most the target height,
    else the candidate computed from the height.  The result is
    (proposed_width, proposed_height). *)
Definition proposed (factor : Q) (target_height target_width : Z)
    (natural_width natural_height : Z) : Z * Z :=
  if (candidate_a_height factor target_width natural_width natural_height
      <=? target_height)%Z
  then (candidate_a_width factor target_width,
        candidate_a_height factor target_width natural_width natural_height)
  else (candidate_b_width factor target_height natural_width natural_height,
        candidate_b_height factor target_height).

(** A rational that is a whole number. *)
Definition whole (q : Q) : Prop := (inject_Z (Qfloor q) == q)%Q.

(** The screen-fit factor 0.75. *)
Definition screen_fit_factor : Q := (3 # 4)%Q.

(** floor(proposed_width / natural_width), on the integers. *)
Definition resize_factor (proposed_width natural_width : Z) : Z :=
  (proposed_width / natural_width)%Z.

Inductive direction : Type := Enlarge | Shrink.

Definition resize_direction (proposed_width natural_width : Z) : direction :=
  if (proposed_width <=? natural_width)%Z then Shrink else Enlarge.

(** The validity flag: defined for an enlargement only. *)
Definition validity (dir : direction) (factor tolerance : Z) : option bool :=
  match dir with
  | Enlarge => Some (factor <=? tolerance)%Z
  | Shrink => None
  end.

(** The placement rectangle (top, left, bottom, right). *)
Definition placement (target_height target_width proposed_height proposed_width : Z)
  : Z * Z * Z * Z :=
  let top := ((target_height - proposed_height) / 2)%Z in
  let left := ((target_width - proposed_width) / 2)%Z in
  (top, left, (top + proposed_height)%Z, (left + proposed_width)%Z).

(** The literal pattern YYYY-MM-DD_HH-MM: sixteen characters, digits where
    the pattern has letters. *)
Definition matches_pattern (s : string) : bool :=
  match list_ascii_of_string s with
  | [y1; y2; y3; y4; s1; m1; m2; s2; d1; d2; s3; h1; h2; s4; n1; n2] =>
      forallb DateTime.is_digit [y1; y2; y3; y4; m1; m2; d1; d2; h1; h2; n1; n2]
      && Ascii.eqb s1 "-" && Ascii.eqb s2 "-" && Ascii.eqb s3 "_"
      && Ascii.eqb s4 "-"
  | _ => false
  end.

(** The date and time a string of the pattern spells, field by field. *)
Definition fields (s : string) : DateTime.datetime :=
  match list_ascii_of_string s with
  | [y1; y2; y3; y4; _; m1; m2; _; d1; d2; _; h1; h2; _; n1; n2] =>
      {| DateTime.year := DateTime.digits_value 0 [y1; y2; y3; y4];
         DateTime.month := DateTime.digits_value 0 [m1; m2];
         DateTime.day := DateTime.digits_value 0 [d1; d2];
         DateTime.hour := DateTime.digits_value 0 [h1; h2];
         DateTime.minute := DateTime.digits_value 0 [n1; n2] |}
  | _ =>
      {| DateTime.year := 0; DateTime.month := 0; DateTime.day := 0;
         DateTime.hour := 0; DateTime.minute := 0 |}
  end.

(** The file name {YYYYMMDD}_{HHMM}_{index}.jpg. *)
Definition file_name (t : DateTime.datetime) (index : nat) : string :=
  DateTime.zpad 4 (DateTime.year t) +:+ DateTime.zpad 2 (DateTime.month t)
  +:+ DateTime.zpad 2 (DateTime.day t) +:+ "_"
  +:+ DateTime.zpad 2 (DateTime.hour t) +:+ DateTime.zpad 2 (DateTime.minute t)
  +:+ "_" +:+ pretty index +:+ ".jpg".

End Spec.

(* ===================================================================== *)
(** * The states of one pass, written out *)
(* ===================================================================== *)

(** The dictionaries and the buffer one pass of the loop goes through, as
    functions of the decoded image and of the proposed dimensions.  The
    theorems relate the script to them. *)
Module Pipeline.

Import Np DateTime App.

(** An image as [cv2.imread] returns it: at least one row and one column,
    rows of one width, and dimensions that fit a C [int]. *)
Definition decodable (img : ndarray) : bool :=
  (1 <=? (shape img).1)%Z && ((shape img).1 <? 2 ^ 31)%Z
  && (1 <=? (shape img).2)%Z && ((shape img).2 <? 2 ^ 31)%Z
  && forallb (fun row => (length row =? length (hd [] img))%nat) img.

(** The aspect ratio the planner computes, width over height. *)
Definition aspect_ratio (img : ndarray) : spec_float :=
  B64.div (B64.of_int (shape img).2) (B64.of_int (shape img).1).

(** [img_vars] when [resize_type] returns, for proposed dimensions [ph]
    (height) and [pw] (width); [d0] is the dictionary it was called on. *)
Definition planned (d0 : gmap string value) (img : ndarray) (ph pw : Z)
  : gmap string value :=
  let shrink := (pw <=? (shape img).2)%Z in
  let factor := (pw / (shape img).2)%Z in
  <["resize_validity" := if shrink then VNone else VBool (factor <=? 2)%Z]>
  (<["proposed_resize_factor" := VInt factor]>
  (<["scale_tolerance" := VInt 2]>
  (<["proposed_resize_dir" := VStr (if shrink then "shrink" else "scale")]>
  (<["proposed_res" := VTuple ph pw]>
  (<["screen_factor" := VFloat screen_factor]>
  (<["defined_res" := VTuple 1920 1080]>
  (<["img_aspect_ratio" := VFloat (aspect_ratio img)]>
  (<["img_res" := VTuple (shape img).1 (shape img).2]>
  (<["img_obj" := VArray img]> d0))))))))).

(** The canvas [add_pip_vars] allocates. *)
Definition gray_canvas : ndarray :=
  replicate (Z.to_nat 1920) (replicate (Z.to_nat 1080) (128, 128, 128)%Z).

Definition top (ph : Z) : Z := ((1920 - ph) / 2)%Z.
Definition left (pw : Z) : Z := ((1080 - pw) / 2)%Z.

(** [img_vars['pip_coords']]. *)
Definition pip_coords (ph pw : Z) : gmap string Z :=
  <["y2" := (top ph + ph)%Z]> (<["y1" := top ph]>
  (<["x2" := (left pw + pw)%Z]> {["x1" := left pw]})).

(** [img_vars] when [add_pip_vars] returns. *)
Definition composited (d : gmap string value) (ph pw : Z) : gmap string value :=
  <["pip_coords" := VDict (pip_coords ph pw)]>
  (<["canvas" := VArray gray_canvas]> d).

(** The buffer handed to [cv2.imwrite]: the canvas with the resized image
    pasted at the placement rectangle. *)
Definition rendered (interp : ndarray -> Z -> Z -> nat -> nat -> pixel)
    (img : ndarray) (ph pw : Z) : ndarray :=
  take (Z.to_nat (top ph)) gray_canvas
  ++ zip_with (fun crow vrow =>
                 take (Z.to_nat (left pw)) crow ++ vrow
                 ++ drop (Z.to_nat (left pw + pw)) crow)
              (take (Z.to_nat ph) (drop (Z.to_nat (top ph)) gray_canvas))
              (tabulate (Z.to_nat ph) (Z.to_nat pw) (interp img ph pw))
  ++ drop (Z.to_nat (top ph + ph)) gray_canvas.

(** [img_vars] when [process_image] returns: the canvas it holds is the
    buffer that was written. *)
Definition processed (interp : ndarray -> Z -> Z -> nat -> nat -> pixel)
    (d0 : gmap string value) (img : ndarray) (ph pw : Z) : gmap string value :=
  <["canvas" := VArray (rendered interp img ph pw)]>
  (composited (planned d0 img ph pw) ph pw).

(** The name of the file at index [i], as [process_image] puts it together
    from the two [strftime] texts, the index and the extension. *)
Definition dest_name (t : datetime) (i : nat) : string :=
  year_text (year t) +:+ zpad 2 (month t) +:+ zpad 2 (day t) +:+ "_"
  +:+ zpad 2 (hour t) +:+ zpad 2 (minute t) +:+ "_" +:+ pretty i +:+ ".jpg".

(** The file one pass writes. *)
Definition output (interp : ndarray -> Z -> Z -> nat -> nat -> pixel)
    (img : ndarray) (ph pw : Z) (output_dir : string) (t : datetime) (i : nat)
  : string * ndarray :=
  (path_join output_dir (dest_name t i), rendered interp img ph pw).

(** The arithmetic of the planner, in binary64 as the script computes it:
    the rounded aspect ratio, candidate A from the width with the rounded
    quotient, and the recomputation from the height with the rounded
    product when candidate A is too high.  On the non-negative floats of the
    planner the floor is Python's [int].  The result is
    (proposed_width, proposed_height). *)
Definition float_proposal (factor : spec_float) (target_height target_width : Z)
    (natural_width natural_height : Z) : option (Z * Z) :=
  let r := B64.div (B64.of_int natural_width) (B64.of_int natural_height) in
  proposed_width ← B64.floor (B64.mul factor (B64.of_int target_width));
  proposed_height ← B64.floor (B64.div (B64.of_int proposed_width) r);
  if (proposed_height <=? target_height)%Z
  then Some (proposed_width, proposed_height)
  else
    proposed_height ← B64.floor (B64.mul factor (B64.of_int target_height));
    proposed_width ← B64.floor (B64.mul (B64.of_int proposed_height) r);
    Some (proposed_width, proposed_height).

(** The proposed dimensions (height, width) of an image, read off the
    arithmetic of the planner (0 where it is undefined). *)
Definition proposed_res (img : ndarray) : Z * Z :=
  match float_proposal screen_factor 1920 1080 (shape img).2 (shape img).1 with
  | Some (pw, ph) => (ph, pw)
  | None => (0, 0)%Z
  end.

(** A path the pipeline carries to the end: a decodable image whose
    proposed dimensions are both positive. *)
Definition processable (imread : string -> option ndarray) (path : string)
  : Prop :=
  exists img, imread path = Some img /\ decodable img = true /\
              (0 < (proposed_res img).1)%Z /\ (0 < (proposed_res img).2)%Z.

(** The file written for the input at [path] and index [i]. *)
Definition file_of (imread : string -> option ndarray)
    (interp : ndarray -> Z -> Z -> nat -> nat -> pixel)
    (output_dir : string) (t : datetime) (i : nat) (path : string)
  : string * ndarray :=
  match imread path with
  | Some img =>
      output interp img (proposed_res img).1 (proposed_res img).2 output_dir t i
  | None => (EmptyString, [])
  end.

End Pipeline.

(* ===================================================================== *)
(** * The expression of the date format, field by field *)
(* ===================================================================== *)

Module DateFormat.

Import DateTime.

Definition captures : Type := gmap string (list ascii).

(** The expression of a directive of the table. *)
Definition re (d : ascii) : regex := default REmpty (directive d).

(** The expression [TimeRE.pattern] builds for "%Y-%m-%d_%H-%M". *)
Definition format_regex : regex :=
  RSeq (re "Y") (RSeq (RChar "-") (RSeq (re "m") (RSeq (RChar "-")
  (RSeq (re "d") (RSeq (RChar "_") (RSeq (re "H") (RSeq (RChar "-")
  (RSeq (re "M") REmpty)))))))).

(** A continuation that refuses every text that starts with a digit: what
    follows a field of the format does. *)
Definition fails_on_digit {X} (k : list ascii -> captures -> option X) : Prop :=
  forall c s caps, is_digit c = true -> k (c :: s) caps = None.

(** The values the expressions of the two-digit fields let through. *)
Definition ok_m (v : Z) : bool := (1 <=? v)%Z && (v <=? 12)%Z.
Definition ok_d (v : Z) : bool := (1 <=? v)%Z && (v <=? 31)%Z.
Definition ok_H (v : Z) : bool := (v <=? 23)%Z.
Definition ok_M (v : Z) : bool := (v <=? 59)%Z.

End DateFormat.

(* ===================================================================== *)
(** * Concrete inputs *)
(* ===================================================================== *)

Module Examples.

Import Np DateTime.

Definition black : pixel := (0, 0, 0)%Z.

(** A black image of [h] rows and [w] columns. *)
Definition blank (h w : nat) : ndarray := replicate h (replicate w black).

(** 1080 wide and 1920 high: the aspect ratio of the canvas. *)
Definition portrait : ndarray := blank 1920 1080.
(** 1920 wide and 1080 high. *)
Definition landscape : ndarray := blank 1080 1920.
(** 20 by 20: enlarged forty times. *)
Definition thumbnail : ndarray := blank 20 20.
(** 10 wide and 30 high. *)
Definition strip : ndarray := blank 30 10.

(** A file system where every path holds the image [img]. *)
Definition disk (img : ndarray) : string -> option ndarray := fun _ => Some img.

(** A file system that holds the thumbnail at "b.png" and the strip at
    every other path. *)
Definition album : string -> option ndarray :=
  fun path => if String.eqb path "b.png" then Some thumbnail else Some strip.

(** An interpolation that paints everything black. *)
Definition paint_black : ndarray -> Z -> Z -> nat -> nat -> pixel :=
  fun _ _ _ _ _ => black.

Definition march_first : datetime :=
  {| year := 2024; month := 3; day := 1; hour := 9; minute := 30 |}.

(** 9 wide and 11 high: 810 * 11 / 9 is the whole number 990. *)
Definition slip : ndarray := blank 11 9.

(** The first minute of the year 999. *)
Definition new_year_999 : datetime :=
  {| year := 999; month := 1; day := 1; hour := 0; minute := 0 |}.

End Examples.

(* ===================================================================== *)
(** * Reading the results of a pass *)
(* ===================================================================== *)

Module Picture.

Import Np.

(** The fill of the canvas. *)
Definition gray : pixel := (128, 128, 128)%Z.

(** [a[y, x]] for indices inside the array. *)
Definition pixel_at (a : ndarray) (y x : nat) : option pixel :=
  row ← a !! y; row !! x.

(** The keys of [img_vars] the three stages assign. *)
Definition pass_keys : list string :=
  ["img_obj"; "img_res"; "img_aspect_ratio"; "defined_res"; "screen_factor";
   "proposed_res"; "proposed_resize_dir"; "scale_tolerance";
   "proposed_resize_factor"; "resize_validity"; "canvas"; "pip_coords"].

End Picture.

(* ===================================================================== *)
(** * The text of the date argument *)
(* ===================================================================== *)

Module DateText.

Import DateTime.



Definition digit_chars : list ascii :=
  ["0"; "1"; "2"; "3"; "4"; "5"; "6"; "7"; "8"; "9"]%char.

(** The digits of a string of the pattern YYYY-MM-DD_HH-MM as the file
    names carry them: YYYYMMDD_HHMM. *)
Definition stamp (s : string) : string :=
  match list_ascii_of_string s with
  | [y1; y2; y3; y4; _; m1; m2; _; d1; d2; _; h1; h2; _; n1; n2] =>
      string_of_list_ascii
        [y1; y2; y3; y4; m1; m2; d1; d2; "_"%char; h1; h2; n1; n2]
  | _ => EmptyString
  end.

(** [strftime] gives back the two digits [a] and [b] of a field. *)
Definition two_digits_kept (a b : ascii) : bool :=
  String.eqb (zpad 2 (digits_value 0 [a; b])) (string_of_list_ascii [a; b]).

(** [strftime] gives back the four digits of a year from 1000 on. *)
Definition four_digits_kept (a b c d : ascii) : bool :=
  (digits_value 0 [a; b; c; d] <? 1000)%Z
  || String.eqb (year_text (digits_value 0 [a; b; c; d]))
                (string_of_list_ascii [a; b; c; d]).

End DateText.

(* ===================================================================== *)
(** * More concrete inputs *)
(* ===================================================================== *)

Module MoreExamples.

Import Np Examples.

(** A file system where "gone.png" cannot be read, "a.png" holds the
    thumbnail and every other path the strip. *)
Definition shelf : string -> option ndarray :=
  fun path =>
    if String.eqb path "gone.png" then None
    else if String.eqb path "a.png" then Some thumbnail
    else Some strip.

(** 900 wide and 1 high, and 1 wide and 2100 high. *)
Definition ribbon : ndarray := blank 1 900.
Definition thread : ndarray := blank 2100 1.

End MoreExamples.
Module B64Facts.
Import B64.

Local Open Scope Z_scope.

Lemma fexp_eq e : fexp e = Z.max (e - 53) (-1074).
Proof. reflexivity. Qed.

Lemma fexp_mono a b : a <= b -> fexp a <= fexp b.
Proof. rewrite !fexp_eq. lia. Qed.

(** ** Binary digits *)

Lemma digits2_pos_size p : digits2_pos p = Pos.size p.
Proof. induction p; simpl; congruence. Qed.

Lemma Zdigits2_log2 p : Zdigits2 (Zpos p) = Z.succ (Z.log2 (Zpos p)).
Proof.
  unfold Zdigits2. rewrite digits2_pos_size.
  destruct p; simpl; lia.
Qed.

Lemma Zdigits2_bounds m :
  0 < m -> 2 ^ (Zdigits2 m - 1) <= m < 2 ^ Zdigits2 m.
Proof.
  intros Hm. destruct m as [|p|p]; try lia.
  rewrite Zdigits2_log2.
  replace (Z.succ (Z.log2 (Z.pos p)) - 1) with (Z.log2 (Z.pos p)) by lia.
  apply Z.log2_spec. lia.
Qed.

Lemma Zdigits2_pos m : 0 < m -> 0 < Zdigits2 m.
Proof.
  intros Hm. destruct m as [|p|p]; try lia. simpl. lia.
Qed.

Lemma Zdigits2_unique m d :
  0 < m -> 2 ^ (d - 1) <= m < 2 ^ d -> Zdigits2 m = d.
Proof.
  intros Hm [Hl Hu]. destruct m as [|p|p]; try lia.
  rewrite Zdigits2_log2.
  assert (Hd : 0 < d).
  { destruct (Z_lt_le_dec 0 d) as [|Hd]; [assumption|].
    destruct (Z.eq_dec d 0) as [->|]; [simpl in Hu; lia|].
    rewrite (Z.pow_neg_r 2 d) in Hu by lia. lia. }
  rewrite (Z.log2_unique (Z.pos p) (d - 1)); try lia.
  replace (Z.succ (d - 1)) with d by lia. lia.
Qed.

Lemma Zdigits2_mono a b : 0 < a -> a <= b -> Zdigits2 a <= Zdigits2 b.
Proof.
  intros Ha Hab.
  destruct a as [|p|p]; try lia. destruct b as [|q|q]; try lia.
  rewrite !Zdigits2_log2. apply Z.log2_le_mono in Hab. lia.
Qed.

(** ** Right shifts with round and sticky bits *)





Lemma shr_1_shifted mrs : 0 <= shr_m mrs -> shifted 1 mrs (shr_1 mrs).
Proof.
  destruct mrs as [m r s]. simpl. intros Hm. unfold shifted, inex.
  destruct m as [|[p|p|]|p]; try lia; simpl;
    [exists 0|exists 1|exists 0|exists 1];
    (repeat split; try lia; destruct r, s; simpl in *; intuition congruence).
Qed.

Lemma shifted_trans a b x y z :
  0 <= a -> 0 <= b -> shifted a x y -> shifted b y z -> shifted (a + b) x z.
Proof.
  intros Ha Hb (r1 & Hr1 & E1 & P1 & I1) (r2 & Hr2 & E2 & P2 & I2).
  exists (r2 * 2 ^ a + r1).
  assert (Hpa : 0 < 2 ^ a) by (apply Z.pow_pos_nonneg; lia).
  assert (Hpb : 0 < 2 ^ b) by (apply Z.pow_pos_nonneg; lia).
  rewrite Z.pow_add_r by lia.
  split; [nia|]. split; [nia|]. split; [nia|]. split.
  - intros H. apply I2 in H as [Hy ->]. apply I1 in Hy as [Hx ->]. split; [assumption|lia].
  - intros [H H0]. assert (r2 = 0 /\ r1 = 0) as [-> ->] by nia.
    apply I2. split; [|reflexivity]. apply I1. split; [assumption|reflexivity].
Qed.

Lemma iter_pos_shifted p :
  forall mrs, 0 <= shr_m mrs -> shifted (Zpos p) mrs (SpecFloat.iter_pos shr_1 p mrs).
Proof.
  induction p as [p IH|p IH|]; intros mrs Hm; simpl.
  - pose proof (shr_1_shifted mrs Hm) as H1.
    assert (P1 : 0 <= shr_m (shr_1 mrs)) by (destruct H1 as (? & ? & ? & ? & ?); assumption).
    pose proof (IH _ P1) as H2.
    assert (P2 : 0 <= shr_m (SpecFloat.iter_pos shr_1 p (shr_1 mrs)))
      by (destruct H2 as (? & ? & ? & ? & ?); assumption).
    pose proof (IH _ P2) as H3.
    replace (Z.pos p~1) with (1 + (Z.pos p + Z.pos p)) by lia.
    eapply shifted_trans; [lia|lia|exact H1|].
    eapply shifted_trans; [lia|lia|exact H2|exact H3].
  - pose proof (IH _ Hm) as H2.
    assert (P2 : 0 <= shr_m (SpecFloat.iter_pos shr_1 p mrs))
      by (destruct H2 as (? & ? & ? & ? & ?); assumption).
    pose proof (IH _ P2) as H3.
    replace (Z.pos p~0) with (Z.pos p + Z.pos p) by lia.
    eapply shifted_trans; [lia|lia|exact H2|exact H3].
  - apply shr_1_shifted; assumption.
Qed.

Lemma shifted_0 mrs : 0 <= shr_m mrs -> shifted 0 mrs mrs.
Proof.
  intros Hm. exists 0. simpl. repeat split; try lia; tauto.
Qed.

Lemma inex_of_loc m l : inex (shr_record_of_loc m l) = false <-> l = loc_Exact.
Proof.
  destruct l as [|[]]; unfold inex; simpl; split; congruence.
Qed.

Lemma shr_m_of_loc m l : shr_m (shr_record_of_loc m l) = m.
Proof. destruct l as [|[]]; reflexivity. Qed.

(** [shr_fexp] brings a mantissa to the exponent of its unit in the last
    place, when that exponent is not below the current one. *)
Lemma shr_fexp_shifted m e l :
  0 <= m -> e <= fexp (Zdigits2 m + e) ->
  exists mrs, shr_fexp prec emax m e l = (mrs, fexp (Zdigits2 m + e)) /\
              shifted (fexp (Zdigits2 m + e) - e) (shr_record_of_loc m l) mrs.
Proof.
  intros Hm He. unfold shr_fexp, shr. fold (fexp (Zdigits2 m + e)).
  remember (fexp (Zdigits2 m + e) - e) as n eqn:En.
  destruct n as [|p|p]; try lia.
  - exists (shr_record_of_loc m l). split; [f_equal; lia|].
    apply shifted_0. rewrite shr_m_of_loc. assumption.
  - exists (SpecFloat.iter_pos shr_1 p (shr_record_of_loc m l)). split; [f_equal; lia|].
    apply iter_pos_shifted. rewrite shr_m_of_loc. assumption.
Qed.

Lemma shr_fexp_id m e l :
  fexp (Zdigits2 m + e) <= e ->
  shr_fexp prec emax m e l = (shr_record_of_loc m l, e).
Proof.
  intros He. unfold shr_fexp, shr. fold (fexp (Zdigits2 m + e)).
  destruct (fexp (Zdigits2 m + e) - e) eqn:E; try reflexivity. lia.
Qed.

Lemma round_nearest_even_cases mrs :
  let mr := round_nearest_even (shr_m mrs) (loc_of_shr_record mrs) in
  mr = shr_m mrs \/ (mr = shr_m mrs + 1 /\ inex mrs = true).
Proof.
  destruct mrs as [m [] []]; unfold inex; simpl; try destruct (Z.even m); auto.
Qed.

(** ** The shape of a rounded result *)



Lemma fexp_ge e : -1074 <= fexp e.
Proof. rewrite fexp_eq. lia. Qed.

Lemma second_shift_id mr e1 :
  0 <= mr < 2 ^ 53 -> -1074 <= e1 ->
  shr_fexp prec emax mr e1 loc_Exact = (shr_record_of_loc mr loc_Exact, e1).
Proof.
  intros [H0 H1] He. apply shr_fexp_id. rewrite fexp_eq.
  destruct (Z.eq_dec mr 0) as [->|Hn]; [simpl; lia|].
  assert (Hd : Zdigits2 mr <= 53).
  { pose proof (Zdigits2_bounds mr ltac:(lia)) as [Hl _].
    destruct (Z_le_gt_dec (Zdigits2 mr) 53) as [|Hgt]; [assumption|].
    assert (2 ^ 53 <= 2 ^ (Zdigits2 mr - 1)) by (apply Z.pow_le_mono_r; lia). lia. }
  lia.
Qed.

Lemma binary_round_aux_shape s m e l :
  0 <= m -> e <= fexp (Zdigits2 m + e) ->
  exists mr,
    (mr = m / 2 ^ (fexp (Zdigits2 m + e) - e) \/
     (mr = m / 2 ^ (fexp (Zdigits2 m + e) - e) + 1 /\
      (l <> loc_Exact \/ m mod 2 ^ (fexp (Zdigits2 m + e) - e) <> 0))) /\
    0 <= m / 2 ^ (fexp (Zdigits2 m + e) - e) < 2 ^ 53 /\
    binary_round_aux prec emax s m e l =
      round_result s mr (fexp (Zdigits2 m + e)).
Proof.
  intros Hm He.
  destruct (shr_fexp_shifted m e l Hm He) as (mrs & Hshr & rem & Hrem & Em & Pm & Im).
  set (e1 := fexp (Zdigits2 m + e)) in *. set (n := e1 - e) in *.
  assert (Hn : 0 <= n) by (unfold n; lia).
  assert (Hp : 0 < 2 ^ n) by (apply Z.pow_pos_nonneg; lia).
  rewrite shr_m_of_loc in Em.
  assert (Emf : m / 2 ^ n = shr_m mrs).
  { symmetry. apply (Z.div_unique_pos m (2 ^ n) (shr_m mrs) rem); lia. }
  assert (Erem : m mod 2 ^ n = rem).
  { symmetry. apply (Z.mod_unique_pos m (2 ^ n) (shr_m mrs) rem); lia. }
  assert (Hmf : shr_m mrs < 2 ^ 53).
  { destruct (Z.eq_dec m 0) as [E0|Hn0].
    - assert (shr_m mrs = 0) by nia. lia.
    - pose proof (Zdigits2_bounds m ltac:(lia)) as [_ Hu].
      assert (Hdn : Zdigits2 m <= 53 + n).
      { unfold n, e1. rewrite fexp_eq. lia. }
      assert (2 ^ Zdigits2 m <= 2 ^ (53 + n)) by (apply Z.pow_le_mono_r; lia).
      rewrite Z.pow_add_r in H by lia. nia. }
  exists (round_nearest_even (shr_m mrs) (loc_of_shr_record mrs)).
  rewrite Emf, Erem.
  split; [|split; [lia|]].
  - destruct (round_nearest_even_cases mrs) as [E|[E Hin]]; [left; exact E|right].
    split; [exact E|].
    destruct l as [|c]; [|left; discriminate].
    right. intros ->.
    assert (inex mrs = false) by (apply Im; split; [apply inex_of_loc|]; reflexivity).
    congruence.
  - unfold binary_round_aux. rewrite Hshr.
    set (mr := round_nearest_even (shr_m mrs) (loc_of_shr_record mrs)).
    assert (Hmr : 0 <= mr <= 2 ^ 53).
    { destruct (round_nearest_even_cases mrs) as [E|[E _]]; fold mr in E; lia. }
    assert (He1 : -1074 <= e1) by apply fexp_ge.
    unfold round_result.
    destruct (Z.eq_dec mr (2 ^ 53)) as [E53|N53].
    + rewrite E53.
      replace (shr_fexp prec emax (2 ^ 53) e1 loc_Exact)
        with ({| shr_m := 2 ^ 52; shr_r := false; shr_s := false |}, e1 + 1).
      * reflexivity.
      * unfold shr_fexp. fold (fexp (Zdigits2 (2 ^ 53) + e1)).
        replace (fexp (Zdigits2 (2 ^ 53) + e1) - e1) with 1
          by (rewrite fexp_eq; change (Zdigits2 (2 ^ 53)) with 54; lia).
        reflexivity.
    + rewrite second_shift_id by lia. simpl shr_m.
      destruct (Z.eqb_spec mr 0) as [E0|N0]; [rewrite E0; reflexivity|].
      destruct (Z.ltb_spec mr (2 ^ 53)); [|lia].
      destruct mr as [|p|p]; try lia. reflexivity.
Qed.

(** ** Real values *)

Local Open Scope R_scope.







Lemma bpow_pos e : 0 < bpow e.
Proof. apply powerRZ_lt. lra. Qed.

Lemma bpow_add a b : bpow (a + b) = bpow a * bpow b.
Proof. apply powerRZ_add. lra. Qed.

Lemma bpow_Zpow n : (0 <= n)%Z -> bpow n = IZR (2 ^ n).
Proof.
  intros Hn. unfold bpow.
  rewrite <- (Z2Nat.id n) by assumption.
  rewrite <- pow_powerRZ, pow_IZR. reflexivity.
Qed.

Lemma bpow_ge_1 n : (0 <= n)%Z -> 1 <= bpow n.
Proof.
  intros Hn. rewrite bpow_Zpow by assumption.
  apply IZR_le. assert (0 < 2 ^ n)%Z by (apply Z.pow_pos_nonneg; lia). lia.
Qed.

Lemma bpow_le a b : (a <= b)%Z -> bpow a <= bpow b.
Proof.
  intros Hab. replace b with (a + (b - a))%Z by lia. rewrite bpow_add.
  pose proof (bpow_pos a). pose proof (bpow_ge_1 (b - a) ltac:(lia)). nra.
Qed.

Lemma bpow_lt a b : (a < b)%Z -> bpow a < bpow b.
Proof.
  intros Hab. replace b with (a + 1 + (b - a - 1))%Z by lia. rewrite !bpow_add.
  pose proof (bpow_pos a). pose proof (bpow_ge_1 (b - a - 1) ltac:(lia)).
  change (bpow 1) with (2 * 1). nra.
Qed.

Lemma bpow_lt_inv a b : bpow a < bpow b -> (a < b)%Z.
Proof.
  intros H. destruct (Z_lt_le_dec a b) as [|Hle]; [assumption|].
  apply bpow_le in Hle. lra.
Qed.

Lemma F2R_shift m e n : (0 <= n)%Z -> F2R (m * 2 ^ n) e = F2R m (e + n).
Proof.
  intros Hn. unfold F2R. rewrite mult_IZR, <- bpow_Zpow by assumption.
  rewrite bpow_add. ring.
Qed.

Lemma F2R_le m1 m2 e : (m1 <= m2)%Z -> F2R m1 e <= F2R m2 e.
Proof.
  intros H. apply IZR_le in H. unfold F2R. pose proof (bpow_pos e). nra.
Qed.

Lemma F2R_lt m1 m2 e : (m1 < m2)%Z -> F2R m1 e < F2R m2 e.
Proof.
  intros H. apply IZR_lt in H. unfold F2R. pose proof (bpow_pos e). nra.
Qed.

Lemma F2R_le_inv m1 m2 e : F2R m1 e <= F2R m2 e -> (m1 <= m2)%Z.
Proof.
  intros H. destruct (Z_le_gt_dec m1 m2) as [|Hgt]; [assumption|].
  assert (F2R m2 e < F2R m1 e) by (apply F2R_lt; lia). lra.
Qed.

Lemma F2R_lt_inv m1 m2 e : F2R m1 e < F2R m2 e -> (m1 < m2)%Z.
Proof.
  intros H. destruct (Z_lt_le_dec m1 m2) as [|Hle]; [assumption|].
  apply (F2R_le _ _ e) in Hle. lra.
Qed.

Lemma F2R_bpow n e : (0 <= n)%Z -> F2R (2 ^ n) e = bpow (n + e).
Proof.
  intros Hn. unfold F2R. rewrite <- bpow_Zpow by assumption.
  rewrite bpow_add. reflexivity.
Qed.

(** A positive mantissa of [d] digits at exponent [e] lies in
    [[2^(d-1+e), 2^(d+e))]. *)
Lemma F2R_digits m e :
  (0 < m)%Z -> bpow (Zdigits2 m - 1 + e) <= F2R m e < bpow (Zdigits2 m + e).
Proof.
  intros Hm. destruct (Zdigits2_bounds m Hm) as [Hl Hu].
  pose proof (Zdigits2_pos m Hm) as Hd.
  rewrite <- !F2R_bpow by lia. split; [apply F2R_le|apply F2R_lt]; assumption.
Qed.



Lemma canonical_lt c k : canonical c k -> (c < 2 ^ 53)%Z.
Proof.
  intros [Hc Hk]. rewrite fexp_eq in Hk.
  destruct (Zdigits2_bounds c Hc) as [_ Hu].
  assert (2 ^ Zdigits2 c <= 2 ^ 53)%Z by (apply Z.pow_le_mono_r; lia). lia.
Qed.

Lemma canonical_ge c k : canonical c k -> (-1074 <= k)%Z.
Proof. intros [_ ->]. apply fexp_ge. Qed.

(** ** Rounding never crosses a representable bound *)







Lemma round_result_sign s mr e1 : has_sign s (round_result s mr e1).
Proof.
  unfold round_result.
  repeat match goal with |- context [if ?b then _ else _] => destruct b end;
    reflexivity.
Qed.

Lemma F2R_carry e1 : F2R (2 ^ 52) (e1 + 1) = F2R (2 ^ 53) e1.
Proof.
  rewrite <- F2R_shift by lia. reflexivity.
Qed.

Lemma round_result_le s mr e1 B :
  (0 <= mr <= 2 ^ 53)%Z -> F2R mr e1 <= B ->
  (mr < 2 ^ 53 -> e1 <= 971)%Z -> (mr = 2 ^ 53 -> e1 + 1 <= 971)%Z ->
  le_bound (round_result s mr e1) B.
Proof.
  intros Hmr HB H1 H2. unfold round_result.
  destruct (Z.eqb_spec mr 0) as [E0|N0]; [exact I|].
  destruct (Z.ltb_spec mr (2 ^ 53)) as [Hlt|Hge].
  - destruct (Z.leb_spec e1 971); [|lia]. simpl.
    rewrite Z2Pos.id by lia. split; [assumption|lia].
  - assert (E : mr = (2 ^ 53)%Z) by lia.
    destruct (Z.leb_spec (e1 + 1) 971); [|lia]. unfold le_bound.
    rewrite Z2Pos.id by lia. rewrite F2R_carry, <- E. split; [assumption|lia].
Qed.

Lemma round_result_ge s mr e1 B :
  (0 < mr <= 2 ^ 53)%Z -> B <= F2R mr e1 ->
  ge_bound (round_result s mr e1) B.
Proof.
  intros Hmr HB. unfold round_result.
  destruct (Z.eqb_spec mr 0) as [E0|N0]; [lia|].
  destruct (Z.ltb_spec mr (2 ^ 53)) as [Hlt|Hge].
  - destruct (Z.leb_spec e1 971); [|exact I]. simpl.
    rewrite Z2Pos.id by lia. assumption.
  - assert (E : mr = (2 ^ 53)%Z) by lia.
    destruct (Z.leb_spec (e1 + 1) 971); [|exact I]. unfold ge_bound.
    rewrite Z2Pos.id by lia. rewrite F2R_carry, <- E. assumption.
Qed.

Lemma binary_round_aux_sign s m e l :
  (0 <= m)%Z -> (e <= fexp (Zdigits2 m + e))%Z ->
  has_sign s (binary_round_aux prec emax s m e l).
Proof.
  intros Hm He.
  destruct (binary_round_aux_shape s m e l Hm He) as (mr & _ & _ & ->).
  apply round_result_sign.
Qed.



Lemma Zfloor_pow_bounds m n :
  (0 <= m)%Z -> (0 <= n)%Z ->
  (m / 2 ^ n * 2 ^ n <= m < (m / 2 ^ n + 1) * 2 ^ n)%Z.
Proof.
  intros Hm Hn. assert (0 < 2 ^ n)%Z by (apply Z.pow_pos_nonneg; lia).
  pose proof (Z.div_mod m (2 ^ n) ltac:(lia)).
  pose proof (Z.mod_pos_bound m (2 ^ n) ltac:(lia)). nia.
Qed.

Theorem round_upper s m e l x c k :
  (0 <= m)%Z -> (e <= fexp (Zdigits2 m + e))%Z -> located m e l x ->
  canonical c k -> (k <= 971)%Z -> x <= F2R c k ->
  le_bound (binary_round_aux prec emax s m e l) (F2R c k).
Proof.
  intros Hm He ((Hx1 & Hx2) & Hex & Hin) Hc Hk HxC.
  destruct (binary_round_aux_shape s m e l Hm He) as (mr & Hmr & Hmf & ->).
  set (e1 := fexp (Zdigits2 m + e)) in *. set (n := (e1 - e)%Z) in *.
  set (mf := (m / 2 ^ n)%Z) in *.
  assert (Hn : (0 <= n)%Z) by (unfold n; lia).
  pose proof (canonical_lt c k Hc) as Hc53. pose proof (canonical_ge c k Hc) as Hkge.
  destruct Hc as [Hc0 Hkc].
  assert (He1 : (e1 <= k)%Z).
  { destruct (Z.eq_dec m 0%Z) as [E0|N0].
    - unfold e1 in *. rewrite E0 in *. simpl in He |- *. rewrite fexp_eq in He |- *. lia.
    - destruct (F2R_digits m e ltac:(lia)) as [Hl _].
      destruct (F2R_digits c k Hc0) as [_ Hu].
      assert (Hlt : bpow (Zdigits2 m - 1 + e) < bpow (Zdigits2 c + k)) by lra.
      apply bpow_lt_inv in Hlt. rewrite Hkc. apply fexp_mono. lia. }
  destruct (Zfloor_pow_bounds m n Hm Hn) as [Hfl Hfu]. fold mf in Hfl, Hfu.
  assert (EC : F2R c k = F2R (c * 2 ^ (k - e1)) e1).
  { rewrite F2R_shift by lia. f_equal. lia. }
  assert (Emf : F2R mf e1 = F2R (mf * 2 ^ n) e).
  { rewrite F2R_shift by lia. f_equal. unfold n. lia. }
  assert (Hle : (mf <= c * 2 ^ (k - e1))%Z).
  { apply (F2R_le_inv _ _ e1). rewrite <- EC, Emf.
    apply (F2R_le _ _ e) in Hfl. lra. }
  assert (Hmr' : (mr <= c * 2 ^ (k - e1))%Z).
  { destruct Hmr as [->|[-> Hinex]]; [assumption|].
    destruct (Z.eq_dec mf (c * 2 ^ (k - e1))%Z) as [E|N]; [|lia]. exfalso.
    assert (Ex : x = F2R m e /\ F2R m e = F2R (mf * 2 ^ n) e).
    { apply (F2R_le _ _ e) in Hfl. rewrite <- Emf, E, <- EC in Hfl.
      rewrite <- Emf, E, <- EC. lra. }
    destruct Ex as [Ex1 Ex2].
    destruct Hinex as [Hl|Hrem].
    - apply Hin in Hl. lra.
    - apply Hrem. assert (m = mf * 2 ^ n)%Z.
      { apply Z.le_antisymm; [|assumption]. apply (F2R_le_inv _ _ e). lra. }
      rewrite H. apply Z.mod_mul. assert (0 < 2 ^ n)%Z by (apply Z.pow_pos_nonneg; lia). lia. }
  assert (Hp : (1 <= 2 ^ (k - e1))%Z).
  { assert (0 < 2 ^ (k - e1))%Z by (apply Z.pow_pos_nonneg; lia). lia. }
  apply round_result_le.
  - destruct Hmr as [->|[-> _]]; fold mf; lia.
  - rewrite EC. apply F2R_le. assumption.
  - lia.
  - intros E. destruct (Z.eq_dec k e1) as [Ek|Nk]; [|lia].
    rewrite Ek, Z.sub_diag in Hmr'. simpl in Hmr'. lia.
Qed.

Theorem round_lower s m e l x c k :
  (0 <= m)%Z -> (e <= fexp (Zdigits2 m + e))%Z -> located m e l x ->
  canonical c k -> F2R c k <= x ->
  ge_bound (binary_round_aux prec emax s m e l) (F2R c k).
Proof.
  intros Hm He ((Hx1 & Hx2) & Hex & Hin) Hc HxC.
  destruct (binary_round_aux_shape s m e l Hm He) as (mr & Hmr & Hmf & ->).
  set (e1 := fexp (Zdigits2 m + e)) in *. set (n := (e1 - e)%Z) in *.
  set (mf := (m / 2 ^ n)%Z) in *.
  assert (Hn : (0 <= n)%Z) by (unfold n; lia).
  pose proof (canonical_lt c k Hc) as Hc53. pose proof (canonical_ge c k Hc) as Hkge.
  destruct Hc as [Hc0 Hkc].
  assert (Hmr2 : (mf <= mr <= 2 ^ 53)%Z) by (destruct Hmr as [->|[-> _]]; lia).
  destruct (Zfloor_pow_bounds m n Hm Hn) as [Hfl Hfu]. fold mf in Hfl, Hfu.
  assert (Hm0 : (0 < m)%Z).
  { destruct (Z.eq_dec m 0%Z) as [E0|N0]; [|lia]. exfalso.
    unfold e1 in He. rewrite E0 in He, Hx2. simpl in He. rewrite fexp_eq in He.
    assert (F2R 1 e <= F2R 1 k).
    { unfold F2R. rewrite !Rmult_1_l. apply bpow_le. lia. }
    assert (F2R 1 k <= F2R c k) by (apply F2R_le; lia).
    change (0 + 1)%Z with 1%Z in Hx2. lra. }
  destruct (Z_le_gt_dec e1 k) as [He1|He1].
  - assert (EC : F2R c k = F2R (c * 2 ^ (k - e1)) e1).
    { rewrite F2R_shift by lia. f_equal. lia. }
    assert (Emf : F2R (mf + 1) e1 = F2R ((mf + 1) * 2 ^ n) e).
    { rewrite F2R_shift by lia. f_equal. unfold n. lia. }
    assert (Hp : (0 < 2 ^ (k - e1))%Z) by (apply Z.pow_pos_nonneg; lia).
    assert (Hle : (c * 2 ^ (k - e1) < mf + 1)%Z).
    { apply (F2R_lt_inv _ _ e1). rewrite <- EC, Emf.
      assert (F2R (m + 1) e <= F2R ((mf + 1) * 2 ^ n) e) by (apply F2R_le; lia).
      lra. }
    apply round_result_ge; [nia|].
    rewrite EC. apply F2R_le. lia.
  - assert (Ee1 : e1 = (Zdigits2 m + e - 53)%Z).
    { unfold e1 in *. rewrite fexp_eq in He1 |- *. lia. }
    assert (En : n = (Zdigits2 m - 53)%Z) by (unfold n; lia).
    destruct (Zdigits2_bounds m Hm0) as [Hl _].
    assert (H52 : (2 ^ 52 <= mf)%Z).
    { unfold mf. apply Z.div_le_lower_bound; [apply Z.pow_pos_nonneg; lia|].
      rewrite <- Z.pow_add_r by lia.
      replace (n + 52)%Z with (Zdigits2 m - 1)%Z by lia. assumption. }
    apply round_result_ge; [lia|].
    assert (F2R c k < F2R (2 ^ 53) k) by (apply F2R_lt; assumption).
    assert (F2R (2 ^ 53) k <= F2R (2 ^ 52) e1).
    { rewrite !F2R_bpow by lia. apply bpow_le. lia. }
    assert (F2R (2 ^ 52) e1 <= F2R mr e1) by (apply F2R_le; lia).
    lra.
Qed.

(** ** Division *)

Lemma new_location_exact n r :
  new_location n r = loc_Exact <-> r = 0%Z.
Proof.
  unfold new_location, new_location_even, new_location_odd.
  destruct (Z.even n); destruct (Z.eqb_spec r 0); split; congruence.
Qed.

Lemma div_core_located mx ex my ey :
  exists q e' l,
    SFdiv_core_binary prec emax (Zpos mx) ex (Zpos my) ey = (q, e', l) /\
    (0 <= q)%Z /\ (e' <= fexp (Zdigits2 q + e'))%Z /\
    located q e' l (F2R (Zpos mx) ex / F2R (Zpos my) ey).
Proof.
  unfold SFdiv_core_binary.
  fold (fexp (Zdigits2 (Z.pos mx) + ex - (Zdigits2 (Z.pos my) + ey))).
  set (d1 := Zdigits2 (Z.pos mx)). set (d2 := Zdigits2 (Z.pos my)).
  set (e' := Z.min (fexp (d1 + ex - (d2 + ey))) (ex - ey)).
  remember (ex - ey - e')%Z as s eqn:Es.
  assert (Hs : (0 <= s)%Z) by (unfold e' in Es; lia).
  set (m' := match s with
             | 0%Z => Z.pos mx | Z.pos _ => Z.shiftl (Z.pos mx) s | Z.neg _ => 0%Z
             end).
  assert (Em' : m' = (Z.pos mx * 2 ^ s)%Z).
  { unfold m'. clear Es. destruct s as [|p|p]; try lia.
    apply Z.shiftl_mul_pow2. lia. }
  clearbody m'.
  assert (Hps : (0 < 2 ^ s)%Z) by (apply Z.pow_pos_nonneg; lia).
  pose proof (Z_div_mod m' (Z.pos my) ltac:(lia)) as Hdm.
  destruct (Z.div_eucl m' (Z.pos my)) as [q r] eqn:Eqr.
  destruct Hdm as [Eq Hr].
  assert (Hq : (0 <= q)%Z) by nia.
  exists q, e', (new_location (Z.pos my) r).
  split; [reflexivity|]. split; [assumption|].
  assert (Hval : F2R (Z.pos mx) ex / F2R (Z.pos my) ey =
                 IZR m' / IZR (Z.pos my) * bpow e').
  { unfold F2R. rewrite Em', mult_IZR, <- bpow_Zpow by assumption.
    replace ex with (s + e' + ey)%Z at 1 by (lia).
    rewrite !bpow_add.
    pose proof (bpow_pos ey). assert (0 < IZR (Z.pos my)) by (apply IZR_lt; lia).
    field. split; lra. }
  assert (Hmy : 0 < IZR (Z.pos my)) by (apply IZR_lt; lia).
  assert (Hquo : IZR m' / IZR (Z.pos my) = IZR q + IZR r / IZR (Z.pos my)).
  { rewrite Eq, plus_IZR, mult_IZR. field. lra. }
  assert (Hr1 : 0 <= IZR r / IZR (Z.pos my) < 1).
  { assert (0 <= IZR r) by (apply IZR_le; lia).
    assert (IZR r < IZR (Z.pos my)) by (apply IZR_lt; lia).
    split.
    - apply Rmult_le_pos; [assumption|]. apply Rlt_le, Rinv_0_lt_compat. assumption.
    - apply (Rmult_lt_reg_r (IZR (Z.pos my))); [assumption|].
      unfold Rdiv. rewrite Rmult_assoc, Rinv_l by lra. lra. }
  split.
  - (* enough digits in the quotient *)
    rewrite fexp_eq.
    destruct (Z_le_gt_dec e' (-1074)) as [|Hgt]; [lia|].
    assert (He' : (e' <= d1 + ex - (d2 + ey) - 53)%Z).
    { unfold e' in *. rewrite fexp_eq in Hgt |- *. lia. }
    destruct (Zdigits2_bounds (Z.pos mx) ltac:(lia)) as [Hl1 _].
    destruct (Zdigits2_bounds (Z.pos my) ltac:(lia)) as [_ Hu2].
    fold d1 in Hl1. fold d2 in Hu2.
    pose proof (Zdigits2_pos (Z.pos mx) ltac:(lia)) as Hd1. fold d1 in Hd1.
    pose proof (Zdigits2_pos (Z.pos my) ltac:(lia)) as Hd2. fold d2 in Hd2.
    assert (H52 : (2 ^ 52 <= q)%Z).
    { assert (Hbig : (2 ^ 52 * 2 ^ d2 <= m')%Z).
      { rewrite Em', <- Z.pow_add_r by lia.
        assert (Hpw : (2 ^ (52 + d2) <= 2 ^ (d1 - 1 + s))%Z)
          by (apply Z.pow_le_mono_r; lia).
        rewrite (Z.pow_add_r 2 (d1 - 1) s) in Hpw by lia. nia. }
      destruct (Z_le_gt_dec (2 ^ 52) q) as [|Hq52]; [assumption|]. nia. }
    assert (53 <= Zdigits2 q)%Z.
    { change 53%Z with (Zdigits2 (2 ^ 52)). apply Zdigits2_mono; lia. }
    lia.
  - rewrite Hval, Hquo. unfold located, F2R. rewrite plus_IZR.
    pose proof (bpow_pos e') as Hb.
    split; [split; nra|]. split.
    + intros Hl. apply new_location_exact in Hl. subst r.
      unfold Rdiv. rewrite Rmult_0_l. ring.
    + intros Hl. assert (r <> 0%Z) by (intros ->; apply Hl, new_location_exact; reflexivity).
      assert (0 < IZR r) by (apply IZR_lt; lia).
      assert (0 < IZR r / IZR (Z.pos my)).
      { apply Rmult_lt_0_compat; [assumption|]. apply Rinv_0_lt_compat. assumption. }
      nra.
Qed.

Theorem div_upper sx mx ex sy my ey c k :
  canonical c k -> (k <= 971)%Z ->
  F2R (Zpos mx) ex / F2R (Zpos my) ey <= F2R c k ->
  le_bound (div (S754_finite sx mx ex) (S754_finite sy my ey)) (F2R c k).
Proof.
  intros Hc Hk Hx. unfold div, SFdiv.
  destruct (div_core_located mx ex my ey) as (q & e' & l & -> & Hq & He & Hloc).
  eapply round_upper; eassumption.
Qed.

Theorem div_lower sx mx ex sy my ey c k :
  canonical c k ->
  F2R c k <= F2R (Zpos mx) ex / F2R (Zpos my) ey ->
  ge_bound (div (S754_finite sx mx ex) (S754_finite sy my ey)) (F2R c k).
Proof.
  intros Hc Hx. unfold div, SFdiv.
  destruct (div_core_located mx ex my ey) as (q & e' & l & -> & Hq & He & Hloc).
  eapply round_lower; eassumption.
Qed.

Lemma div_sign sx mx ex sy my ey :
  has_sign (xorb sx sy) (div (S754_finite sx mx ex) (S754_finite sy my ey)).
Proof.
  unfold div, SFdiv.
  destruct (div_core_located mx ex my ey) as (q & e' & l & -> & Hq & He & Hloc).
  apply binary_round_aux_sign; assumption.
Qed.

(** ** Multiplication *)

Lemma F2R_mul m1 e1 m2 e2 : F2R (m1 * m2) (e1 + e2) = F2R m1 e1 * F2R m2 e2.
Proof. unfold F2R. rewrite mult_IZR, bpow_add. ring. Qed.

Lemma mul_located mx ex my ey :
  (2 ^ 52 <= Z.pos mx)%Z ->
  (ex + ey <= fexp (Zdigits2 (Z.pos (mx * my)) + (ex + ey)))%Z /\
  located (Z.pos (mx * my)) (ex + ey) loc_Exact
          (F2R (Z.pos mx) ex * F2R (Z.pos my) ey).
Proof.
  intros Hmx. split.
  - assert (53 <= Zdigits2 (Z.pos (mx * my)))%Z.
    { change 53%Z with (Zdigits2 (2 ^ 52)). apply Zdigits2_mono; [lia|].
      rewrite Pos2Z.inj_mul. nia. }
    rewrite fexp_eq. lia.
  - unfold located. rewrite <- F2R_mul, <- Pos2Z.inj_mul.
    split; [split; [lra|apply F2R_lt; lia]|]. split; [reflexivity|congruence].
Qed.

Theorem mul_upper sx mx ex sy my ey c k :
  (2 ^ 52 <= Z.pos mx)%Z -> canonical c k -> (k <= 971)%Z ->
  F2R (Zpos mx) ex * F2R (Zpos my) ey <= F2R c k ->
  le_bound (mul (S754_finite sx mx ex) (S754_finite sy my ey)) (F2R c k).
Proof.
  intros Hmx Hc Hk Hx. unfold mul, SFmul.
  destruct (mul_located mx ex my ey Hmx) as [He Hloc].
  eapply round_upper; try eassumption. lia.
Qed.

Lemma mul_sign sx mx ex sy my ey :
  (2 ^ 52 <= Z.pos mx)%Z ->
  has_sign (xorb sx sy) (mul (S754_finite sx mx ex) (S754_finite sy my ey)).
Proof.
  intros Hmx. unfold mul, SFmul.
  destruct (mul_located mx ex my ey Hmx) as [He Hloc].
  apply binary_round_aux_sign; [lia|assumption].
Qed.

(** ** Normal forms and the conversion of integers *)

Lemma iter_xO_value m d : Z.pos (Pos.iter xO m d) = (Z.pos m * 2 ^ Z.pos d)%Z.
Proof.
  induction d as [|d IH] using Pos.peano_ind.
  - simpl. lia.
  - rewrite Pos.iter_succ, Pos2Z.inj_xO, IH, Pos2Z.inj_succ, Z.pow_succ_r by lia.
    lia.
Qed.

Lemma shl_align_down mx ex ex' :
  (ex' <= ex)%Z ->
  exists mz, shl_align mx ex ex' = (mz, ex') /\
             Z.pos mz = (Z.pos mx * 2 ^ (ex - ex'))%Z.
Proof.
  intros H. unfold shl_align. destruct (ex' - ex)%Z as [|d|d] eqn:E; try lia.
  - exists mx. replace ex' with ex by lia. rewrite Z.sub_diag. split; [reflexivity|lia].
  - exists (Pos.iter xO mx d). split; [reflexivity|].
    rewrite iter_xO_value. f_equal. f_equal. lia.
Qed.

(** Every positive integer below [2^53], scaled by a power of two that keeps
    it a normal number, has a 53-bit canonical form. *)
Lemma canonical_norm N e0 :
  (0 < N < 2 ^ 53)%Z -> (-1074 <= e0 + Zdigits2 N - 53)%Z ->
  canonical (N * 2 ^ (53 - Zdigits2 N)) (e0 + Zdigits2 N - 53) /\
  Zdigits2 (N * 2 ^ (53 - Zdigits2 N)) = 53%Z /\
  F2R (N * 2 ^ (53 - Zdigits2 N)) (e0 + Zdigits2 N - 53) = F2R N e0.
Proof.
  intros [HN0 HN] He.
  destruct (Zdigits2_bounds N HN0) as [Hl Hu].
  pose proof (Zdigits2_pos N HN0) as Hd0.
  assert (Hd : (Zdigits2 N <= 53)%Z).
  { destruct (Z_le_gt_dec (Zdigits2 N) 53) as [|Hgt]; [assumption|].
    assert (2 ^ 53 <= 2 ^ (Zdigits2 N - 1))%Z by (apply Z.pow_le_mono_r; lia). lia. }
  set (d := Zdigits2 N) in *.
  assert (Hp : (0 < 2 ^ (53 - d))%Z) by (apply Z.pow_pos_nonneg; lia).
  assert (Hdc : Zdigits2 (N * 2 ^ (53 - d)) = 53%Z).
  { apply Zdigits2_unique; [nia|].
    assert (E1 : (2 ^ (d - 1) * 2 ^ (53 - d) = 2 ^ (53 - 1))%Z).
    { rewrite <- Z.pow_add_r by lia. f_equal. lia. }
    assert (E2 : (2 ^ d * 2 ^ (53 - d) = 2 ^ 53)%Z).
    { rewrite <- Z.pow_add_r by lia. f_equal. lia. }
    nia. }
  split; [|split; [assumption|]].
  - split; [nia|]. rewrite Hdc, fexp_eq. lia.
  - rewrite F2R_shift by lia. f_equal. lia.
Qed.

Lemma binary_round_exact s q e0 :
  (Z.pos q < 2 ^ 53)%Z ->
  (-1074 <= e0 + Zdigits2 (Z.pos q) - 53 <= 971)%Z ->
  exists p, binary_round prec emax s q e0 =
              S754_finite s p (e0 + Zdigits2 (Z.pos q) - 53) /\
            Z.pos p = (Z.pos q * 2 ^ (53 - Zdigits2 (Z.pos q)))%Z.
Proof.
  intros Hq He. unfold binary_round.
  change (Z.pos (digits2_pos q)) with (Zdigits2 (Z.pos q)).
  fold (fexp (Zdigits2 (Z.pos q) + e0)).
  destruct (canonical_norm (Z.pos q) e0 ltac:(lia) ltac:(lia)) as ([_ Hk] & Hdc & _).
  set (d := Zdigits2 (Z.pos q)) in *.
  assert (Ef : fexp (d + e0) = (e0 + d - 53)%Z) by (rewrite fexp_eq; lia).
  assert (Hd : (0 < d <= 53)%Z).
  { split; [apply Zdigits2_pos; lia|].
    destruct (Zdigits2_bounds (Z.pos q) ltac:(lia)) as [Hl _]. fold d in Hl.
    destruct (Z_le_gt_dec d 53) as [|Hgt]; [assumption|].
    assert (2 ^ 53 <= 2 ^ (d - 1))%Z by (apply Z.pow_le_mono_r; lia). lia. }
  rewrite Ef.
  destruct (shl_align_down q e0 (e0 + d - 53) ltac:(lia)) as (mz & -> & Emz).
  replace (e0 - (e0 + d - 53))%Z with (53 - d)%Z in Emz by lia.
  exists mz. split; [|assumption].
  rewrite <- Emz in Hdc, Hk.
  destruct (binary_round_aux_shape s (Z.pos mz) (e0 + d - 53) loc_Exact
              ltac:(lia) ltac:(lia)) as (mr & Hmr & Hmf & ->).
  rewrite <- Hk. rewrite <- Hk, Z.sub_diag in Hmr, Hmf.
  rewrite Z.pow_0_r, Z.div_1_r, Z.mod_1_r in Hmr.
  rewrite Z.pow_0_r, Z.div_1_r in Hmf.
  assert (mr = Z.pos mz) by (destruct Hmr as [|[_ [|]]]; congruence).
  subst mr. unfold round_result.
  destruct (Z.ltb_spec (Z.pos mz) (2 ^ 53)); [|lia].
  destruct (Z.leb_spec (e0 + d - 53) 971); [|lia]. reflexivity.
Qed.

Lemma of_int_pos n :
  (0 < n < 2 ^ 53)%Z ->
  exists p e, of_int n = S754_finite false p e /\ F2R (Z.pos p) e = IZR n.
Proof.
  intros [H0 H]. destruct n as [|q|q]; try lia.
  assert (Hd : (0 < Zdigits2 (Z.pos q) <= 53)%Z).
  { split; [apply Zdigits2_pos; lia|].
    destruct (Zdigits2_bounds (Z.pos q) ltac:(lia)) as [Hl _].
    destruct (Z_le_gt_dec (Zdigits2 (Z.pos q)) 53) as [|Hgt]; [assumption|].
    assert (2 ^ 53 <= 2 ^ (Zdigits2 (Z.pos q) - 1))%Z by (apply Z.pow_le_mono_r; lia).
    lia. }
  destruct (binary_round_exact false q 0 H ltac:(lia)) as (p & Hp & Ep).
  exists p, (0 + Zdigits2 (Z.pos q) - 53)%Z. split; [exact Hp|].
  destruct (canonical_norm (Z.pos q) 0 ltac:(lia) ltac:(lia)) as (_ & _ & EF).
  rewrite Ep, EF. unfold F2R. change (bpow 0) with 1. ring.
Qed.

(** ** Truncation *)



Lemma trunc_pos_bounds p e :
  IZR (trunc_pos p e) <= F2R (Z.pos p) e < IZR (trunc_pos p e) + 1.
Proof.
  unfold trunc_pos, F2R. destruct e as [|q|q].
  - change (bpow 0) with 1. lra.
  - rewrite mult_IZR, <- bpow_Zpow by lia. lra.
  - replace (bpow (Z.neg q)) with (/ IZR (2 ^ Z.pos q)).
    + assert (Hp : (0 < 2 ^ Z.pos q)%Z) by (apply Z.pow_pos_nonneg; lia).
      pose proof (Z.div_mod (Z.pos p) (2 ^ Z.pos q) ltac:(lia)) as Hdm.
      pose proof (Z.mod_pos_bound (Z.pos p) (2 ^ Z.pos q) Hp) as Hb.
      set (t := (Z.pos p / 2 ^ Z.pos q)%Z) in *.
      set (r := (Z.pos p mod 2 ^ Z.pos q)%Z) in *.
      assert (HP : 0 < IZR (2 ^ Z.pos q)) by (apply IZR_lt; lia).
      assert (EP : IZR (Z.pos p) = IZR (2 ^ Z.pos q) * IZR t + IZR r).
      { rewrite Hdm at 1. rewrite plus_IZR, mult_IZR. reflexivity. }
      rewrite EP.
      assert (Hr0 : 0 <= IZR r) by (apply IZR_le; lia).
      assert (Hr1 : IZR r < IZR (2 ^ Z.pos q)) by (apply IZR_lt; lia).
      assert (Hi : 0 < / IZR (2 ^ Z.pos q)) by (apply Rinv_0_lt_compat; assumption).
      replace ((IZR (2 ^ Z.pos q) * IZR t + IZR r) * / IZR (2 ^ Z.pos q))
        with (IZR t + IZR r * / IZR (2 ^ Z.pos q)) by (field; lra).
      assert (IZR r * / IZR (2 ^ Z.pos q) < 1).
      { apply (Rmult_lt_reg_r (IZR (2 ^ Z.pos q))); [assumption|].
        rewrite Rmult_assoc, Rinv_l by lra. lra. }
      assert (0 <= IZR r * / IZR (2 ^ Z.pos q)) by (apply Rmult_le_pos; lra).
      lra.
    + rewrite <- bpow_Zpow by lia. unfold bpow.
      change (Z.neg q) with (- Z.pos q)%Z. rewrite powerRZ_neg'. reflexivity.
Qed.

Lemma trunc_pos_nonneg p e : (0 <= trunc_pos p e)%Z.
Proof.
  unfold trunc_pos. destruct e as [|q|q]; [lia| |].
  - assert (0 < 2 ^ Z.pos q)%Z by (apply Z.pow_pos_nonneg; lia). nia.
  - apply Z.div_pos; [lia|apply Z.pow_pos_nonneg; lia].
Qed.

(** A nonnegative float known to be at most [B < n + 1] truncates into
    [[0, n]]. *)
Lemma trunc_le z B n :
  (0 <= n)%Z -> has_sign false z -> le_bound z B -> B < IZR (n + 1) ->
  exists t, trunc z = Some t /\ (0 <= t <= n)%Z.
Proof.
  intros Hn Hs Hle HB. destruct z as [s|s| |s p e]; simpl in *; try contradiction.
  - exists 0%Z. split; [reflexivity|lia].
  - subst s. exists (trunc_pos p e). split; [reflexivity|].
    pose proof (trunc_pos_bounds p e) as [Hl _]. pose proof (trunc_pos_nonneg p e).
    split; [assumption|]. destruct Hle as [Hle _].
    assert (Hlt : IZR (trunc_pos p e) < IZR (n + 1)) by lra.
    apply lt_IZR in Hlt. lia.
Qed.

(** A finite float known to be at least the integer [n] truncates to at
    least [n]. *)
Lemma trunc_ge z n t :
  has_sign false z -> ge_bound z (IZR n) -> trunc z = Some t -> (n <= t)%Z.
Proof.
  intros Hs Hge Ht. destruct z as [s|s| |s p e]; simpl in *; try contradiction;
    try discriminate.
  subst s. injection Ht as <-. simpl.
  pose proof (trunc_pos_bounds p e) as [_ Hu].
  assert (Hlt : IZR n < IZR (trunc_pos p e + 1)) by (rewrite plus_IZR; lra).
  apply lt_IZR in Hlt. lia.
Qed.

End B64Facts.

(* ===================================================================== *)
(** * Binary64 arithmetic: quotients of integers *)
(* ===================================================================== *)

Module B64Int.
Import B64 B64Facts.

Local Open Scope R_scope.

Lemma Rdiv_le_upper x y z : 0 < y -> x <= z * y -> x / y <= z.
Proof.
  intros Hy H. apply (Rmult_le_reg_r y); [assumption|].
  unfold Rdiv. rewrite Rmult_assoc, Rinv_l by lra. lra.
Qed.

Lemma Rdiv_le_lower x y z : 0 < y -> z * y <= x -> z <= x / y.
Proof.
  intros Hy H. apply (Rmult_le_reg_r y); [assumption|].
  unfold Rdiv. rewrite Rmult_assoc, Rinv_l by lra. lra.
Qed.

Lemma Rdiv_lt_upper x y z : 0 < y -> x < z * y -> x / y < z.
Proof.
  intros Hy H. apply (Rmult_lt_reg_r y); [assumption|].
  unfold Rdiv. rewrite Rmult_assoc, Rinv_l by lra. lra.
Qed.

Lemma F2R_0 n : F2R n 0 = IZR n.
Proof. unfold F2R. change (bpow 0) with 1. ring. Qed.

Lemma F2R_pos m e : (0 < m)%Z -> 0 < F2R m e.
Proof.
  intros H. unfold F2R. apply Rmult_lt_0_compat; [apply IZR_lt; lia|apply bpow_pos].
Qed.

Theorem mul_lower sx mx ex sy my ey c k :
  (2 ^ 52 <= Z.pos mx)%Z -> canonical c k ->
  F2R c k <= F2R (Zpos mx) ex * F2R (Zpos my) ey ->
  ge_bound (mul (S754_finite sx mx ex) (S754_finite sy my ey)) (F2R c k).
Proof.
  intros Hmx Hc Hx. unfold mul, SFmul.
  destruct (mul_located mx ex my ey Hmx) as [He Hloc].
  eapply round_lower; try eassumption. lia.
Qed.

(** A nonnegative result bounded on both sides is a positive finite number. *)
Lemma bounded_finite z lo hi :
  has_sign false z -> ge_bound z lo -> le_bound z hi ->
  exists p e, z = S754_finite false p e /\ lo <= F2R (Z.pos p) e <= hi /\
              (e <= 971)%Z.
Proof.
  intros Hs Hge Hle. destruct z as [s|s| |s p e]; simpl in *; try contradiction.
  subst s. exists p, e. split; [reflexivity|]. destruct Hle. split; [lra|assumption].
Qed.

(** The conversion of a positive integer below [2^53] is exact and normal. *)
Lemma of_int_normal n :
  (0 < n < 2 ^ 53)%Z ->
  exists p e, of_int n = S754_finite false p e /\ F2R (Z.pos p) e = IZR n /\
              (2 ^ 52 <= Z.pos p)%Z.
Proof.
  intros [H0 H]. destruct n as [|q|q]; try lia.
  assert (Hd : (0 < Zdigits2 (Z.pos q) <= 53)%Z).
  { split; [apply Zdigits2_pos; lia|].
    destruct (Zdigits2_bounds (Z.pos q) ltac:(lia)) as [Hl _].
    destruct (Z_le_gt_dec (Zdigits2 (Z.pos q)) 53) as [|Hgt]; [assumption|].
    assert (2 ^ 53 <= 2 ^ (Zdigits2 (Z.pos q) - 1))%Z by (apply Z.pow_le_mono_r; lia).
    lia. }
  destruct (binary_round_exact false q 0 H ltac:(lia)) as (p & Hp & Ep).
  exists p, (0 + Zdigits2 (Z.pos q) - 53)%Z. split; [exact Hp|].
  destruct (canonical_norm (Z.pos q) 0 ltac:(lia) ltac:(lia)) as (_ & Hdc & EF).
  rewrite Ep. split; [rewrite EF; apply F2R_0|].
  destruct (Zdigits2_bounds (Z.pos q * 2 ^ (53 - Zdigits2 (Z.pos q)))%Z) as [Hl _].
  { assert (0 < 2 ^ (53 - Zdigits2 (Z.pos q)))%Z by (apply Z.pow_pos_nonneg; lia). nia. }
  rewrite Hdc in Hl. exact Hl.
Qed.

(** Every positive integer below [2^53] is the value of a canonical
    mantissa. *)
Lemma canonical_int n :
  (0 < n < 2 ^ 53)%Z ->
  exists c k, canonical c k /\ (k <= 971)%Z /\ F2R c k = IZR n.
Proof.
  intros Hn.
  assert (Hd : (0 < Zdigits2 n <= 53)%Z).
  { split; [apply Zdigits2_pos; lia|].
    destruct (Zdigits2_bounds n ltac:(lia)) as [Hl _].
    destruct (Z_le_gt_dec (Zdigits2 n) 53) as [|Hgt]; [assumption|].
    assert (2 ^ 53 <= 2 ^ (Zdigits2 n - 1))%Z by (apply Z.pow_le_mono_r; lia). lia. }
  destruct (canonical_norm n 0 Hn ltac:(lia)) as (Hc & _ & EF).
  eexists _, _. split; [exact Hc|]. split; [lia|]. rewrite EF. apply F2R_0.
Qed.

(** [n - 2^-31] for a positive integer [n] below [2^22] is the value of a
    canonical mantissa. *)
Lemma canonical_below n :
  (0 < n <= 2 ^ 21)%Z ->
  exists c k, canonical c k /\ (k <= 971)%Z /\ F2R c k = IZR n - bpow (-31).
Proof.
  intros Hn. set (N := (n * 2 ^ 31 - 1)%Z).
  assert (HN : (0 < N < 2 ^ 53)%Z) by (unfold N; lia).
  assert (Hd : (0 < Zdigits2 N <= 53)%Z).
  { split; [apply Zdigits2_pos; lia|].
    destruct (Zdigits2_bounds N ltac:(lia)) as [Hl _].
    destruct (Z_le_gt_dec (Zdigits2 N) 53) as [|Hgt]; [assumption|].
    assert (2 ^ 53 <= 2 ^ (Zdigits2 N - 1))%Z by (apply Z.pow_le_mono_r; lia). lia. }
  destruct (canonical_norm N (-31) HN ltac:(lia)) as (Hc & _ & EF).
  eexists _, _. split; [exact Hc|]. split; [lia|]. rewrite EF.
  unfold F2R, N. rewrite minus_IZR, mult_IZR, <- bpow_Zpow by lia.
  assert (E : bpow 31 * bpow (-31) = 1) by (rewrite <- bpow_add; reflexivity).
  replace ((IZR n * bpow 31 - 1) * bpow (-31))
    with (IZR n * (bpow 31 * bpow (-31)) - bpow (-31)) by ring.
  rewrite E. ring.
Qed.

Lemma of_int_0 : of_int 0 = S754_zero false.
Proof. reflexivity. Qed.

(** [int(float(a) / float(b))] is the integer quotient: the rounding of the
    division never reaches the next integer. *)
Theorem div_int_exact a b :
  (0 <= a < 2 ^ 21)%Z -> (0 < b < 2 ^ 31)%Z ->
  trunc (div (of_int a) (of_int b)) = Some (a / b)%Z.
Proof.
  intros Ha Hb.
  destruct (of_int_normal b ltac:(lia)) as (pb & eb & Eb & Vb & _).
  destruct (Z.eq_dec a 0%Z) as [->|Na].
  { rewrite of_int_0, Eb. simpl. rewrite Z.div_0_l by lia. reflexivity. }
  destruct (of_int_normal a ltac:(lia)) as (pa & ea & Ea & Va & _).
  rewrite Ea, Eb.
  set (K := (a / b)%Z).
  assert (HK : (K * b <= a < (K + 1) * b)%Z).
  { unfold K. pose proof (Z.div_mod a b ltac:(lia)).
    pose proof (Z.mod_pos_bound a b ltac:(lia)). nia. }
  assert (HK0 : (0 <= K < 2 ^ 21)%Z).
  { unfold K. split; [apply Z.div_pos; lia|].
    apply Z.div_lt_upper_bound; nia. }
  assert (Hbpos : 0 < IZR b) by (apply IZR_lt; lia).
  pose proof (div_sign false pa ea false pb eb) as Hs.
  change (xorb false false) with false in Hs.
  (* upper bound: the quotient is at most K + 1 - 2^-31 *)
  destruct (canonical_below (K + 1) ltac:(lia)) as (c & k & Hc & Hk & EC).
  assert (Hup : F2R (Z.pos pa) ea / F2R (Z.pos pb) eb <= F2R c k).
  { rewrite Va, Vb, EC. apply Rdiv_le_upper; [assumption|].
    assert (H1 : IZR a <= IZR ((K + 1) * b - 1)) by (apply IZR_le; lia).
    rewrite minus_IZR, mult_IZR in H1.
    assert (H2 : bpow (-31) * IZR b <= 1).
    { assert (IZR b <= bpow 31) by (rewrite bpow_Zpow by lia; apply IZR_le; lia).
      pose proof (bpow_pos (-31)).
      replace 1 with (bpow (-31) * bpow 31)
        by (rewrite <- bpow_add; reflexivity).
      nra. }
    nra. }
  pose proof (div_upper false pa ea false pb eb c k Hc Hk Hup) as Hle.
  destruct (trunc_le _ _ K ltac:(lia) Hs Hle) as (t & Et & Ht).
  { rewrite EC. pose proof (bpow_pos (-31)). lra. }
  rewrite Et. f_equal.
  destruct (Z.eq_dec K 0%Z) as [E0|N0]; [lia|].
  (* lower bound: the quotient is at least K *)
  destruct (canonical_int K ltac:(lia)) as (c' & k' & Hc' & _ & EC').
  assert (Hlo : F2R c' k' <= F2R (Z.pos pa) ea / F2R (Z.pos pb) eb).
  { rewrite Va, Vb, EC'. apply Rdiv_le_lower; [assumption|].
    rewrite <- mult_IZR. apply IZR_le. lia. }
  pose proof (div_lower false pa ea false pb eb c' k' Hc' Hlo) as Hge.
  rewrite EC' in Hge.
  pose proof (trunc_ge _ K t Hs Hge Et). lia.
Qed.

End B64Int.

(* ===================================================================== *)
(** * The arithmetic of the planner *)
(* ===================================================================== *)

Module PlanFacts.
Import B64 B64Facts B64Int.

Local Open Scope R_scope.

Lemma float_small n : (0 <= n < 2 ^ 53)%Z -> Py.float n = Ok (of_int n).
Proof.
  intros Hn. unfold Py.float.
  destruct (Z.eq_dec n 0%Z) as [->|N0]; [reflexivity|].
  destruct (of_int_normal n ltac:(lia)) as (p & e & -> & _). reflexivity.
Qed.

(** On a result of sign plus, the floor and Python's [int] agree. *)
Lemma floor_trunc z : has_sign false z -> floor z = trunc z.
Proof.
  destruct z as [s|s| |s p e]; simpl; try reflexivity; try contradiction.
  intros ->. reflexivity.
Qed.

Lemma int_trunc z t : trunc z = Some t -> Py.int z = Ok t.
Proof. unfold Py.int. intros ->. reflexivity. Qed.

Lemma canonical_pow2 e :
  (-1074 <= e - 52 <= 971)%Z ->
  canonical (2 ^ 52) (e - 52) /\ F2R (2 ^ 52) (e - 52) = bpow e.
Proof.
  intros He. split.
  - split; [lia|]. change (Zdigits2 (2 ^ 52)) with 53%Z. rewrite fexp_eq. lia.
  - rewrite F2R_bpow by lia. f_equal. lia.
Qed.

Lemma bpow_IZR n : (0 <= n)%Z -> IZR (2 ^ n) = bpow n.
Proof. intros. symmetry. apply bpow_Zpow. assumption. Qed.

(** ** The aspect ratio *)

(** The quotient of two image dimensions is a positive finite float; it is
    on the same side of every canonical bound as the exact quotient. *)
Lemma ratio_finite w h :
  (1 <= w < 2 ^ 31)%Z -> (1 <= h < 2 ^ 31)%Z ->
  exists pr er,
    div (of_int w) (of_int h) = S754_finite false pr er /\
    bpow (-31) <= F2R (Z.pos pr) er <= bpow 31 /\
    (forall c k, canonical c k -> (k <= 971)%Z ->
       IZR w / IZR h <= F2R c k -> F2R (Z.pos pr) er <= F2R c k) /\
    (forall c k, canonical c k ->
       F2R c k <= IZR w / IZR h -> F2R c k <= F2R (Z.pos pr) er).
Proof.
  intros Hw Hh.
  destruct (of_int_normal w ltac:(lia)) as (pw & ew & Ew & Vw & _).
  destruct (of_int_normal h ltac:(lia)) as (ph & eh & Eh & Vh & _).
  rewrite Ew, Eh.
  pose proof (div_sign false pw ew false ph eh) as Hs.
  change (xorb false false) with false in Hs.
  assert (Hw0 : 1 <= IZR w < bpow 31).
  { rewrite <- bpow_IZR by lia. split; [apply IZR_le|apply IZR_lt]; lia. }
  assert (Hh0 : 1 <= IZR h < bpow 31).
  { rewrite <- bpow_IZR by lia. split; [apply IZR_le|apply IZR_lt]; lia. }
  assert (E1 : bpow (-31) * bpow 31 = 1) by (rewrite <- bpow_add; reflexivity).
  pose proof (bpow_pos (-31)) as Hm. pose proof (bpow_pos 31) as Hp.
  destruct (canonical_pow2 31 ltac:(lia)) as [Chi Vhi].
  destruct (canonical_pow2 (-31) ltac:(lia)) as [Clo Vlo].
  assert (Hup : F2R (Z.pos pw) ew / F2R (Z.pos ph) eh <= F2R (2 ^ 52) (31 - 52)).
  { rewrite Vw, Vh, Vhi. apply Rdiv_le_upper; [lra|]. nra. }
  assert (Hlo : F2R (2 ^ 52) (-31 - 52) <= F2R (Z.pos pw) ew / F2R (Z.pos ph) eh).
  { rewrite Vw, Vh, Vlo. apply Rdiv_le_lower; [lra|]. nra. }
  pose proof (div_upper false pw ew false ph eh _ _ Chi ltac:(lia) Hup) as Hle.
  pose proof (div_lower false pw ew false ph eh _ _ Clo Hlo) as Hge.
  destruct (bounded_finite _ _ _ Hs Hge Hle) as (pr & er & Er & Hb & Her).
  exists pr, er. split; [exact Er|]. rewrite Vlo, Vhi in Hb. split; [exact Hb|].
  split.
  - intros c k Hc Hk Hx. rewrite <- Vw, <- Vh in Hx.
    pose proof (div_upper false pw ew false ph eh c k Hc Hk Hx) as H.
    rewrite Er in H. simpl in H. tauto.
  - intros c k Hc Hx. rewrite <- Vw, <- Vh in Hx.
    pose proof (div_lower false pw ew false ph eh c k Hc Hx) as H.
    rewrite Er in H. simpl in H. exact H.
Qed.

(** ** A constant divided by the aspect ratio *)

Lemma quotient_by_ratio n pr er :
  (0 < n < 2 ^ 11)%Z ->
  bpow (-31) <= F2R (Z.pos pr) er <= bpow 31 ->
  exists q t,
    Py.truediv (of_int n) (S754_finite false pr er) = Ok q /\
    Py.int q = Ok t /\ floor q = Some t /\ (0 <= t)%Z /\
    (bpow (-1) <= F2R (Z.pos pr) er -> (t <= 2 * n)%Z) /\
    (F2R (Z.pos pr) er <= IZR n -> (1 <= t)%Z).
Proof.
  intros Hn Hr.
  destruct (of_int_normal n ltac:(lia)) as (pn & en & En & Vn & _).
  exists (div (of_int n) (S754_finite false pr er)).
  rewrite En.
  pose proof (div_sign false pn en false pr er) as Hs.
  change (xorb false false) with false in Hs.
  set (rho := F2R (Z.pos pr) er) in *.
  pose proof (bpow_pos (-31)) as Hm.
  assert (Hn0 : 1 <= IZR n <= bpow 11).
  { rewrite <- bpow_IZR by lia. split; apply IZR_le; lia. }
  assert (E1 : bpow 42 * bpow (-31) = bpow 11) by (rewrite <- bpow_add; reflexivity).
  pose proof (bpow_pos 42) as H42.
  destruct (canonical_int (2 ^ 42) ltac:(lia)) as (c & k & Hc & Hk & EC).
  assert (Hup : F2R (Z.pos pn) en / rho <= F2R c k).
  { rewrite Vn, EC, bpow_IZR by lia. apply Rdiv_le_upper; [lra|]. nra. }
  pose proof (div_upper false pn en false pr er c k Hc Hk Hup) as Hle.
  destruct (trunc_le _ _ (2 ^ 42) ltac:(lia) Hs Hle) as (t & Et & Ht).
  { rewrite EC. apply IZR_lt. lia. }
  exists t. split; [reflexivity|]. split; [apply int_trunc; exact Et|].
  split; [rewrite floor_trunc by exact Hs; exact Et|]. split; [lia|]. split.
  - intros Hhalf.
    destruct (canonical_int (2 * n) ltac:(lia)) as (c' & k' & Hc' & Hk' & EC').
    assert (Hup' : F2R (Z.pos pn) en / rho <= F2R c' k').
    { rewrite Vn, EC', mult_IZR. apply Rdiv_le_upper; [lra|].
      change (bpow (-1)) with (/ (2 * 1)) in Hhalf. nra. }
    pose proof (div_upper false pn en false pr er c' k' Hc' Hk' Hup') as Hle'.
    destruct (trunc_le _ _ (2 * n) ltac:(lia) Hs Hle') as (t' & Et' & Ht').
    { rewrite EC'. apply IZR_lt. lia. }
    rewrite Et in Et'. injection Et' as <-. lia.
  - intros Hle1.
    destruct (canonical_int 1 ltac:(lia)) as (c' & k' & Hc' & Hk' & EC').
    assert (Hlo' : F2R c' k' <= F2R (Z.pos pn) en / rho).
    { rewrite Vn, EC'. apply Rdiv_le_lower; [lra|]. lra. }
    pose proof (div_lower false pn en false pr er c' k' Hc' Hlo') as Hge'.
    rewrite EC' in Hge'.
    apply (trunc_ge _ 1 t Hs Hge' Et).
Qed.

(** ** A constant multiplied by the aspect ratio *)

Lemma product_by_ratio m pr er :
  (0 < m < 2 ^ 10)%Z ->
  bpow (-31) <= F2R (Z.pos pr) er <= bpow 31 ->
  exists t,
    Py.int (mul (of_int (2 * m)) (S754_finite false pr er)) = Ok t /\
    floor (mul (of_int (2 * m)) (S754_finite false pr er)) = Some t /\
    (0 <= t)%Z /\
    (F2R (Z.pos pr) er < bpow (-1) -> (t <= m)%Z) /\
    (1 <= IZR (2 * m) * F2R (Z.pos pr) er -> (1 <= t)%Z).
Proof.
  intros Hm Hr.
  destruct (of_int_normal (2 * m) ltac:(lia)) as (pn & en & En & Vn & Hnorm).
  rewrite En.
  pose proof (mul_sign false pn en false pr er Hnorm) as Hs.
  change (xorb false false) with false in Hs.
  set (rho := F2R (Z.pos pr) er) in *.
  pose proof (bpow_pos (-31)) as Hm31.
  assert (Hn0 : 1 <= IZR (2 * m) <= bpow 11).
  { rewrite <- bpow_IZR by lia. split; apply IZR_le; lia. }
  assert (E1 : bpow 11 * bpow 31 = bpow 42) by (rewrite <- bpow_add; reflexivity).
  destruct (canonical_int (2 ^ 42) ltac:(lia)) as (c & k & Hc & Hk & EC).
  assert (Hup : F2R (Z.pos pn) en * rho <= F2R c k).
  { rewrite Vn, EC, bpow_IZR by lia. nra. }
  pose proof (mul_upper false pn en false pr er c k Hnorm Hc Hk Hup) as Hle.
  destruct (trunc_le _ _ (2 ^ 42) ltac:(lia) Hs Hle) as (t & Et & Ht).
  { rewrite EC. apply IZR_lt. lia. }
  exists t. split; [apply int_trunc; exact Et|].
  split; [rewrite floor_trunc by exact Hs; exact Et|]. split; [lia|]. split.
  - intros Hhalf.
    destruct (canonical_int m ltac:(lia)) as (c' & k' & Hc' & Hk' & EC').
    assert (Hup' : F2R (Z.pos pn) en * rho <= F2R c' k').
    { rewrite Vn, EC', mult_IZR. change (bpow (-1)) with (/ (2 * 1)) in Hhalf.
      assert (0 < IZR m) by (apply IZR_lt; lia). nra. }
    pose proof (mul_upper false pn en false pr er c' k' Hnorm Hc' Hk' Hup') as Hle'.
    destruct (trunc_le _ _ m ltac:(lia) Hs Hle') as (t' & Et' & Ht').
    { rewrite EC'. apply IZR_lt. lia. }
    rewrite Et in Et'. injection Et' as <-. lia.
  - intros Hge1.
    destruct (canonical_int 1 ltac:(lia)) as (c' & k' & Hc' & Hk' & EC').
    assert (Hlo' : F2R c' k' <= F2R (Z.pos pn) en * rho).
    { rewrite Vn, EC'. exact Hge1. }
    pose proof (mul_lower false pn en false pr er c' k' Hnorm Hc' Hlo') as Hge'.
    rewrite EC' in Hge'.
    apply (trunc_ge _ 1 t Hs Hge' Et).
Qed.

End PlanFacts.

(* ===================================================================== *)
(** * The script, stage by stage *)
(* ===================================================================== *)

Module AppFacts.
Import B64 B64Facts B64Int PlanFacts Np DateTime App Pipeline.

Local Open Scope Z_scope.

(** ** Dictionary reads *)

Lemma get_insert_eq (d : gmap string value) k v : get (<[k := v]> d) k = Ok v.
Proof. unfold get. rewrite lookup_insert_eq. reflexivity. Qed.

Lemma get_insert_ne (d : gmap string value) k k' v :
  k ≠ k' -> get (<[k := v]> d) k' = get d k'.
Proof. intros H. unfold get. rewrite lookup_insert_ne by exact H. reflexivity. Qed.

(** Reads of the keys just written reduce; every other read is left. *)
Ltac dict :=
  repeat progress
    (unfold get_tuple, get_float, get_int, get_str, get_array, get_dict;
     repeat first
       [ rewrite get_insert_eq
       | rewrite get_insert_ne by (let H := fresh in intros H; discriminate H) ];
     cbn [mbind result_bind mret result_ret as_tuple as_float as_int as_str
          as_array as_dict shape_of fst snd]).

(** ** Decodable images *)

Lemma decodable_spec img :
  decodable img = true ->
  1 <= (shape img).1 < 2 ^ 31 /\ 1 <= (shape img).2 < 2 ^ 31 /\ rect img.
Proof.
  unfold decodable. rewrite !andb_true_iff.
  intros [[[[H1 H2] H3] H4] H5].
  apply Z.leb_le in H1, H3. apply Z.ltb_lt in H2, H4.
  repeat split; try lia.
  unfold rect. apply Forall_forall. intros row Hrow.
  rewrite forallb_forall in H5. apply Nat.eqb_eq, H5.
  apply list_elem_of_In. exact Hrow.
Qed.

(** ** The planner *)

Lemma truediv_ints a b :
  0 < b < 2 ^ 53 -> Py.truediv (of_int a) (of_int b) = Ok (div (of_int a) (of_int b)).
Proof.
  intros Hb. unfold Py.truediv.
  destruct (of_int_normal b Hb) as (p & e & -> & _). reflexivity.
Qed.

Lemma screen_factor_value :
  screen_factor = div (of_int 3) (of_int 4).
Proof. vm_compute. reflexivity. Qed.

Lemma candidate_width : Py.int (mul screen_factor (of_int 1080)) = Ok 810.
Proof. vm_compute. reflexivity. Qed.

Lemma candidate_height : Py.int (mul screen_factor (of_int 1920)) = Ok 1440.
Proof. vm_compute. reflexivity. Qed.

Lemma candidate_width_floor : floor (mul screen_factor (of_int 1080)) = Some 810.
Proof. vm_compute. reflexivity. Qed.

Lemma candidate_height_floor : floor (mul screen_factor (of_int 1920)) = Some 1440.
Proof. vm_compute. reflexivity. Qed.

Section Stages.

Variable imread : string -> option ndarray.
Variable interp : ndarray -> Z -> Z -> nat -> nat -> pixel.

(** The planner never fails on a decodable image.  It leaves the dictionary
    [planned], its proposed dimensions are the ones of the specification's
    planner, and they fit the canvas. *)
Lemma resize_type_planned d0 path img :
  imread path = Some img -> decodable img = true ->
  exists ph pw,
    resize_type imread d0 path ig_defined_res screen_factor scale_tolerance
      = Ok (planned d0 img ph pw) /\
    Pipeline.float_proposal screen_factor 1920 1080 (shape img).2 (shape img).1
      = Some (pw, ph) /\
    0 <= ph <= 1920 /\ 0 <= pw <= 1080 /\
    ((shape img).2 < 810 -> 1 <= ph) /\
    pw <= 810.
Proof.
  intros Hread Hdec.
  destruct (decodable_spec img Hdec) as (Hh & Hw & _).
  destruct (shape img) as [h w] eqn:Eshape. cbn [fst snd] in *.
  destruct (ratio_finite w h Hw Hh) as (pr & er & Er & Hrho & Hupper & _).
  destruct (quotient_by_ratio 810 pr er ltac:(lia) Hrho)
    as (qA & phA & EqA & EphA & EfA & HphA0 & HphA1 & HphA2).
  destruct (product_by_ratio 720 pr er ltac:(lia) Hrho)
    as (pwB & EpwB & EfB & HpwB0 & HpwB1 & _).
  change (2 * 720) with 1440 in EpwB, EfB.
  (* the proposed dimensions *)
  set (ph := if phA <=? 1920 then phA else 1440).
  set (pw := if phA <=? 1920 then 810 else pwB).
  assert (Hhalf : 1920 < phA -> (F2R (Z.pos pr) er < bpow (-1))%R).
  { intros Hgt. destruct (Rlt_le_dec (F2R (Z.pos pr) er) (bpow (-1))) as [|Hge];
      [assumption|]. apply HphA1 in Hge. lia. }
  assert (Hph : 0 <= ph <= 1920) by (unfold ph; destruct (Z.leb_spec phA 1920); lia).
  assert (Hpw : 0 <= pw <= 810).
  { unfold pw. destruct (Z.leb_spec phA 1920); [lia|].
    specialize (HpwB1 (Hhalf ltac:(lia))). lia. }
  exists ph, pw.
  split; [|split; [|split; [exact Hph|split; [lia|split]]]].
  - unfold resize_type, ig_defined_res. rewrite Hread. dict.
    rewrite Eshape. cbn [fst snd]. dict.
    rewrite (float_small w), (float_small h) by lia. dict.
    rewrite (truediv_ints w h) by lia. dict.
    rewrite (float_small 1080) by lia. dict.
    rewrite candidate_width. dict.
    rewrite (float_small 810) by lia. dict.
    rewrite Er, EqA. dict. rewrite EphA. dict.
    match goal with |- mbind _ ?b = _ => assert (Ebr : b = Ok (ph, pw)) end.
    { unfold ph, pw. destruct (Z.leb_spec phA 1920); [reflexivity|].
      rewrite (float_small 1920) by lia. dict.
      rewrite candidate_height. dict.
      rewrite (float_small 1440) by lia. dict.
      rewrite EpwB. reflexivity. }
    rewrite Ebr. dict.
    rewrite (float_small pw), (float_small w) by lia. dict.
    rewrite (truediv_ints pw w) by lia. dict.
    rewrite (int_trunc _ _ (div_int_exact pw w ltac:(lia) ltac:(lia))). dict.
    unfold planned, aspect_ratio, scale_tolerance. rewrite Eshape. cbn [fst snd].
    rewrite <- Er.
    destruct (pw <=? w); cbn [String.eqb Ascii.eqb Bool.eqb]; dict; reflexivity.
  - unfold Pipeline.float_proposal. rewrite candidate_width_floor.
    cbn [mbind option_bind]. rewrite Er.
    assert (EqA' : qA = div (of_int 810) (S754_finite false pr er)).
    { unfold Py.truediv in EqA. cbn [is_zero] in EqA. congruence. }
    rewrite <- EqA', EfA. cbn [mbind option_bind].
    unfold ph, pw. destruct (phA <=? 1920); [reflexivity|].
    rewrite candidate_height_floor. cbn [mbind option_bind].
    rewrite EfB. reflexivity.
  - intros Hsmall. unfold ph. destruct (Z.leb_spec phA 1920); [|lia].
    apply HphA2.
    destruct (canonical_int 810 ltac:(lia)) as (c & k & Hc & Hk & EC).
    rewrite <- EC. apply Hupper; [exact Hc|exact Hk|]. rewrite EC.
    apply Rdiv_le_upper; [apply IZR_lt; lia|].
    rewrite <- mult_IZR. apply IZR_le. nia.
  - lia.
Qed.

(** ** The compositor *)

Lemma wrap64_small z : - 2 ^ 63 <= z < 2 ^ 63 -> wrap64 z = z.
Proof. intros H. unfold wrap64. rewrite Z.mod_small by lia. lia. Qed.

Lemma asarray2_small a b :
  - 2 ^ 63 <= a < 2 ^ 63 -> - 2 ^ 63 <= b < 2 ^ 63 -> asarray2 (a, b) = Ok (a, b).
Proof.
  intros Ha Hb. unfold asarray2, int64_ok. cbn [fst snd].
  destruct (Z.leb_spec (- 2 ^ 63) a); [|lia]. destruct (Z.ltb_spec a (2 ^ 63)); [|lia].
  destruct (Z.leb_spec (- 2 ^ 63) b); [|lia]. destruct (Z.ltb_spec b (2 ^ 63)); [|lia].
  reflexivity.
Qed.

Lemma halve_int a : 0 <= a < 2 ^ 21 -> Py.int (div (of_int a) (of_int 2)) = Ok (a / 2).
Proof. intros Ha. apply int_trunc, div_int_exact; lia. Qed.

Lemma add_pip_vars_composited d ph pw :
  get d "defined_res" = Ok (VTuple 1920 1080) ->
  get d "proposed_res" = Ok (VTuple ph pw) ->
  0 <= ph <= 1920 -> 0 <= pw <= 1080 ->
  add_pip_vars d = Ok (composited d ph pw).
Proof.
  intros Hdef Hprop Hph Hpw. unfold add_pip_vars.
  unfold get_tuple. rewrite Hdef. dict.
  change (full 1920 1080 128) with (Ok gray_canvas). dict.
  rewrite Hdef. dict. rewrite (asarray2_small 1920 1080) by lia. dict.
  rewrite Hprop. dict. rewrite (asarray2_small ph pw) by lia. dict.
  unfold sub2, halve2. cbn [fst snd].
  rewrite !wrap64_small by lia.
  rewrite !halve_int by lia. dict.
  reflexivity.
Qed.

Lemma planned_defined_res d0 img ph pw :
  get (planned d0 img ph pw) "defined_res" = Ok (VTuple 1920 1080).
Proof. unfold planned. dict. reflexivity. Qed.

Lemma planned_proposed_res d0 img ph pw :
  get (planned d0 img ph pw) "proposed_res" = Ok (VTuple ph pw).
Proof. unfold planned. dict. reflexivity. Qed.

Lemma planned_img_obj d0 img ph pw :
  get (planned d0 img ph pw) "img_obj" = Ok (VArray img).
Proof. unfold planned. dict. reflexivity. Qed.

(** ** The canvas and the paste *)

Lemma hd_replicate {A} (n : nat) (x d : A) : (0 < n)%nat -> hd d (replicate n x) = x.
Proof. destruct n; [lia|reflexivity]. Qed.

Lemma shape_gray_canvas : shape gray_canvas = (1920, 1080).
Proof.
  unfold shape, gray_canvas. rewrite hd_replicate by lia.
  rewrite !length_replicate. f_equal; lia.
Qed.

Lemma length_tabulate h w f : length (tabulate h w f) = h.
Proof. unfold tabulate. rewrite length_map, length_seq. reflexivity. Qed.

Lemma tabulate_rows h w f : Forall (fun row => length row = w) (tabulate h w f).
Proof.
  unfold tabulate. apply Forall_forall. intros row Hrow.
  apply list_elem_of_In, in_map_iff in Hrow as (y & <- & _).
  rewrite length_map, length_seq. reflexivity.
Qed.

Lemma broadcast_to_len {A} (l : list A) n :
  length l = n -> broadcast_to l n = Some l.
Proof. intros <-. unfold broadcast_to. rewrite Nat.eqb_refl. reflexivity. Qed.

Lemma norm_index_in n i : 0 <= i <= n -> norm_index n i = i.
Proof.
  intros H. unfold norm_index. destruct (Z.ltb_spec i 0); lia.
Qed.

Lemma setslice_rendered img ph pw :
  0 <= ph <= 1920 -> 0 <= pw <= 1080 ->
  setslice gray_canvas (top ph) (top ph + ph) (left pw) (left pw + pw)
           (tabulate (Z.to_nat ph) (Z.to_nat pw) (interp img ph pw))
  = Ok (rendered interp img ph pw).
Proof.
  intros Hph Hpw. unfold setslice. rewrite shape_gray_canvas.
  cbv beta iota zeta. unfold rendered, top, left in *.
  rewrite !norm_index_in by (Z.div_mod_to_equations; lia).
  rewrite !Z.max_r by lia.
  replace ((1920 - ph) / 2 + ph - (1920 - ph) / 2) with ph by lia.
  replace ((1080 - pw) / 2 + pw - (1080 - pw) / 2) with pw by lia.
  rewrite broadcast_to_len by apply length_tabulate.
  erewrite mapM_Some_2; [reflexivity|].
  apply Forall_Forall2_diag.
  eapply Forall_impl; [apply tabulate_rows|].
  intros row Hrow. apply broadcast_to_len, Hrow.
Qed.

(** The buffer written has the dimensions of the canvas. *)
Lemma rendered_shape img ph pw :
  0 <= ph <= 1920 -> 0 <= pw <= 1080 ->
  length (rendered interp img ph pw) = 1920%nat /\
  Forall (fun row => length row = 1080%nat) (rendered interp img ph pw).
Proof.
  intros Hph Hpw.
  assert (Hcanvas : length gray_canvas = 1920%nat)
    by (unfold gray_canvas; rewrite length_replicate; lia).
  assert (Hrows : forall row, row ∈ gray_canvas -> length row = 1080%nat).
  { intros row Hrow. unfold gray_canvas in Hrow.
    apply elem_of_replicate_inv in Hrow as ->. rewrite length_replicate. lia. }
  assert (Htop : 0 <= top ph /\ top ph + ph <= 1920)
    by (unfold top; Z.div_mod_to_equations; lia).
  assert (Hleft : 0 <= left pw /\ left pw + pw <= 1080)
    by (unfold left; Z.div_mod_to_equations; lia).
  unfold rendered. split.
  - rewrite !length_app, length_zip_with, !length_take, !length_drop, length_tabulate.
    rewrite Hcanvas. lia.
  - rewrite !Forall_app. split; [|split].
    + apply Forall_forall. intros row Hrow. apply Hrows.
      apply elem_of_take in Hrow as (i & Hi & _). eapply list_elem_of_lookup_2, Hi.
    + apply Forall_forall. intros row Hrow.
      apply elem_of_zip_with in Hrow as (crow & vrow & -> & Hc & Hv).
      assert (Hlc : length crow = 1080%nat).
      { apply Hrows. apply elem_of_take in Hc as (i & Hi & _).
        rewrite lookup_drop in Hi. eapply list_elem_of_lookup_2, Hi. }
      assert (Hlv : length vrow = Z.to_nat pw).
      { pose proof (tabulate_rows (Z.to_nat ph) (Z.to_nat pw) (interp img ph pw)) as HF.
        rewrite Forall_forall in HF. apply HF. exact Hv. }
      rewrite !length_app, length_take, length_drop, Hlc, Hlv. lia.
    + apply Forall_forall. intros row Hrow. apply Hrows.
      apply list_elem_of_lookup_1 in Hrow as (i & Hi). rewrite lookup_drop in Hi.
      eapply list_elem_of_lookup_2, Hi.
Qed.

(** ** The writer *)

Lemma append_assoc (a b c : string) : (a +:+ b) +:+ c = a +:+ (b +:+ c).
Proof.
  induction a as [|ch a IH]; [reflexivity|].
  change ((String ch a +:+ b) +:+ c) with (String ch ((a +:+ b) +:+ c)).
  rewrite IH. reflexivity.
Qed.

Lemma append_empty_r (a : string) : a +:+ "" = a.
Proof.
  induction a as [|ch a IH]; [reflexivity|].
  change (String ch a +:+ "") with (String ch (a +:+ "")).
  rewrite IH. reflexivity.
Qed.

Lemma strftime_date t :
  strftime t "%Y%m%d"
  = Ok (year_text (year t) +:+ zpad 2 (month t) +:+ zpad 2 (day t)).
Proof.
  unfold strftime. cbn. rewrite append_empty_r. reflexivity.
Qed.

Lemma strftime_time t :
  strftime t "%H%M" = Ok (zpad 2 (hour t) +:+ zpad 2 (minute t)).
Proof.
  unfold strftime. cbn. rewrite append_empty_r. reflexivity.
Qed.

Lemma resize_ok img w h :
  decodable img = true -> 0 < w <= 1080 -> 0 < h <= 1920 ->
  resize interp img w h = Ok (tabulate (Z.to_nat h) (Z.to_nat w) (interp img h w)).
Proof.
  intros Hdec Hw Hh. destruct (decodable_spec img Hdec) as (H1 & H2 & _).
  unfold resize.
  destruct (Z.leb_spec (2 ^ 31) w); [lia|]. destruct (Z.leb_spec (2 ^ 31) h); [lia|].
  destruct (Z.eqb_spec (shape img).1 0); [lia|].
  destruct (Z.eqb_spec (shape img).2 0); [lia|].
  destruct (Z.leb_spec w 0); [lia|]. destruct (Z.leb_spec h 0); [lia|].
  reflexivity.
Qed.

Lemma resize_empty img w h :
  decodable img = true -> 0 <= w <= 1080 -> 0 <= h <= 1920 -> w = 0 \/ h = 0 ->
  resize interp img w h = Raise Cv2Error.
Proof.
  intros Hdec Hw Hh H0. destruct (decodable_spec img Hdec) as (H1 & H2 & _).
  unfold resize.
  destruct (Z.leb_spec (2 ^ 31) w); [lia|]. destruct (Z.leb_spec (2 ^ 31) h); [lia|].
  destruct (Z.eqb_spec (shape img).1 0); [lia|].
  destruct (Z.eqb_spec (shape img).2 0); [lia|].
  destruct (Z.leb_spec w 0); [reflexivity|].
  destruct (Z.leb_spec h 0); [reflexivity|]. lia.
Qed.

Lemma get_item_pip ph pw :
  get_item (pip_coords ph pw) "y1" = Ok (top ph) /\
  get_item (pip_coords ph pw) "y2" = Ok (top ph + ph) /\
  get_item (pip_coords ph pw) "x1" = Ok (left pw) /\
  get_item (pip_coords ph pw) "x2" = Ok (left pw + pw).
Proof.
  unfold get_item, pip_coords.
  split; [|split; [|split]]; reflexivity.
Qed.

Lemma file_dest_eq out t i :
  path_join out
    ((year_text (year t) +:+ zpad 2 (month t) +:+ zpad 2 (day t)) +:+ "_"
     +:+ (zpad 2 (hour t) +:+ zpad 2 (minute t)) +:+ "_" +:+ pretty i +:+ ".jpg")
  = path_join out (dest_name t i).
Proof. unfold dest_name. rewrite !append_assoc. reflexivity. Qed.

(** From the year 1000 on the name is the one of the specification, with
    the year on four digits. *)
Lemma year_text_four_digits :
  forallb (fun y => String.eqb (year_text y) (zpad 4 y))
          (map (fun k => 1000 + Z.of_nat k) (seq 0 (Z.to_nat 9000))) = true.
Proof. vm_compute. reflexivity. Qed.

Lemma year_text_zpad y : 1000 <= y <= 9999 -> year_text y = zpad 4 y.
Proof.
  intros Hy. pose proof year_text_four_digits as H.
  rewrite forallb_forall in H. apply String.eqb_eq, H.
  apply in_map_iff. exists (Z.to_nat (y - 1000)). split; [lia|].
  apply in_seq. lia.
Qed.

Lemma dest_name_spec t i :
  1000 <= year t <= 9999 -> dest_name t i = Spec.file_name t i.
Proof.
  intros Hy. unfold dest_name, Spec.file_name.
  rewrite (year_text_zpad _ Hy). reflexivity.
Qed.

Lemma valid_datetime_year t : valid_datetime t = true -> 1 <= year t <= 9999.
Proof.
  unfold valid_datetime. rewrite !andb_true_iff.
  intros [[[[[[[[[H1 H2] _] _] _] _] _] _] _] _]. lia.
Qed.

Lemma process_image_rendered d img ph pw out t i :
  get d "img_obj" = Ok (VArray img) ->
  get d "proposed_res" = Ok (VTuple ph pw) ->
  decodable img = true -> 0 < ph <= 1920 -> 0 < pw <= 1080 ->
  process_image interp (composited d ph pw) out t i
  = Ok (<["canvas" := VArray (rendered interp img ph pw)]> (composited d ph pw),
        output interp img ph pw out t i).
Proof.
  intros Hobj Hprop Hdec Hph Hpw.
  destruct (get_item_pip ph pw) as (Ey1 & Ey2 & Ex1 & Ex2).
  unfold process_image, composited. dict.
  rewrite Hobj. dict.
  rewrite Hprop. dict.
  rewrite (resize_ok img pw ph Hdec) by lia. dict.
  rewrite Ey1. dict. rewrite Ey2. dict. rewrite Ex1. dict. rewrite Ex2. dict.
  rewrite setslice_rendered by lia. dict.
  rewrite strftime_date, strftime_time. dict.
  rewrite file_dest_eq. reflexivity.
Qed.

Lemma process_image_empty d0 img ph pw out t i :
  decodable img = true -> 0 <= ph <= 1920 -> 0 <= pw <= 1080 ->
  ph = 0 \/ pw = 0 ->
  process_image interp (composited (planned d0 img ph pw) ph pw) out t i
  = Raise Cv2Error.
Proof.
  intros Hdec Hph Hpw H0.
  unfold process_image, composited. dict.
  rewrite planned_img_obj. dict.
  rewrite planned_proposed_res. dict.
  rewrite (resize_empty img pw ph Hdec) by lia. reflexivity.
Qed.

(** ** One pass of the loop *)

(** On a decodable image a pass either writes the rendered canvas or stops
    in [cv2.resize] on an empty size; the dictionary it starts from plays no
    part in what is written. *)
Lemma iteration_spec d0 path img out t i :
  imread path = Some img -> decodable img = true ->
  exists ph pw,
    Pipeline.float_proposal screen_factor 1920 1080 (shape img).2 (shape img).1
      = Some (pw, ph) /\
    resize_type imread d0 path ig_defined_res screen_factor scale_tolerance
      = Ok (planned d0 img ph pw) /\
    0 <= ph <= 1920 /\ 0 <= pw <= 810 /\
    ((shape img).2 < 810 -> 1 <= ph) /\
    iteration imread interp d0 path out t i =
      if (0 <? ph) && (0 <? pw)
      then Ok (processed interp d0 img ph pw, output interp img ph pw out t i)
      else Raise Cv2Error.
Proof.
  intros Hread Hdec.
  destruct (resize_type_planned d0 path img Hread Hdec)
    as (ph & pw & Eplan & Espec & Hph & Hpw & Hph1 & Hpw1).
  exists ph, pw. repeat (split; [first [assumption|lia]|]).
  unfold iteration. rewrite Eplan. cbn [mbind result_bind].
  rewrite (add_pip_vars_composited _ ph pw
             (planned_defined_res _ _ _ _) (planned_proposed_res _ _ _ _) Hph Hpw).
  cbn [mbind result_bind].
  destruct (Z.ltb_spec 0 ph); destruct (Z.ltb_spec 0 pw); cbn [andb].
  - apply process_image_rendered;
      [apply planned_img_obj|apply planned_proposed_res|assumption|lia|lia].
  - apply process_image_empty; [assumption|lia|lia|lia].
  - apply process_image_empty; [assumption|lia|lia|lia].
  - apply process_image_empty; [assumption|lia|lia|lia].
Qed.

End Stages.

End AppFacts.

(* ===================================================================== *)
(** * The proposal, case by case *)
(* ===================================================================== *)

Module PlanCases.
Import B64 B64Facts B64Int PlanFacts.

Local Open Scope R_scope.

Lemma bpow_m31_small : 0 < bpow (-31) <= / 1024.
Proof.
  split; [apply bpow_pos|].
  apply Rle_trans with (bpow (-10)); [apply bpow_le; lia|].
  change (bpow (-10)) with (/ (2 * (2 * (2 * (2 * (2 * (2 * (2 * (2 * (2 * (2 * 1))))))))))).
  apply Rinv_le_contravar; lra.
Qed.

(** ** Bounds on the floor of a quotient and of a product *)

Lemma quotient_floor_le n pr er m t :
  (0 < n < 2 ^ 11)%Z -> (0 <= m < 2 ^ 21)%Z ->
  floor (div (of_int n) (S754_finite false pr er)) = Some t ->
  IZR n <= (IZR (m + 1) - bpow (-31)) * F2R (Z.pos pr) er ->
  (t <= m)%Z.
Proof.
  intros Hn Hm Et Hx.
  destruct (of_int_normal n ltac:(lia)) as (pn & en & En & Vn & _).
  rewrite En in Et.
  pose proof (div_sign false pn en false pr er) as Hs.
  change (xorb false false) with false in Hs.
  rewrite floor_trunc in Et by exact Hs.
  destruct (canonical_below (m + 1) ltac:(lia)) as (c & k & Hc & Hk & EC).
  assert (Hup : F2R (Z.pos pn) en / F2R (Z.pos pr) er <= F2R c k).
  { rewrite Vn, EC. apply Rdiv_le_upper; [apply F2R_pos; lia|exact Hx]. }
  pose proof (div_upper false pn en false pr er c k Hc Hk Hup) as Hle.
  destruct (trunc_le _ _ m ltac:(lia) Hs Hle) as (t' & Et' & Ht').
  { rewrite EC. pose proof bpow_m31_small. lra. }
  rewrite Et in Et'. injection Et' as <-. lia.
Qed.

Lemma quotient_floor_ge n pr er m t :
  (0 < n < 2 ^ 11)%Z -> (0 < m < 2 ^ 53)%Z ->
  floor (div (of_int n) (S754_finite false pr er)) = Some t ->
  IZR m * F2R (Z.pos pr) er <= IZR n ->
  (m <= t)%Z.
Proof.
  intros Hn Hm Et Hx.
  destruct (of_int_normal n ltac:(lia)) as (pn & en & En & Vn & _).
  rewrite En in Et.
  pose proof (div_sign false pn en false pr er) as Hs.
  change (xorb false false) with false in Hs.
  rewrite floor_trunc in Et by exact Hs.
  destruct (canonical_int m ltac:(lia)) as (c & k & Hc & Hk & EC).
  assert (Hlo : F2R c k <= F2R (Z.pos pn) en / F2R (Z.pos pr) er).
  { rewrite Vn, EC. apply Rdiv_le_lower; [apply F2R_pos; lia|exact Hx]. }
  pose proof (div_lower false pn en false pr er c k Hc Hlo) as Hge.
  rewrite EC in Hge.
  exact (trunc_ge _ m t Hs Hge Et).
Qed.

Lemma product_floor_le n pr er m t :
  (0 < n < 2 ^ 53)%Z -> (0 <= m < 2 ^ 21)%Z ->
  floor (mul (of_int n) (S754_finite false pr er)) = Some t ->
  IZR n * F2R (Z.pos pr) er <= IZR (m + 1) - bpow (-31) ->
  (t <= m)%Z.
Proof.
  intros Hn Hm Et Hx.
  destruct (of_int_normal n ltac:(lia)) as (pn & en & En & Vn & Hnorm).
  rewrite En in Et.
  pose proof (mul_sign false pn en false pr er Hnorm) as Hs.
  change (xorb false false) with false in Hs.
  rewrite floor_trunc in Et by exact Hs.
  destruct (canonical_below (m + 1) ltac:(lia)) as (c & k & Hc & Hk & EC).
  assert (Hup : F2R (Z.pos pn) en * F2R (Z.pos pr) er <= F2R c k).
  { rewrite Vn, EC. exact Hx. }
  pose proof (mul_upper false pn en false pr er c k Hnorm Hc Hk Hup) as Hle.
  destruct (trunc_le _ _ m ltac:(lia) Hs Hle) as (t' & Et' & Ht').
  { rewrite EC. pose proof bpow_m31_small. lra. }
  rewrite Et in Et'. injection Et' as <-. lia.
Qed.

(** ** The ratio of the natural dimensions *)

Lemma ratio_le w h pr er n :
  (1 <= w < 2 ^ 31)%Z -> (1 <= h < 2 ^ 31)%Z -> (0 < n < 2 ^ 53)%Z ->
  div (of_int w) (of_int h) = S754_finite false pr er ->
  (w <= n * h)%Z -> F2R (Z.pos pr) er <= IZR n.
Proof.
  intros Hw Hh Hn Er Hx.
  destruct (ratio_finite w h Hw Hh) as (pr' & er' & Er' & _ & Hupper & _).
  rewrite Er in Er'. injection Er' as <- <-.
  destruct (canonical_int n Hn) as (c & k & Hc & Hk & EC).
  rewrite <- EC. apply Hupper; [exact Hc|exact Hk|]. rewrite EC.
  apply Rdiv_le_upper; [apply IZR_lt; lia|].
  rewrite <- mult_IZR. apply IZR_le. lia.
Qed.

Lemma ratio_ge w h pr er n :
  (1 <= w < 2 ^ 31)%Z -> (1 <= h < 2 ^ 31)%Z -> (0 < n < 2 ^ 53)%Z ->
  div (of_int w) (of_int h) = S754_finite false pr er ->
  (n * h <= w)%Z -> IZR n <= F2R (Z.pos pr) er.
Proof.
  intros Hw Hh Hn Er Hx.
  destruct (ratio_finite w h Hw Hh) as (pr' & er' & Er' & _ & _ & Hlower).
  rewrite Er in Er'. injection Er' as <- <-.
  destruct (canonical_int n Hn) as (c & k & Hc & Hk & EC).
  rewrite <- EC. apply Hlower; [exact Hc|]. rewrite EC.
  apply Rdiv_le_lower; [apply IZR_lt; lia|].
  rewrite <- mult_IZR. apply IZR_le. lia.
Qed.

(** The ratio against a negative power of two: [2^e * w] against [h]. *)
Lemma ratio_le_pow w h pr er e :
  (1 <= w < 2 ^ 31)%Z -> (1 <= h < 2 ^ 31)%Z -> (0 <= e <= 31)%Z ->
  div (of_int w) (of_int h) = S754_finite false pr er ->
  (2 ^ e * w <= h)%Z -> F2R (Z.pos pr) er <= bpow (- e).
Proof.
  intros Hw Hh He Er Hx.
  destruct (ratio_finite w h Hw Hh) as (pr' & er' & Er' & _ & Hupper & _).
  rewrite Er in Er'. injection Er' as <- <-.
  destruct (canonical_pow2 (- e) ltac:(lia)) as [Hc EC].
  rewrite <- EC. apply Hupper; [exact Hc|lia|]. rewrite EC.
  apply Rdiv_le_upper; [apply IZR_lt; lia|].
  assert (E : bpow e * bpow (- e) = 1).
  { rewrite <- bpow_add. replace (e + - e)%Z with 0%Z by lia. reflexivity. }
  pose proof (bpow_pos (- e)) as Hp.
  assert (Hle : IZR (2 ^ e) * IZR w <= IZR h)
    by (rewrite <- mult_IZR; apply IZR_le; lia).
  rewrite bpow_IZR in Hle by lia.
  assert (0 < IZR w) by (apply IZR_lt; lia).
  nra.
Qed.

Lemma ratio_ge_pow w h pr er e :
  (1 <= w < 2 ^ 31)%Z -> (1 <= h < 2 ^ 31)%Z -> (0 <= e <= 31)%Z ->
  div (of_int w) (of_int h) = S754_finite false pr er ->
  (h <= 2 ^ e * w)%Z -> bpow (- e) <= F2R (Z.pos pr) er.
Proof.
  intros Hw Hh He Er Hx.
  destruct (ratio_finite w h Hw Hh) as (pr' & er' & Er' & _ & _ & Hlower).
  rewrite Er in Er'. injection Er' as <- <-.
  destruct (canonical_pow2 (- e) ltac:(lia)) as [Hc EC].
  rewrite <- EC. apply Hlower; [exact Hc|]. rewrite EC.
  apply Rdiv_le_lower; [apply IZR_lt; lia|].
  assert (E : bpow e * bpow (- e) = 1).
  { rewrite <- bpow_add. replace (e + - e)%Z with 0%Z by lia. reflexivity. }
  pose proof (bpow_pos (- e)) as Hp.
  assert (Hle : IZR h <= IZR (2 ^ e) * IZR w)
    by (rewrite <- mult_IZR; apply IZR_le; lia).
  rewrite bpow_IZR in Hle by lia.
  pose proof (Rmult_le_compat_l _ _ _ (Rlt_le _ _ Hp) Hle) as Hm.
  replace (bpow (- e) * (bpow e * IZR w)) with (bpow e * bpow (- e) * IZR w) in Hm
    by ring.
  rewrite E in Hm. lra.
Qed.

Lemma bpow_neg e : (0 <= e)%Z -> bpow (- e) = / IZR (2 ^ e).
Proof.
  intros He.
  assert (E : bpow e * bpow (- e) = 1).
  { rewrite <- bpow_add. replace (e + - e)%Z with 0%Z by lia. reflexivity. }
  rewrite bpow_IZR by exact He.
  pose proof (bpow_pos e) as Hp.
  apply (Rmult_eq_reg_l (bpow e)); [|lra].
  rewrite E, Rinv_r by lra. reflexivity.
Qed.

(** ** The proposal, by the natural dimensions *)

Local Open Scope Z_scope.

Lemma proposed_analysis w h :
  1 <= w < 2 ^ 31 -> 1 <= h < 2 ^ 31 ->
  exists pw ph,
    Pipeline.float_proposal App.screen_factor 1920 1080 w h = Some (pw, ph) /\
    (pw = 810 /\ 0 <= ph <= 1920 \/ ph = 1440 /\ 0 <= pw <= 720 /\ 2 * w < h) /\
    (h <= 2 * w -> pw = 810 /\ ph <= 1620) /\
    (w <= 810 * h -> h <= 1024 * w -> 1 <= ph /\ 1 <= pw) /\
    (811 * h <= w -> ph = 0) /\
    (2048 * w <= h -> pw = 0).
Proof.
  intros Hw Hh.
  destruct (ratio_finite w h Hw Hh) as (pr & er & Er & Hrho & _).
  destruct (quotient_by_ratio 810 pr er ltac:(lia) Hrho)
    as (qA & phA & EqA & _ & EfA & HphA0 & HphA1 & HphA2).
  destruct (product_by_ratio 720 pr er ltac:(lia) Hrho)
    as (pwB & _ & EfB & HpwB0 & HpwB1 & HpwB2).
  change (2 * 720) with 1440 in EfB, HpwB2.
  assert (EqA' : qA = div (of_int 810) (S754_finite false pr er)).
  { unfold Py.truediv in EqA. cbn [is_zero] in EqA. congruence. }
  subst qA.
  pose proof bpow_m31_small as Hsmall.
  assert (Hpos : (0 < F2R (Z.pos pr) er)%R) by (apply F2R_pos; lia).
  (* the ratio against the natural dimensions *)
  assert (Rhalf : h <= 2 * w -> (bpow (-1) <= F2R (Z.pos pr) er)%R).
  { intros H. apply (ratio_ge_pow w h pr er 1 Hw Hh ltac:(lia) Er). lia. }
  assert (Rwide : w <= 810 * h -> (F2R (Z.pos pr) er <= 810)%R).
  { intros H. apply (ratio_le w h pr er 810 Hw Hh ltac:(lia) Er H). }
  assert (Rflat : 811 * h <= w -> (811 <= F2R (Z.pos pr) er)%R).
  { intros H. apply (ratio_ge w h pr er 811 Hw Hh ltac:(lia) Er H). }
  assert (Rtall : h <= 1024 * w -> (/ 1024 <= F2R (Z.pos pr) er)%R).
  { intros H. pose proof (ratio_ge_pow w h pr er 10 Hw Hh ltac:(lia) Er) as G.
    rewrite (bpow_neg 10) in G by lia. change (2 ^ 10) with 1024 in G.
    apply G. lia. }
  assert (Rthin : 2048 * w <= h -> (F2R (Z.pos pr) er <= / 2048)%R).
  { intros H. pose proof (ratio_le_pow w h pr er 11 Hw Hh ltac:(lia) Er) as G.
    rewrite (bpow_neg 11) in G by lia. change (2 ^ 11) with 2048 in G.
    apply G. lia. }
  assert (Hhalf : 1920 < phA -> (F2R (Z.pos pr) er < bpow (-1))%R).
  { intros Hgt. destruct (Rlt_le_dec (F2R (Z.pos pr) er) (bpow (-1))) as [|Hge];
      [assumption|]. apply HphA1 in Hge. lia. }
  assert (Hthin : 2048 * w <= h -> 1921 <= phA).
  { intros H. apply (quotient_floor_ge 810 pr er 1921 phA ltac:(lia) ltac:(lia) EfA).
    specialize (Rthin H). lra. }
  exists (if phA <=? 1920 then 810 else pwB), (if phA <=? 1920 then phA else 1440).
  split.
  { unfold Pipeline.float_proposal. rewrite AppFacts.candidate_width_floor.
    cbn [mbind option_bind]. rewrite Er, EfA. cbn [mbind option_bind].
    destruct (phA <=? 1920); [reflexivity|].
    rewrite AppFacts.candidate_height_floor. cbn [mbind option_bind].
    rewrite EfB. reflexivity. }
  destruct (Z.leb_spec phA 1920) as [HA|HB].
  - split; [left; lia|]. split.
    { intros H. split; [reflexivity|]. specialize (HphA1 (Rhalf H)). lia. }
    split.
    { intros H1 H2. split; [|lia]. apply HphA2. exact (Rwide H1). }
    split.
    { intros H. specialize (Rflat H).
      assert (phA <= 0); [|lia].
      apply (quotient_floor_le 810 pr er 0 phA ltac:(lia) ltac:(lia) EfA).
      change (IZR (0 + 1)) with 1%R. nra. }
    intros H. specialize (Hthin H). lia.
  - specialize (Hhalf ltac:(lia)). specialize (HpwB1 Hhalf).
    assert (Htall : 2 * w < h).
    { destruct (Z.lt_ge_cases (2 * w) h) as [|Hge]; [assumption|].
      specialize (HphA1 (Rhalf ltac:(lia))). lia. }
    split; [right; lia|]. split; [intros H; lia|]. split.
    { intros _ H. split; [lia|]. apply HpwB2. specialize (Rtall H). lra. }
    split.
    { intros H. specialize (Rflat H).
      change (bpow (-1)) with (/ (2 * 1))%R in Hhalf. lra. }
    intros H. specialize (Rthin H).
    assert (pwB <= 0); [|lia].
    apply (product_floor_le 1440 pr er 0 pwB ltac:(lia) ltac:(lia) EfB).
    change (IZR (0 + 1)) with 1%R. lra.
Qed.

End PlanCases.

(* ===================================================================== *)
(** * The proposal against the exact proportion *)
(* ===================================================================== *)

Module PlanExact.
Import B64 B64Facts B64Int PlanFacts PlanCases.

Local Open Scope Z_scope.

(** ** A 53-bit quotient of two dimensions *)

(** The quotient of two dimensions, scaled to 53 bits. *)
Lemma scaled_quotient a b :
  1 <= a < 2 ^ 31 -> 1 <= b < 2 ^ 31 ->
  exists s N,
    21 <= s <= 84 /\ 2 ^ 52 <= N < 2 ^ 53 /\
    N * b <= a * 2 ^ s < (N + 1) * b.
Proof.
  intros Ha Hb.
  destruct (Z.log2_spec a ltac:(lia)) as [Ha1 Ha2].
  destruct (Z.log2_spec b ltac:(lia)) as [Hb1 Hb2].
  pose proof (Z.log2_nonneg a) as Hla0. pose proof (Z.log2_nonneg b) as Hlb0.
  assert (Hla : Z.log2 a < 31) by (apply Z.log2_lt_pow2; lia).
  assert (Hlb : Z.log2 b < 31) by (apply Z.log2_lt_pow2; lia).
  set (la := Z.log2 a) in *. set (lb := Z.log2 b) in *.
  set (s0 := 52 + lb - la).
  assert (E1 : 2 ^ la * 2 ^ s0 = 2 ^ lb * 2 ^ 52).
  { rewrite <- !Z.pow_add_r by lia. f_equal. lia. }
  assert (E2 : 2 ^ Z.succ la = 2 * 2 ^ la) by (apply Z.pow_succ_r; lia).
  assert (E3 : 2 ^ Z.succ lb = 2 * 2 ^ lb) by (apply Z.pow_succ_r; lia).
  assert (E4 : 2 ^ (s0 + 1) = 2 * 2 ^ s0) by (rewrite Z.pow_add_r by lia; lia).
  assert (Hs0 : 0 < 2 ^ s0) by (apply Z.pow_pos_nonneg; lia).
  assert (Hpa : 0 < 2 ^ la) by (apply Z.pow_pos_nonneg; lia).
  assert (Hpb : 0 < 2 ^ lb) by (apply Z.pow_pos_nonneg; lia).
  assert (B1 : 2 ^ lb * 2 ^ 52 <= a * 2 ^ s0) by nia.
  assert (B2 : a * 2 ^ s0 < 2 * (2 ^ lb * 2 ^ 52)) by nia.
  destruct (Z_le_gt_dec (2 ^ 52 * b) (a * 2 ^ s0)) as [Hge|Hlt].
  - exists s0, (a * 2 ^ s0 / b). split; [unfold s0; lia|]. split.
    + split.
      * apply Z.div_le_lower_bound; lia.
      * apply Z.div_lt_upper_bound; [lia|]. nia.
    + pose proof (Z.mul_div_le (a * 2 ^ s0) b ltac:(lia)).
      pose proof (Z.mul_succ_div_gt (a * 2 ^ s0) b ltac:(lia)). lia.
  - exists (s0 + 1), (a * 2 ^ (s0 + 1) / b). split; [unfold s0; lia|]. split.
    + split.
      * apply Z.div_le_lower_bound; [lia|]. nia.
      * apply Z.div_lt_upper_bound; [lia|]. nia.
    + pose proof (Z.mul_div_le (a * 2 ^ (s0 + 1)) b ltac:(lia)).
      pose proof (Z.mul_succ_div_gt (a * 2 ^ (s0 + 1)) b ltac:(lia)). lia.
Qed.

Local Open Scope R_scope.

(** A 53-bit integer at a scale of the range of [scaled_quotient] is the
    value of a canonical mantissa. *)
Lemma canonical_scaled N s :
  (2 ^ 52 <= N <= 2 ^ 53)%Z -> (0 <= s <= 1000)%Z ->
  exists c k, canonical c k /\ (k <= 971)%Z /\ F2R c k = IZR N * bpow (- s).
Proof.
  intros HN Hs. destruct (Z.eq_dec N (2 ^ 53)%Z) as [->|Hne].
  - destruct (canonical_pow2 (53 - s) ltac:(lia)) as [Hc E].
    eexists _, _. split; [exact Hc|]. split; [lia|]. rewrite E.
    rewrite (bpow_IZR 53), <- bpow_add by lia. f_equal.
  - assert (Hd : Zdigits2 N = 53%Z)
      by (apply Zdigits2_unique; [lia|]; change (53 - 1)%Z with 52%Z; lia).
    destruct (canonical_norm N (- s) ltac:(lia) ltac:(rewrite Hd; lia))
      as (Hc & _ & E).
    eexists _, _. split; [exact Hc|]. split; [rewrite Hd; lia|].
    rewrite E. reflexivity.
Qed.

(** ** The rounded aspect ratio is within one part in [2^52] of the exact
    one *)
Lemma ratio_near w h pr er :
  (1 <= w < 2 ^ 31)%Z -> (1 <= h < 2 ^ 31)%Z ->
  div (of_int w) (of_int h) = S754_finite false pr er ->
  IZR w <= F2R (Z.pos pr) er * IZR h * (1 + bpow (-52)) /\
  F2R (Z.pos pr) er * IZR h <= IZR w * (1 + bpow (-52)).
Proof.
  intros Hw Hh Er.
  destruct (ratio_finite w h Hw Hh) as (pr' & er' & Er' & _ & Hupper & Hlower).
  rewrite Er in Er'. injection Er' as <- <-.
  set (r := F2R (Z.pos pr) er) in *.
  destruct (scaled_quotient w h Hw Hh) as (s & N & Hs & HN & Hlo & Hhi).
  assert (HW : 0 < IZR w) by (apply IZR_lt; lia).
  assert (HH : 0 < IZR h) by (apply IZR_lt; lia).
  assert (HN0 : bpow 52 <= IZR N) by (rewrite <- bpow_IZR by lia; apply IZR_le; lia).
  pose proof (bpow_pos (- s)) as Hps. pose proof (bpow_pos s) as Hps'.
  pose proof (bpow_pos 52) as H52. pose proof (bpow_pos (-52)) as Hm52.
  assert (Es : bpow s * bpow (- s) = 1).
  { rewrite <- bpow_add. replace (s + - s)%Z with 0%Z by lia. reflexivity. }
  assert (E52 : bpow 52 * bpow (-52) = 1) by (rewrite <- bpow_add; reflexivity).
  assert (Rlo : IZR N * IZR h <= IZR w * bpow s).
  { rewrite <- bpow_IZR, <- !mult_IZR by lia. apply IZR_le. exact Hlo. }
  assert (Rhi : IZR w * bpow s <= (IZR N + 1) * IZR h).
  { rewrite <- bpow_IZR, <- plus_IZR, <- !mult_IZR by lia. apply IZR_le. lia. }
  (* the two neighbours of the exact ratio on the 53-bit grid *)
  set (x := IZR N * bpow (- s)) in *.
  assert (Hx : 0 < x) by (unfold x; apply Rmult_lt_0_compat; lra).
  assert (Hx1 : x * IZR h <= IZR w).
  { apply (Rmult_le_reg_r (bpow s)); [exact Hps'|].
    replace (x * IZR h * bpow s) with (IZR N * IZR h * (bpow s * bpow (- s)))
      by (unfold x; ring).
    rewrite Es. lra. }
  assert (Hx2 : IZR w <= (x + bpow (- s)) * IZR h).
  { apply (Rmult_le_reg_r (bpow s)); [exact Hps'|].
    replace ((x + bpow (- s)) * IZR h * bpow s)
      with ((IZR N + 1) * IZR h * (bpow s * bpow (- s))) by (unfold x; ring).
    rewrite Es. lra. }
  assert (Hstep : bpow (- s) <= x * bpow (-52)).
  { unfold x.
    replace (bpow (- s)) with (bpow 52 * bpow (-52) * bpow (- s)) at 1
      by (rewrite E52; ring).
    replace (IZR N * bpow (- s) * bpow (-52))
      with (IZR N * (bpow (-52) * bpow (- s))) by ring.
    replace (bpow 52 * bpow (-52) * bpow (- s))
      with (bpow 52 * (bpow (-52) * bpow (- s))) by ring.
    apply Rmult_le_compat_r; [|exact HN0].
    apply Rlt_le, Rmult_lt_0_compat; assumption. }
  destruct (canonical_scaled N s ltac:(lia) ltac:(lia)) as (c1 & k1 & Hc1 & Hk1 & E1).
  destruct (canonical_scaled (N + 1) s ltac:(lia) ltac:(lia))
    as (c2 & k2 & Hc2 & Hk2 & E2).
  rewrite plus_IZR in E2.
  assert (L : x <= r).
  { unfold x. rewrite <- E1. apply Hlower; [exact Hc1|]. rewrite E1.
    apply Rdiv_le_lower; [exact HH|exact Hx1]. }
  assert (U : r <= x + bpow (- s)).
  { replace (x + bpow (- s)) with ((IZR N + 1) * bpow (- s)) by (unfold x; ring).
    rewrite <- E2. apply Hupper; [exact Hc2|exact Hk2|]. rewrite E2.
    apply Rdiv_le_upper; [exact HH|].
    replace ((IZR N + 1) * bpow (- s)) with (x + bpow (- s)) by (unfold x; ring).
    exact Hx2. }
  split.
  - apply Rle_trans with ((x + bpow (- s)) * IZR h); [exact Hx2|].
    apply Rle_trans with (x * (1 + bpow (-52)) * IZR h).
    + apply Rmult_le_compat_r; [lra|]. lra.
    + replace (r * IZR h * (1 + bpow (-52))) with (r * (1 + bpow (-52)) * IZR h) by ring.
      apply Rmult_le_compat_r; [lra|]. apply Rmult_le_compat_r; lra.
  - apply Rle_trans with ((x + bpow (- s)) * IZR h).
    + apply Rmult_le_compat_r; lra.
    + apply Rle_trans with (x * (1 + bpow (-52)) * IZR h).
      * apply Rmult_le_compat_r; lra.
      * replace (x * (1 + bpow (-52)) * IZR h) with (x * IZR h * (1 + bpow (-52)))
          by ring.
        apply Rmult_le_compat_r; lra.
Qed.

(** ** The two negative powers of the error bounds *)

Lemma bpow_m41 : bpow (-41) * 2199023255552 = 1.
Proof.
  change 2199023255552 with (IZR (2 ^ 41)). rewrite (bpow_IZR 41) by lia.
  rewrite <- bpow_add. reflexivity.
Qed.

Lemma bpow_m52 : bpow (-52) * 4503599627370496 = 1.
Proof.
  change 4503599627370496 with (IZR (2 ^ 52)). rewrite (bpow_IZR 52) by lia.
  rewrite <- bpow_add. reflexivity.
Qed.

(** [n - 2^-41] for a positive integer [n] up to [2^11] is the value of a
    canonical mantissa. *)
Lemma canonical_just_below n :
  (0 < n <= 2 ^ 11)%Z ->
  exists c k, canonical c k /\ (k <= 971)%Z /\ F2R c k = IZR n - bpow (-41).
Proof.
  intros Hn. set (N := (n * 2 ^ 41 - 1)%Z).
  assert (HN : (0 < N < 2 ^ 53)%Z) by (unfold N; lia).
  assert (Hd : (0 < Zdigits2 N <= 53)%Z).
  { split; [apply Zdigits2_pos; lia|].
    destruct (Zdigits2_bounds N ltac:(lia)) as [Hl _].
    destruct (Z_le_gt_dec (Zdigits2 N) 53) as [|Hgt]; [assumption|].
    assert (2 ^ 53 <= 2 ^ (Zdigits2 N - 1))%Z by (apply Z.pow_le_mono_r; lia). lia. }
  destruct (canonical_norm N (-41) HN ltac:(lia)) as (Hc & _ & EF).
  eexists _, _. split; [exact Hc|]. split; [lia|]. rewrite EF.
  unfold F2R, N. rewrite minus_IZR, mult_IZR, <- bpow_Zpow by lia.
  assert (E : bpow 41 * bpow (-41) = 1) by (rewrite <- bpow_add; reflexivity).
  replace ((IZR n * bpow 41 - 1) * bpow (-41))
    with (IZR n * (bpow 41 * bpow (-41)) - bpow (-41)) by ring.
  rewrite E. ring.
Qed.

(** ** The floor of a quotient and of a product, against a bound *)

Lemma quotient_floor_below n pr er m t :
  (0 < n < 2 ^ 11)%Z -> (0 <= m < 2 ^ 11)%Z ->
  floor (div (of_int n) (S754_finite false pr er)) = Some t ->
  IZR n <= (IZR (m + 1) - bpow (-41)) * F2R (Z.pos pr) er ->
  (t <= m)%Z.
Proof.
  intros Hn Hm Et Hx.
  destruct (of_int_normal n ltac:(lia)) as (pn & en & En & Vn & _).
  rewrite En in Et.
  pose proof (div_sign false pn en false pr er) as Hs.
  change (xorb false false) with false in Hs.
  rewrite floor_trunc in Et by exact Hs.
  destruct (canonical_just_below (m + 1) ltac:(lia)) as (c & k & Hc & Hk & EC).
  assert (Hup : F2R (Z.pos pn) en / F2R (Z.pos pr) er <= F2R c k).
  { rewrite Vn, EC. apply Rdiv_le_upper; [apply F2R_pos; lia|exact Hx]. }
  pose proof (div_upper false pn en false pr er c k Hc Hk Hup) as Hle.
  destruct (trunc_le _ _ m ltac:(lia) Hs Hle) as (t' & Et' & Ht').
  { rewrite EC. pose proof (bpow_pos (-41)). lra. }
  rewrite Et in Et'. injection Et' as <-. lia.
Qed.

Lemma product_floor_below n pr er m t :
  (0 < n < 2 ^ 53)%Z -> (0 <= m < 2 ^ 11)%Z ->
  floor (mul (of_int n) (S754_finite false pr er)) = Some t ->
  IZR n * F2R (Z.pos pr) er <= IZR (m + 1) - bpow (-41) ->
  (t <= m)%Z.
Proof.
  intros Hn Hm Et Hx.
  destruct (of_int_normal n ltac:(lia)) as (pn & en & En & Vn & Hnorm).
  rewrite En in Et.
  pose proof (mul_sign false pn en false pr er Hnorm) as Hs.
  change (xorb false false) with false in Hs.
  rewrite floor_trunc in Et by exact Hs.
  destruct (canonical_just_below (m + 1) ltac:(lia)) as (c & k & Hc & Hk & EC).
  assert (Hup : F2R (Z.pos pn) en * F2R (Z.pos pr) er <= F2R c k).
  { rewrite Vn, EC. exact Hx. }
  pose proof (mul_upper false pn en false pr er c k Hnorm Hc Hk Hup) as Hle.
  destruct (trunc_le _ _ m ltac:(lia) Hs Hle) as (t' & Et' & Ht').
  { rewrite EC. pose proof (bpow_pos (-41)). lra. }
  rewrite Et in Et'. injection Et' as <-. lia.
Qed.

Lemma product_floor_ge n pr er m t :
  (0 < n < 2 ^ 53)%Z -> (0 < m < 2 ^ 53)%Z ->
  floor (mul (of_int n) (S754_finite false pr er)) = Some t ->
  IZR m <= IZR n * F2R (Z.pos pr) er ->
  (m <= t)%Z.
Proof.
  intros Hn Hm Et Hx.
  destruct (of_int_normal n ltac:(lia)) as (pn & en & En & Vn & Hnorm).
  rewrite En in Et.
  pose proof (mul_sign false pn en false pr er Hnorm) as Hs.
  change (xorb false false) with false in Hs.
  rewrite floor_trunc in Et by exact Hs.
  destruct (canonical_int m ltac:(lia)) as (c & k & Hc & Hk & EC).
  assert (Hlo : F2R c k <= F2R (Z.pos pn) en * F2R (Z.pos pr) er).
  { rewrite Vn, EC. exact Hx. }
  pose proof (mul_lower false pn en false pr er c k Hnorm Hc Hlo) as Hge.
  rewrite EC in Hge.
  exact (trunc_ge _ m t Hs Hge Et).
Qed.

(** ** The candidates against the exact proportion *)

Section Candidates.

Variables (w h : Z) (pr : positive) (er : Z).
Hypothesis Hw : (1 <= w < 2 ^ 31)%Z.
Hypothesis Hh : (1 <= h < 2 ^ 31)%Z.
Hypothesis Er : div (of_int w) (of_int h) = S754_finite false pr er.

(** The height of the first candidate is below every whole number above the
    exact [810 * h / w], and at least every whole number below it. *)
Lemma quotient_below t m :
  floor (div (of_int 810) (S754_finite false pr er)) = Some t ->
  (1 <= m <= 1921)%Z -> (810 * h < w * m)%Z -> (t < m)%Z.
Proof.
  intros Et Hm Hlt.
  destruct (ratio_near w h pr er Hw Hh Er) as [Hlo _].
  set (r := F2R (Z.pos pr) er) in *.
  assert (Hr : 0 < r) by (apply F2R_pos; lia).
  pose proof bpow_m41 as E41. pose proof bpow_m52 as E52.
  pose proof (bpow_pos (-41)) as P41. pose proof (bpow_pos (-52)) as P52.
  assert (HW : 1 <= IZR w <= 2147483648) by (split; apply IZR_le; lia).
  assert (HH : 1 <= IZR h <= 2147483648) by (split; apply IZR_le; lia).
  assert (HM : 1 <= IZR m <= 1921) by (split; apply IZR_le; lia).
  assert (Wd : IZR w * bpow (-41) <= 2147483648 * bpow (-41))
    by (apply Rmult_le_compat_r; lra).
  assert (We : IZR w * bpow (-52) <= 2147483648 * bpow (-52))
    by (apply Rmult_le_compat_r; lra).
  assert (MWe : IZR m * (IZR w * bpow (-52)) <= 1921 * (2147483648 * bpow (-52))).
  { apply Rmult_le_compat; try lra. apply Rmult_le_pos; lra. }
  assert (G : (810 * h + 1 <= w * m)%Z) by lia.
  apply IZR_le in G. rewrite plus_IZR, !mult_IZR in G.
  assert (t <= m - 1)%Z; [|lia].
  apply (quotient_floor_below 810 pr er (m - 1) t ltac:(lia) ltac:(lia) Et).
  replace (m - 1 + 1)%Z with m by lia. fold r.
  (* 810 h (1 + e) <= (m - d) w <= (m - d) r h (1 + e) *)
  assert (S1 : 810 * (IZR h * (1 + bpow (-52))) <= (IZR m - bpow (-41)) * IZR w).
  { assert (He : 810 * (IZR h * bpow (-52)) <= IZR m * (IZR w * bpow (-52))).
    { replace (810 * (IZR h * bpow (-52))) with (810 * IZR h * bpow (-52)) by ring.
      replace (IZR m * (IZR w * bpow (-52))) with (IZR w * IZR m * bpow (-52)) by ring.
      apply Rmult_le_compat_r; lra. }
    lra. }
  assert (S2 : (IZR m - bpow (-41)) * IZR w
               <= (IZR m - bpow (-41)) * (r * IZR h * (1 + bpow (-52)))).
  { apply Rmult_le_compat_l; lra. }
  apply (Rmult_le_reg_r (IZR h * (1 + bpow (-52)))).
  - apply Rmult_lt_0_compat; lra.
  - replace ((IZR m - bpow (-41)) * r * (IZR h * (1 + bpow (-52))))
      with ((IZR m - bpow (-41)) * (r * IZR h * (1 + bpow (-52)))) by ring.
    lra.
Qed.

Lemma quotient_above t m :
  floor (div (of_int 810) (S754_finite false pr er)) = Some t ->
  (1 <= m <= 1921)%Z -> (w * m < 810 * h)%Z -> (m <= t)%Z.
Proof.
  intros Et Hm Hlt.
  destruct (ratio_near w h pr er Hw Hh Er) as [_ Hhi].
  set (r := F2R (Z.pos pr) er) in *.
  assert (Hr : 0 < r) by (apply F2R_pos; lia).
  pose proof bpow_m52 as E52. pose proof (bpow_pos (-52)) as P52.
  assert (HW : 1 <= IZR w <= 2147483648) by (split; apply IZR_le; lia).
  assert (HH : 1 <= IZR h <= 2147483648) by (split; apply IZR_le; lia).
  assert (HM : 1 <= IZR m <= 1921) by (split; apply IZR_le; lia).
  assert (We : IZR w * bpow (-52) <= 2147483648 * bpow (-52))
    by (apply Rmult_le_compat_r; lra).
  assert (MWe : IZR m * (IZR w * bpow (-52)) <= 1921 * (2147483648 * bpow (-52))).
  { apply Rmult_le_compat; try lra. apply Rmult_le_pos; lra. }
  assert (G : (w * m + 1 <= 810 * h)%Z) by lia.
  apply IZR_le in G. rewrite plus_IZR, !mult_IZR in G.
  apply (quotient_floor_ge 810 pr er m t ltac:(lia) ltac:(lia) Et). fold r.
  (* m r h <= m w (1 + e) <= 810 h *)
  assert (S1 : IZR m * (r * IZR h) <= IZR m * (IZR w * (1 + bpow (-52)))).
  { apply Rmult_le_compat_l; lra. }
  assert (S2 : IZR m * (IZR w * (1 + bpow (-52))) <= 810 * IZR h) by lra.
  apply (Rmult_le_reg_r (IZR h)); [lra|].
  replace (IZR m * r * IZR h) with (IZR m * (r * IZR h)) by ring.
  lra.
Qed.

(** The same for the width of the second candidate and the exact
    [1440 * w / h]. *)
Lemma product_below t m :
  floor (mul (of_int 1440) (S754_finite false pr er)) = Some t ->
  (1 <= m <= 1441)%Z -> (1440 * w < h * m)%Z -> (t < m)%Z.
Proof.
  intros Et Hm Hlt.
  destruct (ratio_near w h pr er Hw Hh Er) as [_ Hhi].
  set (r := F2R (Z.pos pr) er) in *.
  assert (Hr : 0 < r) by (apply F2R_pos; lia).
  pose proof bpow_m41 as E41. pose proof bpow_m52 as E52.
  pose proof (bpow_pos (-41)) as P41. pose proof (bpow_pos (-52)) as P52.
  assert (HW : 1 <= IZR w <= 2147483648) by (split; apply IZR_le; lia).
  assert (HH : 1 <= IZR h <= 2147483648) by (split; apply IZR_le; lia).
  assert (HM : 1 <= IZR m <= 1441) by (split; apply IZR_le; lia).
  assert (Hd : IZR h * bpow (-41) <= 2147483648 * bpow (-41))
    by (apply Rmult_le_compat_r; lra).
  assert (We : IZR w * bpow (-52) <= 2147483648 * bpow (-52))
    by (apply Rmult_le_compat_r; lra).
  assert (G : (1440 * w + 1 <= h * m)%Z) by lia.
  apply IZR_le in G. rewrite plus_IZR, !mult_IZR in G.
  assert (t <= m - 1)%Z; [|lia].
  apply (product_floor_below 1440 pr er (m - 1) t ltac:(lia) ltac:(lia) Et).
  replace (m - 1 + 1)%Z with m by lia. fold r.
  (* 1440 r h <= 1440 w (1 + e) <= (m - d) h *)
  assert (S1 : 1440 * (r * IZR h) <= 1440 * (IZR w * (1 + bpow (-52)))).
  { apply Rmult_le_compat_l; lra. }
  assert (S2 : 1440 * (IZR w * (1 + bpow (-52))) <= (IZR m - bpow (-41)) * IZR h)
    by lra.
  apply (Rmult_le_reg_r (IZR h)); [lra|].
  replace (1440 * r * IZR h) with (1440 * (r * IZR h)) by ring.
  lra.
Qed.

Lemma product_above t m :
  floor (mul (of_int 1440) (S754_finite false pr er)) = Some t ->
  (1 <= m <= 1441)%Z -> (h * m < 1440 * w)%Z -> (m <= t)%Z.
Proof.
  intros Et Hm Hlt.
  destruct (ratio_near w h pr er Hw Hh Er) as [Hlo _].
  set (r := F2R (Z.pos pr) er) in *.
  assert (Hr : 0 < r) by (apply F2R_pos; lia).
  pose proof bpow_m52 as E52. pose proof (bpow_pos (-52)) as P52.
  assert (HW : 1 <= IZR w <= 2147483648) by (split; apply IZR_le; lia).
  assert (HH : 1 <= IZR h <= 2147483648) by (split; apply IZR_le; lia).
  assert (HM : 1 <= IZR m <= 1441) by (split; apply IZR_le; lia).
  assert (He : IZR h * bpow (-52) <= 2147483648 * bpow (-52))
    by (apply Rmult_le_compat_r; lra).
  assert (MHe : IZR m * (IZR h * bpow (-52)) <= 1441 * (2147483648 * bpow (-52))).
  { apply Rmult_le_compat; try lra. apply Rmult_le_pos; lra. }
  assert (G : (h * m + 1 <= 1440 * w)%Z) by lia.
  apply IZR_le in G. rewrite plus_IZR, !mult_IZR in G.
  apply (product_floor_ge 1440 pr er m t ltac:(lia) ltac:(lia) Et). fold r.
  (* m h (1 + e) <= 1440 w <= 1440 r h (1 + e) *)
  assert (S1 : IZR m * (IZR h * (1 + bpow (-52))) <= 1440 * IZR w) by lra.
  assert (S2 : 1440 * IZR w <= 1440 * (r * IZR h * (1 + bpow (-52)))).
  { apply Rmult_le_compat_l; lra. }
  apply (Rmult_le_reg_r (IZR h * (1 + bpow (-52)))).
  - apply Rmult_lt_0_compat; lra.
  - replace (1440 * r * (IZR h * (1 + bpow (-52))))
      with (1440 * (r * IZR h * (1 + bpow (-52)))) by ring.
    lra.
Qed.

End Candidates.

(** ** The proposal *)

Local Open Scope Z_scope.

(** The proposal is the exact proportion rounded down, or one less when
    the exact value is a whole number; the second candidate is taken only
    when the exact height of the first is 1921 or more. *)
Lemma proposed_exact w h :
  1 <= w < 2 ^ 31 -> 1 <= h < 2 ^ 31 ->
  exists pw ph,
    Pipeline.float_proposal App.screen_factor 1920 1080 w h = Some (pw, ph) /\
    (pw = 810 /\ 0 <= ph <= 1920 /\ w * ph <= 810 * h <= w * (ph + 1) \/
     ph = 1440 /\ 0 <= pw <= 720 /\ h * pw <= 1440 * w <= h * (pw + 1) /\
     1921 * w <= 810 * h).
Proof.
  intros Hw Hh.
  destruct (ratio_finite w h Hw Hh) as (pr & er & Er & Hrho & _).
  destruct (quotient_by_ratio 810 pr er ltac:(lia) Hrho)
    as (qA & phA & EqA & _ & EfA & HphA0 & _).
  destruct (product_by_ratio 720 pr er ltac:(lia) Hrho)
    as (pwB & _ & EfB & HpwB0 & _).
  change (2 * 720) with 1440 in EfB.
  assert (EqA' : qA = div (of_int 810) (S754_finite false pr er)).
  { unfold Py.truediv in EqA. cbn [is_zero] in EqA. congruence. }
  subst qA.
  exists (if phA <=? 1920 then 810 else pwB), (if phA <=? 1920 then phA else 1440).
  split.
  { unfold Pipeline.float_proposal. rewrite AppFacts.candidate_width_floor.
    cbn [mbind option_bind]. rewrite Er, EfA. cbn [mbind option_bind].
    destruct (phA <=? 1920); [reflexivity|].
    rewrite AppFacts.candidate_height_floor. cbn [mbind option_bind].
    rewrite EfB. reflexivity. }
  destruct (Z.leb_spec phA 1920) as [HA|HB].
  - left. split; [reflexivity|]. split; [lia|]. split.
    + destruct (Z_le_gt_dec (w * phA) (810 * h)) as [|Hgt]; [assumption|].
      assert (1 <= phA) by nia.
      pose proof (quotient_below w h pr er Hw Hh Er phA phA EfA ltac:(lia) ltac:(lia)).
      lia.
    + destruct (Z_le_gt_dec (810 * h) (w * (phA + 1))) as [|Hgt]; [assumption|].
      pose proof (quotient_above w h pr er Hw Hh Er phA (phA + 1) EfA
                    ltac:(lia) ltac:(lia)).
      lia.
  - assert (Hratio : 1921 * w <= 810 * h).
    { destruct (Z_le_gt_dec (1921 * w) (810 * h)) as [|Hgt]; [assumption|].
      pose proof (quotient_below w h pr er Hw Hh Er phA 1921 EfA
                    ltac:(lia) ltac:(lia)).
      lia. }
    assert (Hpw : pwB <= 720).
    { assert (pwB < 721); [|lia].
      apply (product_below w h pr er Hw Hh Er pwB 721 EfB); lia. }
    right. split; [reflexivity|]. split; [lia|]. split; [|exact Hratio]. split.
    + destruct (Z_le_gt_dec (h * pwB) (1440 * w)) as [|Hgt]; [assumption|].
      assert (1 <= pwB) by nia.
      pose proof (product_below w h pr er Hw Hh Er pwB pwB EfB ltac:(lia) ltac:(lia)).
      lia.
    + destruct (Z_le_gt_dec (1440 * w) (h * (pwB + 1))) as [|Hgt]; [assumption|].
      pose proof (product_above w h pr er Hw Hh Er pwB (pwB + 1) EfB
                    ltac:(lia) ltac:(lia)).
      lia.
Qed.

(** Which proposals are empty, and which images get the first candidate. *)
Lemma proposed_positive w h :
  1 <= w < 2 ^ 31 -> 1 <= h < 2 ^ 31 ->
  exists pw ph,
    Pipeline.float_proposal App.screen_factor 1920 1080 w h = Some (pw, ph) /\
    (w <= 810 * h -> h < 1440 * w -> 1 <= ph /\ 1 <= pw) /\
    (810 * h < w -> ph = 0) /\
    (1440 * w < h -> pw = 0) /\
    (810 * h <= 1920 * w -> pw = 810).
Proof.
  intros Hw Hh.
  destruct (proposed_exact w h Hw Hh) as (pw & ph & E & Hcases).
  destruct (proposed_analysis w h Hw Hh) as (pw' & ph' & E' & _ & _ & Hpos & _).
  rewrite E in E'. injection E' as <- <-.
  exists pw, ph. split; [exact E|].
  destruct Hcases as [(-> & Hph & Hlo & Hhi)|(-> & Hpw & [Hlo Hhi] & Hratio)].
  - split; [|split; [|split]].
    + intros H1 H2. split; [|lia].
      destruct (Z.eq_dec w (810 * h)) as [Heq|Hne].
      * apply Hpos; lia.
      * destruct (Z_le_gt_dec 1 ph) as [|H0]; [assumption|].
        assert (ph = 0) by lia. subst ph. lia.
    + intros H. nia.
    + intros H. nia.
    + reflexivity.
  - split; [|split; [|split]].
    + intros H1 H2. split; [lia|].
      destruct (Z_le_gt_dec 1 pw) as [|H0]; [assumption|].
      assert (pw = 0) by lia. subst pw. lia.
    + intros H. lia.
    + intros H. nia.
    + intros H. lia.
Qed.

End PlanExact.

(* ===================================================================== *)
(** * The planner of the specification, on the integers *)
(* ===================================================================== *)

Module SpecFacts.

Local Open Scope Z_scope.

(** ** Floors of quotients of integers *)

Lemma inject_Z_nonzero a : 0 < a -> ~ (inject_Z a == 0)%Q.
Proof. intros Ha H. unfold Qeq in H. cbn in H. lia. Qed.

Lemma Qfloor_quotient a b :
  0 < b -> Qfloor (inject_Z a / inject_Z b) = a / b.
Proof.
  intros Hb. destruct b as [|p|p]; try lia.
  rewrite <- Qmake_Qdiv. reflexivity.
Qed.

Lemma whole_quotient a b :
  0 < b -> Spec.whole (inject_Z a / inject_Z b) <-> b * (a / b) = a.
Proof.
  intros Hb. unfold Spec.whole. rewrite (Qfloor_quotient a b Hb).
  destruct b as [|p|p]; try lia.
  rewrite <- Qmake_Qdiv. unfold Qeq. cbn [Qnum Qden inject_Z]. lia.
Qed.

Lemma whole_compat p q : (p == q)%Q -> Spec.whole p <-> Spec.whole q.
Proof.
  intros E. unfold Spec.whole. rewrite (Qfloor_comp _ _ E).
  split; intros H.
  - apply (Qeq_trans _ p); [exact H|exact E].
  - apply (Qeq_trans _ q); [exact H|apply Qeq_sym; exact E].
Qed.

(** ** The two candidates under the configured constants *)

(** The float [App.screen_factor] is exactly the factor 3/4. *)
Lemma screen_fit_factor_float :
  exists m e,
    App.screen_factor = S754_finite false m e /\
    (inject_Z (Z.pos m) * 2 ^ e == Spec.screen_fit_factor)%Q.
Proof. eexists _, _. split; reflexivity. Qed.

Lemma candidate_a_width_value :
  Spec.candidate_a_width Spec.screen_fit_factor 1080 = 810.
Proof. reflexivity. Qed.

Lemma candidate_b_height_value :
  Spec.candidate_b_height Spec.screen_fit_factor 1920 = 1440.
Proof. reflexivity. Qed.

Lemma candidate_a_exact w h :
  0 < w -> 0 < h ->
  (Spec.candidate_a_height_exact Spec.screen_fit_factor 1080 w h
   == inject_Z (810 * h) / inject_Z w)%Q.
Proof.
  intros Hw Hh. unfold Spec.candidate_a_height_exact, Spec.ratio.
  rewrite candidate_a_width_value, inject_Z_mult.
  field. split; apply inject_Z_nonzero; assumption.
Qed.

Lemma candidate_b_exact w h :
  0 < w -> 0 < h ->
  (Spec.candidate_b_width_exact Spec.screen_fit_factor 1920 w h
   == inject_Z (1440 * w) / inject_Z h)%Q.
Proof.
  intros Hw Hh. unfold Spec.candidate_b_width_exact, Spec.ratio.
  rewrite candidate_b_height_value, inject_Z_mult.
  field. apply inject_Z_nonzero; assumption.
Qed.

Lemma candidate_a_height_value w h :
  0 < w -> 0 < h ->
  Spec.candidate_a_height Spec.screen_fit_factor 1080 w h = 810 * h / w.
Proof.
  intros Hw Hh. unfold Spec.candidate_a_height.
  rewrite (Qfloor_comp _ _ (candidate_a_exact w h Hw Hh)).
  apply Qfloor_quotient. exact Hw.
Qed.

Lemma candidate_b_width_value w h :
  0 < w -> 0 < h ->
  Spec.candidate_b_width Spec.screen_fit_factor 1920 w h = 1440 * w / h.
Proof.
  intros Hw Hh. unfold Spec.candidate_b_width.
  rewrite (Qfloor_comp _ _ (candidate_b_exact w h Hw Hh)).
  apply Qfloor_quotient. exact Hh.
Qed.

Lemma whole_candidate_a w h :
  0 < w -> 0 < h ->
  Spec.whole (Spec.candidate_a_height_exact Spec.screen_fit_factor 1080 w h)
  <-> w * (810 * h / w) = 810 * h.
Proof.
  intros Hw Hh. rewrite <- (whole_quotient (810 * h) w Hw).
  apply whole_compat, candidate_a_exact; assumption.
Qed.

Lemma whole_candidate_b w h :
  0 < w -> 0 < h ->
  Spec.whole (Spec.candidate_b_width_exact Spec.screen_fit_factor 1920 w h)
  <-> h * (1440 * w / h) = 1440 * w.
Proof.
  intros Hw Hh. rewrite <- (whole_quotient (1440 * w) h Hh).
  apply whole_compat, candidate_b_exact; assumption.
Qed.

(** ** The planner of the script against the one of the specification *)

(** A number between [n / w - 1] and [n / w] is the floor of the exact
    quotient, or one less when the quotient is a whole number. *)
Lemma floor_or_one_less n w t :
  0 < w -> 0 <= t -> w * t <= n <= w * (t + 1) ->
  t = n / w \/ w * (n / w) = n /\ t = n / w - 1.
Proof.
  intros Hw Ht [Hlo Hhi].
  pose proof (Z.mul_div_le n w Hw) as H1.
  pose proof (Z.mul_succ_div_gt n w Hw) as H2.
  assert (Hle : t <= n / w) by (apply Z.div_le_lower_bound; lia).
  assert (Hge : n / w <= t + 1) by (apply Z.div_le_upper_bound; lia).
  destruct (Z.eq_dec t (n / w)) as [|Hne]; [left; assumption|].
  right. assert (E : n / w = t + 1) by lia. split; [|lia].
  rewrite E. rewrite E in H1. lia.
Qed.

(** The proposal the script computes is candidate A of the specification
    when that fits, else its candidate from the height, up to the rounding
    of the floats: where the exact value is a whole number the computed one
    may be one less. *)
Lemma float_proposal_spec w h :
  1 <= w < 2 ^ 31 -> 1 <= h < 2 ^ 31 ->
  exists pw ph,
    Pipeline.float_proposal App.screen_factor 1920 1080 w h = Some (pw, ph) /\
    (pw = Spec.candidate_a_width Spec.screen_fit_factor 1080 /\
     ph <= 1920 /\
     (ph = Spec.candidate_a_height Spec.screen_fit_factor 1080 w h \/
      Spec.whole (Spec.candidate_a_height_exact Spec.screen_fit_factor 1080 w h) /\
      ph = Spec.candidate_a_height Spec.screen_fit_factor 1080 w h - 1)
     \/
     ph = Spec.candidate_b_height Spec.screen_fit_factor 1920 /\
     1920 < Spec.candidate_a_height Spec.screen_fit_factor 1080 w h /\
     (pw = Spec.candidate_b_width Spec.screen_fit_factor 1920 w h \/
      Spec.whole (Spec.candidate_b_width_exact Spec.screen_fit_factor 1920 w h) /\
      pw = Spec.candidate_b_width Spec.screen_fit_factor 1920 w h - 1)).
Proof.
  intros Hw Hh.
  destruct (PlanExact.proposed_exact w h Hw Hh) as (pw & ph & E & Hcases).
  exists pw, ph. split; [exact E|].
  rewrite candidate_a_width_value, candidate_b_height_value.
  rewrite (candidate_a_height_value w h), (candidate_b_width_value w h) by lia.
  rewrite (whole_candidate_a w h), (whole_candidate_b w h) by lia.
  destruct Hcases as [(-> & Hph & Hprop)|(-> & Hpw & Hprop & Hratio)].
  - left. split; [reflexivity|]. split; [lia|].
    apply floor_or_one_less; lia.
  - right. split; [reflexivity|]. split.
    + assert (1921 <= 810 * h / w); [|lia].
      apply Z.div_le_lower_bound; lia.
    + apply floor_or_one_less; lia.
Qed.

End SpecFacts.

(* ===================================================================== *)
(** * The date argument *)
(* ===================================================================== *)

Module DateFacts.
Import DateTime App DateFormat.
Local Open Scope Z_scope.

Lemma is_digit_cases c :
  is_digit c = true ->
  In c ["0"; "1"; "2"; "3"; "4"; "5"; "6"; "7"; "8"; "9"]%char.
Proof.
  destruct c as [[] [] [] [] [] [] [] []]; vm_compute; intros H;
    first [discriminate H | tauto].
Qed.

Ltac digit_cases H :=
  apply is_digit_cases in H; cbn [In] in H;
  repeat (destruct H as [<-|H]); [..|destruct H].

Lemma take_1 {A} (a : A) rest :
  take (S (length rest) - length rest) (a :: rest) = [a].
Proof. replace (S (length rest) - length rest)%nat with 1%nat by lia. reflexivity. Qed.

Lemma take_2 {A} (a b : A) rest :
  take (S (S (length rest)) - length rest) (a :: b :: rest) = [a; b].
Proof.
  replace (S (S (length rest)) - length rest)%nat with 2%nat by lia. reflexivity.
Qed.

Lemma take_4 {A} (a b c d : A) rest :
  take (S (S (S (S (length rest)))) - length rest) (a :: b :: c :: d :: rest)
  = [a; b; c; d].
Proof.
  replace (S (S (S (S (length rest)))) - length rest)%nat with 4%nat by lia.
  reflexivity.
Qed.

Ltac unfold_re :=
  match goal with
  | |- context [re ?d] =>
      let r := eval vm_compute in (re d) in change (re d) with r
  end.

Lemma rmatch_Y {X} y1 y2 y3 y4 rest caps (k : list ascii -> captures -> option X) :
  is_digit y1 = true -> is_digit y2 = true -> is_digit y3 = true ->
  is_digit y4 = true ->
  rmatch (re "Y") (y1 :: y2 :: y3 :: y4 :: rest) caps k
  = k rest (<["Y" := [y1; y2; y3; y4]]> caps).
Proof.
  intros H1 H2 H3 H4. unfold_re. cbn [rmatch].
  rewrite H1, H2, H3, H4. cbn [length]. rewrite take_4. reflexivity.
Qed.

(** Tests on known characters are evaluated; the continuation is left. *)
Ltac eval_tests :=
  repeat match goal with
    | |- context [ok_m ?v] =>
        let b := eval vm_compute in (ok_m v) in change (ok_m v) with b
    | |- context [ok_d ?v] =>
        let b := eval vm_compute in (ok_d v) in change (ok_d v) with b
    | |- context [ok_H ?v] =>
        let b := eval vm_compute in (ok_H v) in change (ok_H v) with b
    | |- context [ok_M ?v] =>
        let b := eval vm_compute in (ok_M v) in change (ok_M v) with b
    | |- context [Ascii.eqb ?a ?b] =>
        let v := eval vm_compute in (Ascii.eqb a b) in change (Ascii.eqb a b) with v
    | |- context [in_range ?a ?b ?c] =>
        let v := eval vm_compute in (in_range a b c) in change (in_range a b c) with v
    | |- context [is_digit ?c] =>
        let v := eval vm_compute in (is_digit c) in change (is_digit c) with v
    end.

Ltac field_case Hk :=
  cbn [rmatch two]; eval_tests; cbv iota; cbn [length];
  repeat rewrite Hk by reflexivity;
  rewrite ?take_2;
  try match goal with |- context [match ?k ?r ?c with _ => _ end] =>
        destruct (k r c) end;
  reflexivity.

Lemma rmatch_m {X} a b rest caps (k : list ascii -> captures -> option X) :
  is_digit a = true -> is_digit b = true -> fails_on_digit k ->
  rmatch (re "m") (a :: b :: rest) caps k
  = if ok_m (digits_value 0 [a; b]) then k rest (<["m" := [a; b]]> caps) else None.
Proof.
  intros Ha Hb Hk. unfold_re.
  digit_cases Ha; digit_cases Hb.
  all: field_case Hk.
Qed.

Lemma rmatch_d {X} a b rest caps (k : list ascii -> captures -> option X) :
  is_digit a = true -> is_digit b = true -> fails_on_digit k ->
  rmatch (re "d") (a :: b :: rest) caps k
  = if ok_d (digits_value 0 [a; b]) then k rest (<["d" := [a; b]]> caps) else None.
Proof.
  intros Ha Hb Hk. unfold_re.
  digit_cases Ha; digit_cases Hb.
  all: field_case Hk.
Qed.

Lemma rmatch_H {X} a b rest caps (k : list ascii -> captures -> option X) :
  is_digit a = true -> is_digit b = true -> fails_on_digit k ->
  rmatch (re "H") (a :: b :: rest) caps k
  = if ok_H (digits_value 0 [a; b]) then k rest (<["H" := [a; b]]> caps) else None.
Proof.
  intros Ha Hb Hk. unfold_re.
  digit_cases Ha; digit_cases Hb.
  all: field_case Hk.
Qed.

(** The last field: the match may stop after one digit, and the caller
    then finds unconverted data. *)
Lemma rmatch_M_last a b caps :
  is_digit a = true -> is_digit b = true ->
  rmatch (re "M") [a; b] caps (fun s caps' => Some (s, caps'))
  = Some (if ok_M (digits_value 0 [a; b])
          then ([], <["M" := [a; b]]> caps)
          else ([b], <["M" := [a]]> caps)).
Proof.
  intros Ha Hb. unfold_re.
  digit_cases Ha; digit_cases Hb.
  all: cbn [rmatch two]; eval_tests; reflexivity.
Qed.

Lemma rmatch_seq {X} r1 r2 s caps (k : list ascii -> captures -> option X) :
  rmatch (RSeq r1 r2) s caps k
  = rmatch r1 s caps (fun s' caps' => rmatch r2 s' caps' k).
Proof. reflexivity. Qed.

Lemma rmatch_sep {X} c r s caps (k : list ascii -> captures -> option X) :
  rmatch (RSeq (RChar c) r) (c :: s) caps k = rmatch r s caps k.
Proof. cbn [rmatch]. rewrite Ascii.eqb_refl. reflexivity. Qed.

Lemma fails_on_digit_sep {X} c r (k : list ascii -> captures -> option X) :
  is_digit c = false ->
  fails_on_digit (fun s caps => rmatch (RSeq (RChar c) r) s caps k).
Proof.
  intros Hc d s caps Hd. cbn [rmatch].
  destruct (Ascii.eqb_spec c d) as [->|]; [congruence|reflexivity].
Qed.

Lemma pattern_format :
  pattern (list_ascii_of_string "%Y-%m-%d_%H-%M") = Some format_regex.
Proof. reflexivity. Qed.

Lemma digits_value_bounds a b :
  is_digit a = true -> is_digit b = true -> 0 <= digits_value 0 [a; b] <= 99.
Proof.
  intros Ha Hb. digit_cases Ha; digit_cases Hb; vm_compute; split; discriminate.
Qed.

(** The ranges the expressions of the fields allow are the ones a date
    needs. *)
Lemma valid_datetime_ranges dt :
  valid_datetime dt = true ->
  ok_m (month dt) = true /\ ok_d (day dt) = true /\ ok_H (hour dt) = true /\
  ok_M (minute dt) = true.
Proof.
  unfold valid_datetime, ok_m, ok_d, ok_H, ok_M, days_in_month.
  rewrite !andb_true_iff, !Z.leb_le. intros H.
  repeat split; try tauto.
  destruct H as [[[[[_ H] _] _] _] _]. revert H.
  destruct (_ =? 2); [destruct (is_leap _)|destruct (_ || _)]; lia.
Qed.

Lemma strptime_shape s :
  Spec.matches_pattern s = true ->
  strptime s "%Y-%m-%d_%H-%M"
  = if valid_datetime (Spec.fields s) then Ok (Spec.fields s) else Raise ValueError.
Proof.
  unfold Spec.matches_pattern, Spec.fields, strptime. rewrite pattern_format.
  destruct (list_ascii_of_string s)
    as [|y1 [|y2 [|y3 [|y4 [|s1 [|m1 [|m2 [|s2 [|d1 [|d2 [|s3 [|h1 [|h2
        [|s4 [|n1 [|n2 [|x l]]]]]]]]]]]]]]]]]; try discriminate.
  cbn [forallb]. rewrite !andb_true_iff.
  intros [[[[(Hy1 & Hy2 & Hy3 & Hy4 & Hm1 & Hm2 & Hd1 & Hd2 & Hh1 & Hh2 & Hn1 & Hn2 & _)
              Hs1] Hs2] Hs3] Hs4].
  apply Ascii.eqb_eq in Hs1, Hs2, Hs3, Hs4. subst s1 s2 s3 s4.
  set (dt := {| year := _ |}).
  assert (Hranges := valid_datetime_ranges dt). cbn [month day hour minute dt] in Hranges.
  unfold format_regex.
  rewrite rmatch_seq, rmatch_Y by assumption.
  rewrite rmatch_sep, rmatch_seq.
  rewrite rmatch_m by (assumption || (apply fails_on_digit_sep; reflexivity)).
  destruct (ok_m _) eqn:Em; [|destruct (valid_datetime dt); [intuition congruence|reflexivity]].
  rewrite rmatch_sep, rmatch_seq.
  rewrite rmatch_d by (assumption || (apply fails_on_digit_sep; reflexivity)).
  destruct (ok_d _) eqn:Ed; [|destruct (valid_datetime dt); [intuition congruence|reflexivity]].
  rewrite rmatch_sep, rmatch_seq.
  rewrite rmatch_H by (assumption || (apply fails_on_digit_sep; reflexivity)).
  destruct (ok_H _) eqn:EH; [|destruct (valid_datetime dt); [intuition congruence|reflexivity]].
  rewrite rmatch_sep, rmatch_seq.
  cbn [rmatch]. rewrite rmatch_M_last by assumption.
  destruct (ok_M _) eqn:EM; [|destruct (valid_datetime dt); [intuition congruence|reflexivity]].
  unfold group_int.
  repeat (rewrite lookup_insert_ne by discriminate).
  rewrite lookup_insert_eq.
  reflexivity.
Qed.

(** ** [valid_date] *)

(** On a string of the pattern the parser returns the date the string
    spells when that is a date, and refuses the string otherwise. *)
Lemma valid_date_shape s :
  Spec.matches_pattern s = true ->
  valid_date s
  = if valid_datetime (Spec.fields s) then Ok (Spec.fields s)
    else Raise ArgumentTypeError.
Proof.
  intros H. unfold valid_date. rewrite (strptime_shape s H).
  destruct (valid_datetime _); reflexivity.
Qed.


(** What it returns is a date. *)
Lemma valid_date_valid s t : valid_date s = Ok t -> valid_datetime t = true.
Proof.
  unfold valid_date, strptime. rewrite pattern_format.
  destruct (rmatch _ _ _ _) as [[[|c rest] caps]|]; try discriminate.
  destruct (valid_datetime _) eqn:E; [|discriminate].
  intros [= <-]. exact E.
Qed.

(** ** The error path of the parser *)

(** Formatting the usage text fails at "%Y": after "%(prog)s" there is no
    argument left.  A refused command line therefore ends with an uncaught
    [TypeError], not with the exit of [parser.error]. *)
Lemma usage_not_formattable :
  percent_format usage {["prog" := prog]} = Raise TypeError.
Proof. vm_compute. reflexivity. Qed.

Lemma parser_error_uncaught : parser_error = Uncaught TypeError.
Proof. unfold parser_error. rewrite usage_not_formattable. reflexivity. Qed.

End DateFacts.

(* ===================================================================== *)
(** * The properties of the specification *)
(* ===================================================================== *)

Import Np DateTime App Pipeline.

Section Claims.

Import AppFacts.

Variable imread : string -> option ndarray.
Variable interp : ndarray -> Z -> Z -> nat -> nat -> pixel.

Local Open Scope Z_scope.

Local Abbreviation plan d path :=
  (resize_type imread d path ig_defined_res screen_factor scale_tolerance).

(** ** The main loop *)

Lemma proposed_res_eq img ph pw :
  Pipeline.float_proposal screen_factor 1920 1080 (shape img).2 (shape img).1 = Some (pw, ph) ->
  proposed_res img = (ph, pw).
Proof. unfold proposed_res. intros ->. reflexivity. Qed.

(** One pass on a decodable image, in terms of [proposed_res]. *)
Lemma iteration_decodable d0 path img out t i :
  imread path = Some img -> decodable img = true ->
  iteration imread interp d0 path out t i =
    if (0 <? (proposed_res img).1) && (0 <? (proposed_res img).2)
    then Ok (processed interp d0 img (proposed_res img).1 (proposed_res img).2,
             file_of imread interp out t i path)
    else Raise Cv2Error.
Proof.
  intros Hread Hdec.
  destruct (iteration_spec imread interp d0 path img out t i Hread Hdec)
    as (ph & pw & Espec & _ & _ & _ & _ & ->).
  unfold file_of. rewrite Hread, (proposed_res_eq img ph pw Espec). reflexivity.
Qed.

Lemma iteration_undecoded d0 path out t i :
  imread path = None ->
  iteration imread interp d0 path out t i = Raise AttributeError.
Proof.
  intros Hread. unfold iteration, resize_type. rewrite Hread. dict. reflexivity.
Qed.

(** What a pass writes does not depend on the dictionary it starts from. *)
Lemma iteration_file d0 path img out t i d file :
  imread path = Some img -> decodable img = true ->
  iteration imread interp d0 path out t i = Ok (d, file) ->
  file = file_of imread interp out t i path.
Proof.
  intros Hread Hdec. rewrite (iteration_decodable d0 path img out t i Hread Hdec).
  destruct (_ && _); [|discriminate]. intros [= _ <-]. reflexivity.
Qed.

(** The files written are the ones [acc] held, followed by one file per
    pass, in the order of the paths. *)
Lemma loop_written paths :
  forall d out t i0 acc k file,
    written (loop imread interp d paths out t i0 acc) !! k = Some file ->
    acc !! k = Some file \/
    exists p d' d'',
      (length acc <= k)%nat /\ paths !! (k - length acc)%nat = Some p /\
      iteration imread interp d' p out t (i0 + (k - length acc))%nat = Ok (d'', file).
Proof.
  induction paths as [|p rest IH]; intros d out t i0 acc k file Hk; cbn [loop] in Hk.
  - left. exact Hk.
  - destruct (iteration imread interp d p out t i0) as [[d1 f]|e] eqn:Eit.
    + apply IH in Hk as [Hacc|(q & d' & d'' & Hle & Hq & Hit)].
      * destruct (decide (k < length acc)%nat) as [Hlt|Hge].
        { left. rewrite lookup_app_l in Hacc by exact Hlt. exact Hacc. }
        right. rewrite lookup_app_r in Hacc by lia.
        destruct (k - length acc)%nat as [|n] eqn:En; [|destruct n; discriminate].
        injection Hacc as <-. exists p, d, d1.
        split; [lia|]. split; [reflexivity|].
        rewrite Nat.add_0_r. exact Eit.
      * right. rewrite length_app in Hle, Hq, Hit. cbn [length] in Hle, Hq, Hit.
        exists q, d', d''. split; [lia|].
        replace (k - length acc)%nat with (S (k - (length acc + 1)))%nat by lia.
        split; [exact Hq|].
        replace (i0 + S (k - (length acc + 1)))%nat
          with (S i0 + (k - (length acc + 1)))%nat by lia.
        exact Hit.
    + left. exact Hk.
Qed.

Lemma iteration_processable d0 path out t i :
  processable imread path ->
  exists d, iteration imread interp d0 path out t i
            = Ok (d, file_of imread interp out t i path).
Proof.
  intros (img & Hread & Hdec & Hh & Hw).
  rewrite (iteration_decodable d0 path img out t i Hread Hdec).
  destruct (Z.ltb_spec 0 (proposed_res img).1); [|lia].
  destruct (Z.ltb_spec 0 (proposed_res img).2); [|lia].
  eexists. reflexivity.
Qed.

(** When every path is processable the loop runs to the end and writes one
    file per path. *)
Lemma loop_processable paths :
  forall d out t i0 acc,
    Forall (processable imread) paths ->
    loop imread interp d paths out t i0 acc =
      {| ended := Completed;
         written := acc ++ imap (fun k p => file_of imread interp out t (i0 + k) p) paths |}.
Proof.
  induction paths as [|p rest IH]; intros d out t i0 acc HF; cbn [loop].
  - cbn [imap]. rewrite app_nil_r. reflexivity.
  - apply Forall_cons in HF as [Hp HF].
    destruct (iteration_processable d p out t i0 Hp) as (d1 & ->).
    rewrite (IH d1 out t (S i0) (acc ++ [file_of imread interp out t i0 p]) HF).
    f_equal. rewrite <- app_assoc. cbn [app imap]. f_equal. f_equal.
    + f_equal. lia.
    + apply imap_ext. intros k q _. cbn. f_equal. lia.
Qed.

(* --------------------------------------------------------------------- *)
(** ** C1 *)

(** C1, as amended: with the configured constants (canvas 1920 high by 1080
    wide, screen-fit factor 0.75), an image 1080 wide and 1920 high gets
    proposed_width 810 and proposed_height 1440, direction shrink, and the
    offsets top = 240 and left = 135.  (The figures of the claim are these
    with the two axes exchanged.) *)
Theorem C1_portrait_geometry d0 path img :
  imread path = Some img -> decodable img = true -> shape img = (1920, 1080) ->
  exists d d' c,
    plan d0 path = Ok d /\
    get d "proposed_res" = Ok (VTuple 1440 810) /\
    get d "proposed_resize_dir" = Ok (VStr "shrink") /\
    add_pip_vars d = Ok d' /\
    get d' "pip_coords" = Ok (VDict c) /\
    c !! "y1" = Some 240 /\ c !! "x1" = Some 135.
Proof.
  intros Hread Hdec Hshape.
  destruct (resize_type_planned imread d0 path img Hread Hdec)
    as (ph & pw & Eplan & Espec & Hph & Hpw & _).
  rewrite Hshape in Espec. cbn [fst snd] in Espec.
  assert (E : Pipeline.float_proposal screen_factor 1920 1080 1080 1920 = Some (810, 1440))
    by (vm_compute; reflexivity).
  rewrite E in Espec. injection Espec as <- <-.
  exists (planned d0 img 1440 810), (composited (planned d0 img 1440 810) 1440 810),
         (pip_coords 1440 810).
  split; [exact Eplan|]. split; [apply planned_proposed_res|]. split.
  { unfold planned. rewrite Hshape. dict. reflexivity. }
  split.
  { apply add_pip_vars_composited;
      [apply planned_defined_res|apply planned_proposed_res|lia|lia]. }
  split; [unfold composited; dict; reflexivity|].
  split; reflexivity.
Qed.

(* --------------------------------------------------------------------- *)
(** ** C2 *)

(** C2, as amended: for every decodable image the planner returns, and
    with r = natural_width / natural_height taken exactly it stores
    candidate A, proposed_width = floor(factor * target_width) with
    proposed_height = floor(proposed_width / r), when the height it computed
    is at most target_height, and otherwise
    proposed_height = floor(factor * target_height) with
    proposed_width = floor(proposed_height * r); except that where the exact
    quotient or product is a whole number the stored value may be one less
    (the script divides and multiplies in binary64).  Whenever neither exact
    value is a whole number the stored pair is the one of the claim. *)
Theorem C2_planner_candidates d0 path img :
  imread path = Some img -> decodable img = true ->
  exists d ph pw,
    plan d0 path = Ok d /\
    get d "proposed_res" = Ok (VTuple ph pw) /\
    (pw = Spec.candidate_a_width Spec.screen_fit_factor ig_defined_res.2 /\
     ph <= ig_defined_res.1 /\
     (ph = Spec.candidate_a_height Spec.screen_fit_factor ig_defined_res.2
                                   (shape img).2 (shape img).1 \/
      Spec.whole (Spec.candidate_a_height_exact Spec.screen_fit_factor
                    ig_defined_res.2 (shape img).2 (shape img).1) /\
      ph = Spec.candidate_a_height Spec.screen_fit_factor ig_defined_res.2
                                   (shape img).2 (shape img).1 - 1)
     \/
     ph = Spec.candidate_b_height Spec.screen_fit_factor ig_defined_res.1 /\
     ig_defined_res.1 < Spec.candidate_a_height Spec.screen_fit_factor
                          ig_defined_res.2 (shape img).2 (shape img).1 /\
     (pw = Spec.candidate_b_width Spec.screen_fit_factor ig_defined_res.1
                                  (shape img).2 (shape img).1 \/
      Spec.whole (Spec.candidate_b_width_exact Spec.screen_fit_factor
                    ig_defined_res.1 (shape img).2 (shape img).1) /\
      pw = Spec.candidate_b_width Spec.screen_fit_factor ig_defined_res.1
                                  (shape img).2 (shape img).1 - 1)) /\
    (~ Spec.whole (Spec.candidate_a_height_exact Spec.screen_fit_factor
                     ig_defined_res.2 (shape img).2 (shape img).1) ->
     ~ Spec.whole (Spec.candidate_b_width_exact Spec.screen_fit_factor
                     ig_defined_res.1 (shape img).2 (shape img).1) ->
     (pw, ph) = Spec.proposed Spec.screen_fit_factor ig_defined_res.1
                              ig_defined_res.2 (shape img).2 (shape img).1).
Proof.
  intros Hread Hdec.
  destruct (decodable_spec img Hdec) as (Hh & Hw & _).
  destruct (resize_type_planned imread d0 path img Hread Hdec)
    as (ph & pw & Eplan & Espec & _).
  destruct (SpecFacts.float_proposal_spec _ _ Hw Hh) as (pw' & ph' & E & Hcases).
  rewrite Espec in E. injection E as <- <-.
  exists (planned d0 img ph pw), ph, pw.
  split; [exact Eplan|]. split; [apply planned_proposed_res|].
  change ig_defined_res.1 with 1920. change ig_defined_res.2 with 1080.
  split; [exact Hcases|].
  intros HA HB. unfold Spec.proposed.
  destruct Hcases as [(-> & Hle & [->|[Hwhole _]])|(-> & Hlt & [->|[Hwhole _]])].
  - destruct (Z.leb_spec (Spec.candidate_a_height Spec.screen_fit_factor 1080
                            (shape img).2 (shape img).1) 1920); [reflexivity|lia].
  - contradiction.
  - destruct (Z.leb_spec (Spec.candidate_a_height Spec.screen_fit_factor 1080
                            (shape img).2 (shape img).1) 1920); [lia|reflexivity].
  - contradiction.
Qed.

(* --------------------------------------------------------------------- *)
(** ** C3 *)

(** C3: for every decodable image the planner returns (nothing is
    rejected); the resize factor it stores is
    floor(proposed_width / natural_width); the direction is enlarge (the
    script's label 'scale') exactly when proposed_width > natural_width;
    the validity flag is the boolean factor <= tolerance for an
    enlargement and None for a shrink. *)
Theorem C3_resize_factor_validity d0 path img :
  imread path = Some img -> decodable img = true ->
  exists d ph pw,
    plan d0 path = Ok d /\
    get d "proposed_res" = Ok (VTuple ph pw) /\
    get d "proposed_resize_factor"
      = Ok (VInt (Spec.resize_factor pw (shape img).2)) /\
    get d "proposed_resize_dir"
      = Ok (VStr match Spec.resize_direction pw (shape img).2 with
                 | Spec.Enlarge => "scale"
                 | Spec.Shrink => "shrink"
                 end) /\
    get d "resize_validity"
      = Ok match Spec.validity (Spec.resize_direction pw (shape img).2)
                   (Spec.resize_factor pw (shape img).2) scale_tolerance with
           | Some b => VBool b
           | None => VNone
           end.
Proof.
  intros Hread Hdec.
  destruct (resize_type_planned imread d0 path img Hread Hdec)
    as (ph & pw & Eplan & _).
  exists (planned d0 img ph pw), ph, pw.
  split; [exact Eplan|]. split; [apply planned_proposed_res|].
  unfold planned, Spec.resize_direction, Spec.resize_factor, Spec.validity,
    scale_tolerance.
  repeat split; dict; destruct (pw <=? (shape img).2); reflexivity.
Qed.

(* --------------------------------------------------------------------- *)
(** ** C4 *)

Lemma flagged_positive img ph pw :
  decodable img = true ->
  ((shape img).2 < 810 -> 1 <= ph) -> 0 <= pw <= 810 ->
  get (planned (∅ : gmap string value) img ph pw) "resize_validity"
    = Ok (VBool false) ->
  0 < ph /\ 0 < pw.
Proof.
  intros Hdec Hph Hpw. destruct (decodable_spec img Hdec) as (_ & Hw & _).
  unfold planned. dict.
  destruct (Z.leb_spec pw (shape img).2); [discriminate|].
  intros _. split; [assert (1 <= ph) by (apply Hph; lia)|]; lia.
Qed.

(** C4: an input flagged invalid (resize_validity = False) raises nothing:
    the compositor and the writer run and the pass writes its file; and the
    file is exactly the one they produce when the flag is set to any other
    value, True included. *)
Theorem C4_invalid_still_written d0 path img out t i d :
  imread path = Some img -> decodable img = true ->
  plan d0 path = Ok d ->
  get d "resize_validity" = Ok (VBool false) ->
  exists d1 d2 file,
    add_pip_vars d = Ok d1 /\
    process_image interp d1 out t i = Ok (d2, file) /\
    iteration imread interp d0 path out t i = Ok (d2, file) /\
    forall flag, exists d1' d2',
      add_pip_vars (<["resize_validity" := flag]> d) = Ok d1' /\
      process_image interp d1' out t i = Ok (d2', file).
Proof.
  intros Hread Hdec Hplan Hflag.
  destruct (iteration_spec imread interp d0 path img out t i Hread Hdec)
    as (ph & pw & _ & Eplan & Hph & Hpw & Hph1 & Hit).
  rewrite Eplan in Hplan. injection Hplan as <-.
  assert (Hpos : 0 < ph /\ 0 < pw).
  { apply (flagged_positive img ph pw Hdec Hph1 Hpw).
    revert Hflag. unfold planned. dict. trivial. }
  destruct Hpos as [Hph0 Hpw0].
  destruct (Z.ltb_spec 0 ph); [|lia]. destruct (Z.ltb_spec 0 pw); [|lia].
  cbn [andb] in Hit.
  exists (composited (planned d0 img ph pw) ph pw), (processed interp d0 img ph pw),
         (output interp img ph pw out t i).
  split.
  { apply add_pip_vars_composited;
      [apply planned_defined_res|apply planned_proposed_res|lia|lia]. }
  split.
  { apply process_image_rendered;
      [apply planned_img_obj|apply planned_proposed_res|assumption|lia|lia]. }
  split; [exact Hit|].
  intros flag. eexists _, _. split.
  - apply (add_pip_vars_composited _ ph pw); [| |lia|lia].
    + rewrite get_insert_ne by discriminate. apply planned_defined_res.
    + rewrite get_insert_ne by discriminate. apply planned_proposed_res.
  - apply process_image_rendered; [| |assumption|lia|lia].
    + rewrite get_insert_ne by discriminate. apply planned_img_obj.
    + rewrite get_insert_ne by discriminate. apply planned_proposed_res.
Qed.

(* --------------------------------------------------------------------- *)
(** ** C5 *)

(** C5: for every decodable image the compositor returns, and the
    rectangle it stores is top = floor((target_height - proposed_height)/2),
    left = floor((target_width - proposed_width)/2),
    bottom = top + proposed_height, right = left + proposed_width. *)
Theorem C5_placement_rectangle d0 path img :
  imread path = Some img -> decodable img = true ->
  exists d ph pw d' c,
    plan d0 path = Ok d /\
    get d "proposed_res" = Ok (VTuple ph pw) /\
    add_pip_vars d = Ok d' /\
    get d' "pip_coords" = Ok (VDict c) /\
    (c !! "y1", c !! "x1", c !! "y2", c !! "x2")
    = let '(top_, left_, bottom_, right_) :=
        Spec.placement ig_defined_res.1 ig_defined_res.2 ph pw in
      (Some top_, Some left_, Some bottom_, Some right_).
Proof.
  intros Hread Hdec.
  destruct (resize_type_planned imread d0 path img Hread Hdec)
    as (ph & pw & Eplan & _ & Hph & Hpw & _).
  exists (planned d0 img ph pw), ph, pw,
         (composited (planned d0 img ph pw) ph pw), (pip_coords ph pw).
  split; [exact Eplan|]. split; [apply planned_proposed_res|]. split.
  { apply add_pip_vars_composited;
      [apply planned_defined_res|apply planned_proposed_res|lia|lia]. }
  split; [unfold composited; dict; reflexivity|].
  reflexivity.
Qed.

(* --------------------------------------------------------------------- *)
(** ** C6 *)

Lemma file_names_from paths out t :
  forall i0, Forall (processable imread) paths ->
  map fst (imap (fun k p => file_of imread interp out t (i0 + k) p) paths)
  = imap (fun k _ => path_join out (dest_name t (i0 + k))) paths.
Proof.
  induction paths as [|q l IH]; intros i0 HF; [reflexivity|].
  apply Forall_cons in HF as [(img & Hq & _) HF].
  cbn [imap map]. f_equal.
  - unfold file_of. rewrite Hq. reflexivity.
  - specialize (IH (S i0) HF).
    etransitivity; [|etransitivity; [exact IH|]].
    + f_equal. apply imap_ext. intros k x _. cbn.
      replace (i0 + S k)%nat with (S i0 + k)%nat by lia. reflexivity.
    + apply imap_ext. intros k x _. cbn.
      replace (i0 + S k)%nat with (S i0 + k)%nat by lia. reflexivity.
Qed.

(** C6, as amended: in a batch with the timestamp [t] of a year from 1000
    on whose paths are all processable, the run completes and the file
    written for the i-th path (from 0, in argument order) is named
    YYYYMMDD_HHMM_i.jpg in the output directory, with the fields of the one
    timestamp [t] in every name.  (Of an earlier year strftime writes fewer
    than four digits.) *)
Theorem C6_file_names date t paths out :
  valid_date date = Ok t -> 1000 <= year t ->
  paths <> [] -> Forall (processable imread) paths ->
  ended (main imread interp date paths out) = Completed /\
  map fst (written (main imread interp date paths out))
  = imap (fun i _ => path_join out (Spec.file_name t i)) paths.
Proof.
  intros Hdate Hyear Hne HF.
  pose proof (valid_datetime_year t (DateFacts.valid_date_valid date t Hdate))
    as Hrange.
  unfold main. rewrite Hdate.
  destruct paths as [|p rest]; [congruence|].
  rewrite (loop_processable (p :: rest) ∅ out t 0%nat [] HF). cbn [ended written app].
  split; [reflexivity|].
  rewrite (file_names_from (p :: rest) out t 0 HF).
  apply imap_ext. intros k x _. cbn.
  rewrite (dest_name_spec t k) by lia. reflexivity.
Qed.

(* --------------------------------------------------------------------- *)
(** ** C7 *)

(** C7: for every decodable image, whatever its natural size, the buffer a
    pass writes has exactly the canvas dimensions: 1920 rows of 1080 pixels
    of three channels; and a pass does write one whenever both proposed
    dimensions are positive (cv2.resize refuses an empty size). *)
Theorem C7_canvas_dimensions d0 path img out t i :
  imread path = Some img -> decodable img = true ->
  (forall d name buffer,
      iteration imread interp d0 path out t i = Ok (d, (name, buffer)) ->
      shape buffer = ig_defined_res /\
      Forall (fun row => length row = 1080%nat) buffer) /\
  (0 < (proposed_res img).1 -> 0 < (proposed_res img).2 ->
   exists d name buffer,
     iteration imread interp d0 path out t i = Ok (d, (name, buffer))).
Proof.
  intros Hread Hdec.
  destruct (iteration_spec imread interp d0 path img out t i Hread Hdec)
    as (ph & pw & Espec & _ & Hph & Hpw & _ & ->).
  rewrite (proposed_res_eq img ph pw Espec). cbn [fst snd]. split.
  - intros d name buffer. destruct (_ && _); [|discriminate].
    unfold output. intros [= _ _ <-].
    destruct (rendered_shape interp img ph pw Hph ltac:(lia)) as [Hlen Hrows].
    split; [|exact Hrows].
    unfold shape, ig_defined_res. rewrite Hlen.
    destruct (rendered interp img ph pw) as [|row rest]; [discriminate Hlen|].
    apply Forall_cons in Hrows as [Hrow _]. cbn [hd]. rewrite Hrow. reflexivity.
  - intros Hh Hw.
    destruct (Z.ltb_spec 0 ph); [|lia]. destruct (Z.ltb_spec 0 pw); [|lia].
    eexists _, _, _. reflexivity.
Qed.

(* --------------------------------------------------------------------- *)
(** ** C8 *)


(* --------------------------------------------------------------------- *)
(** ** C9 *)

(** C9: for every decodable image, under the configured constants, both
    proposed dimensions are at most the canvas dimensions; the offsets top
    and left are nonnegative and the paste region lies inside the canvas. *)
Theorem C9_paste_inside_canvas d0 path img :
  imread path = Some img -> decodable img = true ->
  exists d ph pw d' c y1 x1 y2 x2,
    plan d0 path = Ok d /\
    get d "proposed_res" = Ok (VTuple ph pw) /\
    0 <= ph <= ig_defined_res.1 /\ 0 <= pw <= ig_defined_res.2 /\
    add_pip_vars d = Ok d' /\
    get d' "pip_coords" = Ok (VDict c) /\
    c !! "y1" = Some y1 /\ c !! "x1" = Some x1 /\
    c !! "y2" = Some y2 /\ c !! "x2" = Some x2 /\
    0 <= y1 /\ y1 <= y2 <= ig_defined_res.1 /\
    0 <= x1 /\ x1 <= x2 <= ig_defined_res.2.
Proof.
  intros Hread Hdec.
  destruct (resize_type_planned imread d0 path img Hread Hdec)
    as (ph & pw & Eplan & _ & Hph & Hpw & _).
  exists (planned d0 img ph pw), ph, pw,
         (composited (planned d0 img ph pw) ph pw), (pip_coords ph pw),
         (top ph), (left pw), (top ph + ph), (left pw + pw).
  split; [exact Eplan|]. split; [apply planned_proposed_res|].
  split; [exact Hph|]. split; [exact Hpw|]. split.
  { apply add_pip_vars_composited;
      [apply planned_defined_res|apply planned_proposed_res|lia|lia]. }
  split; [unfold composited; dict; reflexivity|].
  repeat (split; [reflexivity|]).
  unfold top, left, ig_defined_res. cbn [fst snd].
  clear interp Eplan. repeat split; Z.div_mod_to_equations; lia.
Qed.

(* --------------------------------------------------------------------- *)
(** ** C10 *)

(** Every key a pass reads from the shared dictionary it has written
    before: what it writes is the same from any two dictionaries. *)
Lemma iteration_any_dictionary d1 d2 path img out t i :
  imread path = Some img -> decodable img = true ->
  match iteration imread interp d1 path out t i,
        iteration imread interp d2 path out t i with
  | Ok (_, f1), Ok (_, f2) => f1 = f2
  | Raise e1, Raise e2 => e1 = e2
  | _, _ => False
  end.
Proof.
  intros Hread Hdec.
  rewrite (iteration_decodable d1 path img out t i Hread Hdec).
  rewrite (iteration_decodable d2 path img out t i Hread Hdec).
  destruct (_ && _); reflexivity.
Qed.

(** C10: in two runs with the same timestamp and output directory whose
    i-th inputs hold the same image, the i-th files written are identical,
    name and buffer, whatever the other inputs of the two batches. *)
Theorem C10_output_independent_of_batch date out paths1 paths2 i p1 p2 f1 f2 :
  (forall p img, imread p = Some img -> decodable img = true) ->
  paths1 !! i = Some p1 -> paths2 !! i = Some p2 -> imread p1 = imread p2 ->
  written (main imread interp date paths1 out) !! i = Some f1 ->
  written (main imread interp date paths2 out) !! i = Some f2 ->
  f1 = f2.
Proof.
  intros Hdec H1 H2 Hsame W1 W2. unfold main in W1, W2.
  destruct (valid_date date) as [t|e]; [|discriminate].
  assert (Hi : forall paths p f,
             paths !! i = Some p ->
             written (match paths with
                      | [] => {| ended := parser_error; written := [] |}
                      | _ => loop imread interp ∅ paths out t 0 []
                      end) !! i = Some f ->
             exists img, imread p = Some img /\ f = file_of imread interp out t i p).
  { intros paths p f Hp Hw. destruct paths as [|q rest]; [discriminate|].
    apply loop_written in Hw as [Hw|(p' & d' & d'' & _ & Hp' & Hit)]; [discriminate|].
    cbn [length] in Hp', Hit. rewrite Nat.sub_0_r in Hp', Hit.
    rewrite Hp in Hp'. injection Hp' as <-. cbn in Hit.
    destruct (imread p) as [img|] eqn:Hread.
    - exists img. split; [reflexivity|].
      apply (iteration_file d' p img out t i d'' f Hread (Hdec p img Hread) Hit).
    - rewrite (iteration_undecoded d' p out t i Hread) in Hit. discriminate. }
  destruct (Hi paths1 p1 f1 H1 W1) as (img1 & R1 & ->).
  destruct (Hi paths2 p2 f2 H2 W2) as (img2 & R2 & ->).
  unfold file_of. rewrite <- Hsame. reflexivity.
Qed.

End Claims.

(* ===================================================================== *)
(** * The theorems at concrete inputs *)
(* ===================================================================== *)

Import Examples.

Local Open Scope Z_scope.

Lemma decodable_portrait : decodable portrait = true.
Proof. vm_compute. reflexivity. Qed.

Lemma decodable_landscape : decodable landscape = true.
Proof. vm_compute. reflexivity. Qed.

Lemma decodable_thumbnail : decodable thumbnail = true.
Proof. vm_compute. reflexivity. Qed.

Lemma decodable_strip : decodable strip = true.
Proof. vm_compute. reflexivity. Qed.

Lemma decodable_slip : decodable slip = true.
Proof. vm_compute. reflexivity. Qed.

Lemma proposed_res_thumbnail : proposed_res thumbnail = (810, 810).
Proof. vm_compute. reflexivity. Qed.

Lemma proposed_res_strip : proposed_res strip = (1440, 480).
Proof. vm_compute. reflexivity. Qed.

Lemma valid_march_first : valid_date "2024-03-01_09-30" = Ok march_first.
Proof. vm_compute. reflexivity. Qed.

Lemma processable_thumbnail path : processable (disk thumbnail) path.
Proof.
  exists thumbnail. split; [reflexivity|]. split; [exact decodable_thumbnail|].
  split; vm_compute; reflexivity.
Qed.

(** The 20 by 20 image is enlarged to 810 by 810: factor 40, flagged
    invalid. *)
Lemma plan_thumbnail :
  resize_type (disk thumbnail) ∅ "in.jpg" ig_defined_res screen_factor scale_tolerance
  = Ok (planned ∅ thumbnail 810 810).
Proof.
  destruct (AppFacts.resize_type_planned (disk thumbnail) ∅ "in.jpg" thumbnail
              eq_refl decodable_thumbnail) as (ph & pw & -> & Espec & _).
  assert (E : Pipeline.float_proposal screen_factor 1920 1080 (shape thumbnail).2 (shape thumbnail).1
              = Some (810, 810)) by (vm_compute; reflexivity).
  rewrite E in Espec. injection Espec as <- <-. reflexivity.
Qed.

(** C1's claim at its input, in both readings of "1080 by 1920": the
    planner does not propose a height of 810 and a width of 1440. *)
Lemma C1_counterexample :
  ~ (exists d,
       resize_type (disk portrait) ∅ "in.jpg" ig_defined_res screen_factor
                   scale_tolerance = Ok d /\
       get d "proposed_res" = Ok (VTuple 810 1440)) /\
  ~ (exists d,
       resize_type (disk landscape) ∅ "in.jpg" ig_defined_res screen_factor
                   scale_tolerance = Ok d /\
       get d "proposed_res" = Ok (VTuple 810 1440)).
Proof.
  split.
  - intros (d & Hplan & Hres).
    destruct (AppFacts.resize_type_planned (disk portrait) ∅ "in.jpg" portrait
                eq_refl decodable_portrait) as (ph & pw & Eplan & Espec & _).
    assert (E : Pipeline.float_proposal screen_factor 1920 1080 (shape portrait).2 (shape portrait).1
                = Some (810, 1440)) by (vm_compute; reflexivity).
    rewrite E in Espec. injection Espec as <- <-.
    rewrite Eplan in Hplan. injection Hplan as <-.
    rewrite AppFacts.planned_proposed_res in Hres. discriminate Hres.
  - intros (d & Hplan & Hres).
    destruct (AppFacts.resize_type_planned (disk landscape) ∅ "in.jpg" landscape
                eq_refl decodable_landscape) as (ph & pw & Eplan & Espec & _).
    assert (E : Pipeline.float_proposal screen_factor 1920 1080 (shape landscape).2 (shape landscape).1
                = Some (810, 455)) by (vm_compute; reflexivity).
    rewrite E in Espec. injection Espec as <- <-.
    rewrite Eplan in Hplan. injection Hplan as <-.
    rewrite AppFacts.planned_proposed_res in Hres. discriminate Hres.
Qed.

Lemma C1_portrait_geometry_witness :
  disk portrait "in.jpg" = Some portrait /\
  decodable portrait = true /\
  shape portrait = (1920, 1080) /\
  exists d d' c,
    resize_type (disk portrait) ∅ "in.jpg" ig_defined_res screen_factor
                scale_tolerance = Ok d /\
    get d "proposed_res" = Ok (VTuple 1440 810) /\
    get d "proposed_resize_dir" = Ok (VStr "shrink") /\
    add_pip_vars d = Ok d' /\
    get d' "pip_coords" = Ok (VDict c) /\
    c !! "y1" = Some 240 /\ c !! "x1" = Some 135.
Proof.
  assert (H1 : disk portrait "in.jpg" = Some portrait) by reflexivity.
  assert (H2 : decodable portrait = true) by (vm_compute; reflexivity).
  assert (H3 : shape portrait = (1920, 1080)) by (vm_compute; reflexivity).
  split; [exact H1|]. split; [exact H2|]. split; [exact H3|].
  exact (C1_portrait_geometry (disk portrait) ∅ "in.jpg" portrait H1 H2 H3).
Defined.

Lemma C2_planner_candidates_witness :
  disk thumbnail "in.jpg" = Some thumbnail /\
  decodable thumbnail = true /\
  exists d ph pw,
    resize_type (disk thumbnail) ∅ "in.jpg" ig_defined_res screen_factor
                scale_tolerance = Ok d /\
    get d "proposed_res" = Ok (VTuple ph pw) /\
    (pw = Spec.candidate_a_width Spec.screen_fit_factor ig_defined_res.2 /\
     ph <= ig_defined_res.1 /\
     (ph = Spec.candidate_a_height Spec.screen_fit_factor ig_defined_res.2
                                   (shape thumbnail).2 (shape thumbnail).1 \/
      Spec.whole (Spec.candidate_a_height_exact Spec.screen_fit_factor
                    ig_defined_res.2 (shape thumbnail).2 (shape thumbnail).1) /\
      ph = Spec.candidate_a_height Spec.screen_fit_factor ig_defined_res.2
                                   (shape thumbnail).2 (shape thumbnail).1 - 1)
     \/
     ph = Spec.candidate_b_height Spec.screen_fit_factor ig_defined_res.1 /\
     ig_defined_res.1 < Spec.candidate_a_height Spec.screen_fit_factor
                          ig_defined_res.2 (shape thumbnail).2 (shape thumbnail).1 /\
     (pw = Spec.candidate_b_width Spec.screen_fit_factor ig_defined_res.1
                                  (shape thumbnail).2 (shape thumbnail).1 \/
      Spec.whole (Spec.candidate_b_width_exact Spec.screen_fit_factor
                    ig_defined_res.1 (shape thumbnail).2 (shape thumbnail).1) /\
      pw = Spec.candidate_b_width Spec.screen_fit_factor ig_defined_res.1
                                  (shape thumbnail).2 (shape thumbnail).1 - 1)) /\
    (~ Spec.whole (Spec.candidate_a_height_exact Spec.screen_fit_factor
                     ig_defined_res.2 (shape thumbnail).2 (shape thumbnail).1) ->
     ~ Spec.whole (Spec.candidate_b_width_exact Spec.screen_fit_factor
                     ig_defined_res.1 (shape thumbnail).2 (shape thumbnail).1) ->
     (pw, ph) = Spec.proposed Spec.screen_fit_factor ig_defined_res.1
                              ig_defined_res.2 (shape thumbnail).2
                              (shape thumbnail).1).
Proof.
  assert (H1 : disk thumbnail "in.jpg" = Some thumbnail) by reflexivity.
  assert (H2 : decodable thumbnail = true) by (vm_compute; reflexivity).
  split; [exact H1|]. split; [exact H2|].
  exact (C2_planner_candidates (disk thumbnail) ∅ "in.jpg" thumbnail H1 H2).
Defined.

(** C2's claim at an image 9 wide and 11 high: the planner stores the
    height 989, where candidate A of the claim has the height
    floor(810 / (9 / 11)) = 990. *)
Lemma C2_counterexample :
  decodable slip = true /\
  shape slip = (11, 9) /\
  resize_type (disk slip) ∅ "in.jpg" ig_defined_res screen_factor scale_tolerance
  = Ok (planned ∅ slip 989 810) /\
  get (planned ∅ slip 989 810) "proposed_res" = Ok (VTuple 989 810) /\
  Spec.proposed Spec.screen_fit_factor ig_defined_res.1 ig_defined_res.2
                (shape slip).2 (shape slip).1 = (810, 990).
Proof.
  split; [exact decodable_slip|]. split; [vm_compute; reflexivity|]. split.
  - destruct (AppFacts.resize_type_planned (disk slip) ∅ "in.jpg" slip
                eq_refl decodable_slip) as (ph & pw & -> & Espec & _).
    assert (E : Pipeline.float_proposal screen_factor 1920 1080 (shape slip).2
                  (shape slip).1 = Some (810, 989)) by (vm_compute; reflexivity).
    rewrite E in Espec. injection Espec as <- <-. reflexivity.
  - split; [apply AppFacts.planned_proposed_res|vm_compute; reflexivity].
Qed.

Lemma C3_resize_factor_validity_witness :
  disk thumbnail "in.jpg" = Some thumbnail /\
  decodable thumbnail = true /\
  exists d ph pw,
    resize_type (disk thumbnail) ∅ "in.jpg" ig_defined_res screen_factor
                scale_tolerance = Ok d /\
    get d "proposed_res" = Ok (VTuple ph pw) /\
    get d "proposed_resize_factor"
      = Ok (VInt (Spec.resize_factor pw (shape thumbnail).2)) /\
    get d "proposed_resize_dir"
      = Ok (VStr match Spec.resize_direction pw (shape thumbnail).2 with
                 | Spec.Enlarge => "scale"
                 | Spec.Shrink => "shrink"
                 end) /\
    get d "resize_validity"
      = Ok match Spec.validity (Spec.resize_direction pw (shape thumbnail).2)
                   (Spec.resize_factor pw (shape thumbnail).2) scale_tolerance with
           | Some b => VBool b
           | None => VNone
           end.
Proof.
  assert (H1 : disk thumbnail "in.jpg" = Some thumbnail) by reflexivity.
  assert (H2 : decodable thumbnail = true) by (vm_compute; reflexivity).
  split; [exact H1|]. split; [exact H2|].
  exact (C3_resize_factor_validity (disk thumbnail) ∅ "in.jpg" thumbnail H1 H2).
Defined.

Lemma C4_invalid_still_written_witness :
  disk thumbnail "in.jpg" = Some thumbnail /\
  decodable thumbnail = true /\
  resize_type (disk thumbnail) ∅ "in.jpg" ig_defined_res screen_factor
              scale_tolerance = Ok (planned ∅ thumbnail 810 810) /\
  get (planned ∅ thumbnail 810 810) "resize_validity" = Ok (VBool false) /\
  exists d1 d2 file,
    add_pip_vars (planned ∅ thumbnail 810 810) = Ok d1 /\
    process_image paint_black d1 "out" march_first 0 = Ok (d2, file) /\
    iteration (disk thumbnail) paint_black ∅ "in.jpg" "out" march_first 0
      = Ok (d2, file) /\
    forall flag, exists d1' d2',
      add_pip_vars (<["resize_validity" := flag]> (planned ∅ thumbnail 810 810))
        = Ok d1' /\
      process_image paint_black d1' "out" march_first 0 = Ok (d2', file).
Proof.
  assert (H1 : disk thumbnail "in.jpg" = Some thumbnail) by reflexivity.
  assert (H2 : decodable thumbnail = true) by (vm_compute; reflexivity).
  assert (H3 : resize_type (disk thumbnail) ∅ "in.jpg" ig_defined_res screen_factor
                           scale_tolerance = Ok (planned ∅ thumbnail 810 810))
    by (vm_compute; reflexivity).
  assert (H4 : get (planned ∅ thumbnail 810 810) "resize_validity" = Ok (VBool false))
    by (vm_compute; reflexivity).
  split; [exact H1|]. split; [exact H2|]. split; [exact H3|]. split; [exact H4|].
  exact (C4_invalid_still_written (disk thumbnail) paint_black ∅ "in.jpg" thumbnail
           "out" march_first 0 (planned ∅ thumbnail 810 810) H1 H2 H3 H4).
Defined.

Lemma C5_placement_rectangle_witness :
  disk thumbnail "in.jpg" = Some thumbnail /\
  decodable thumbnail = true /\
  exists d ph pw d' c,
    resize_type (disk thumbnail) ∅ "in.jpg" ig_defined_res screen_factor
                scale_tolerance = Ok d /\
    get d "proposed_res" = Ok (VTuple ph pw) /\
    add_pip_vars d = Ok d' /\
    get d' "pip_coords" = Ok (VDict c) /\
    (c !! "y1", c !! "x1", c !! "y2", c !! "x2")
    = let '(top_, left_, bottom_, right_) :=
        Spec.placement ig_defined_res.1 ig_defined_res.2 ph pw in
      (Some top_, Some left_, Some bottom_, Some right_).
Proof.
  assert (H1 : disk thumbnail "in.jpg" = Some thumbnail) by reflexivity.
  assert (H2 : decodable thumbnail = true) by (vm_compute; reflexivity).
  split; [exact H1|]. split; [exact H2|].
  exact (C5_placement_rectangle (disk thumbnail) ∅ "in.jpg" thumbnail H1 H2).
Defined.

Lemma C6_file_names_witness :
  valid_date "2024-03-01_09-30" = Ok march_first /\
  1000 <= year march_first /\
  ["a.png"; "b.png"; "c.png"] <> [] /\
  Forall (processable (disk thumbnail)) ["a.png"; "b.png"; "c.png"] /\
  ended (main (disk thumbnail) paint_black "2024-03-01_09-30"
              ["a.png"; "b.png"; "c.png"] "out") = Completed /\
  map fst (written (main (disk thumbnail) paint_black "2024-03-01_09-30"
                         ["a.png"; "b.png"; "c.png"] "out"))
  = ["out/20240301_0930_0.jpg"; "out/20240301_0930_1.jpg";
     "out/20240301_0930_2.jpg"].
Proof.
  assert (H1 : valid_date "2024-03-01_09-30" = Ok march_first)
    by (vm_compute; reflexivity).
  assert (Hy : 1000 <= year march_first) by (cbn; lia).
  assert (H2 : ["a.png"; "b.png"; "c.png"] <> []) by discriminate.
  assert (H3 : Forall (processable (disk thumbnail)) ["a.png"; "b.png"; "c.png"])
    by (repeat constructor; apply processable_thumbnail).
  split; [exact H1|]. split; [exact Hy|]. split; [exact H2|]. split; [exact H3|].
  exact (C6_file_names (disk thumbnail) paint_black "2024-03-01_09-30" march_first
           ["a.png"; "b.png"; "c.png"] "out" H1 Hy H2 H3).
Defined.

(** C6's claim at a timestamp of the year 999: the date is accepted, the
    run completes, and the file is written under a name with the three
    digits 999 where YYYYMMDD has 0999. *)
Lemma C6_counterexample :
  valid_date "0999-01-01_00-00" = Ok new_year_999 /\
  ended (main (disk thumbnail) paint_black "0999-01-01_00-00" ["a.png"] "out")
  = Completed /\
  map fst (written (main (disk thumbnail) paint_black "0999-01-01_00-00"
                         ["a.png"] "out"))
  = ["out/9990101_0000_0.jpg"] /\
  path_join "out" (Spec.file_name new_year_999 0) = "out/09990101_0000_0.jpg".
Proof.
  assert (Hdate : valid_date "0999-01-01_00-00" = Ok new_year_999)
    by (vm_compute; reflexivity).
  assert (HF : Forall (processable (disk thumbnail)) ["a.png"])
    by (repeat constructor; apply processable_thumbnail).
  split; [exact Hdate|].
  unfold main. rewrite Hdate.
  rewrite (loop_processable (disk thumbnail) paint_black ["a.png"] ∅ "out"
             new_year_999 0%nat [] HF).
  cbn [ended written app].
  rewrite (file_names_from (disk thumbnail) paint_black ["a.png"] "out"
             new_year_999 0 HF).
  split; [reflexivity|]. split; vm_compute; reflexivity.
Qed.

Lemma C7_canvas_dimensions_witness :
  disk thumbnail "in.jpg" = Some thumbnail /\
  decodable thumbnail = true /\
  (forall d name buffer,
      iteration (disk thumbnail) paint_black ∅ "in.jpg" "out" march_first 0
      = Ok (d, (name, buffer)) ->
      shape buffer = ig_defined_res /\
      Forall (fun row => length row = 1080%nat) buffer) /\
  (0 < (proposed_res thumbnail).1 -> 0 < (proposed_res thumbnail).2 ->
   exists d name buffer,
     iteration (disk thumbnail) paint_black ∅ "in.jpg" "out" march_first 0
     = Ok (d, (name, buffer))).
Proof.
  assert (H1 : disk thumbnail "in.jpg" = Some thumbnail) by reflexivity.
  assert (H2 : decodable thumbnail = true) by (vm_compute; reflexivity).
  split; [exact H1|]. split; [exact H2|].
  exact (C7_canvas_dimensions (disk thumbnail) paint_black ∅ "in.jpg" thumbnail
           "out" march_first 0 H1 H2).
Defined.



Lemma C9_paste_inside_canvas_witness :
  disk thumbnail "in.jpg" = Some thumbnail /\
  decodable thumbnail = true /\
  exists d ph pw d' c y1 x1 y2 x2,
    resize_type (disk thumbnail) ∅ "in.jpg" ig_defined_res screen_factor
                scale_tolerance = Ok d /\
    get d "proposed_res" = Ok (VTuple ph pw) /\
    0 <= ph <= ig_defined_res.1 /\ 0 <= pw <= ig_defined_res.2 /\
    add_pip_vars d = Ok d' /\
    get d' "pip_coords" = Ok (VDict c) /\
    c !! "y1" = Some y1 /\ c !! "x1" = Some x1 /\
    c !! "y2" = Some y2 /\ c !! "x2" = Some x2 /\
    0 <= y1 /\ y1 <= y2 <= ig_defined_res.1 /\
    0 <= x1 /\ x1 <= x2 <= ig_defined_res.2.
Proof.
  assert (H1 : disk thumbnail "in.jpg" = Some thumbnail) by reflexivity.
  assert (H2 : decodable thumbnail = true) by (vm_compute; reflexivity).
  split; [exact H1|]. split; [exact H2|].
  exact (C9_paste_inside_canvas (disk thumbnail) ∅ "in.jpg" thumbnail H1 H2).
Defined.

Lemma decodable_album p img : album p = Some img -> decodable img = true.
Proof.
  unfold album.
  destruct (String.eqb p "b.png"); intros [= <-]; vm_compute; reflexivity.
Qed.

Lemma processable_album path : processable album path.
Proof.
  unfold processable, album. destruct (String.eqb path "b.png").
  - exists thumbnail. split; [reflexivity|]. split; [exact decodable_thumbnail|].
    split; vm_compute; reflexivity.
  - exists strip. split; [reflexivity|]. split; [vm_compute; reflexivity|].
    split; vm_compute; reflexivity.
Qed.

Lemma written_album date t paths out i p :
  valid_date date = Ok t -> paths !! i = Some p ->
  written (main album paint_black date paths out) !! i
  = Some (file_of album paint_black out t i p).
Proof.
  intros Hdate Hp. unfold main. rewrite Hdate.
  destruct paths as [|q rest]; [discriminate Hp|].
  rewrite (loop_processable album paint_black (q :: rest) ∅ out t 0%nat []).
  - cbn [written app]. rewrite list_lookup_imap, Hp. reflexivity.
  - apply Forall_forall. intros x _. apply processable_album.
Qed.

(** The first pass of a run over the album, from the empty dictionary. *)
Lemma album_first_pass path img :
  album path = Some img ->
  iteration album paint_black ∅ path "out" march_first 0
  = Ok (processed paint_black ∅ img (proposed_res img).1 (proposed_res img).2,
        file_of album paint_black "out" march_first 0 path).
Proof.
  intros Hread.
  rewrite (iteration_decodable album paint_black ∅ path img "out" march_first 0
             Hread (decodable_album path img Hread)).
  destruct (processable_album path) as (img' & Hread' & _ & Hh & Hw).
  rewrite Hread in Hread'. injection Hread' as <-.
  destruct (Z.ltb_spec 0 (proposed_res img).1); [|lia].
  destruct (Z.ltb_spec 0 (proposed_res img).2); [|lia].
  reflexivity.
Qed.

(** A run over the album, after its first pass: the second pass starts
    from the dictionary the first one has left. *)
Lemma album_second_pass first img rest :
  album first = Some img ->
  main album paint_black "2024-03-01_09-30" (first :: rest) "out"
  = loop album paint_black
         (processed paint_black ∅ img (proposed_res img).1 (proposed_res img).2)
         rest "out" march_first 1
         [file_of album paint_black "out" march_first 0 first].
Proof.
  intros Hread. unfold main. rewrite valid_march_first. cbn [loop].
  rewrite (album_first_pass first img Hread). reflexivity.
Qed.

Lemma processed_proposed_res d0 img ph pw :
  get (processed paint_black d0 img ph pw) "proposed_res" = Ok (VTuple ph pw).
Proof.
  unfold processed, composited.
  rewrite !AppFacts.get_insert_ne by discriminate.
  apply AppFacts.planned_proposed_res.
Qed.

(** The theorem at the second files of two runs: the runs differ in their
    first images (the thumbnail, the strip) and in their lengths, and so in
    the dictionaries their second passes start from; the second images are
    the same. *)
Lemma C10_output_independent_of_batch_witness :
  (forall p img, album p = Some img -> decodable img = true) /\
  ["b.png"; "a.png"] !! 1%nat = Some "a.png" /\
  ["c.png"; "d.png"; "b.png"] !! 1%nat = Some "d.png" /\
  album "a.png" = album "d.png" /\
  main album paint_black "2024-03-01_09-30" ["b.png"; "a.png"] "out"
  = loop album paint_black (processed paint_black ∅ thumbnail 810 810)
         ["a.png"] "out" march_first 1
         [file_of album paint_black "out" march_first 0 "b.png"] /\
  main album paint_black "2024-03-01_09-30" ["c.png"; "d.png"; "b.png"] "out"
  = loop album paint_black (processed paint_black ∅ strip 1440 480)
         ["d.png"; "b.png"] "out" march_first 1
         [file_of album paint_black "out" march_first 0 "c.png"] /\
  get (processed paint_black ∅ thumbnail 810 810) "proposed_res"
  = Ok (VTuple 810 810) /\
  get (processed paint_black ∅ strip 1440 480) "proposed_res"
  = Ok (VTuple 1440 480) /\
  written (main album paint_black "2024-03-01_09-30" ["b.png"; "a.png"] "out")
    !! 1%nat = Some (file_of album paint_black "out" march_first 1 "a.png") /\
  written (main album paint_black "2024-03-01_09-30" ["c.png"; "d.png"; "b.png"]
             "out")
    !! 1%nat = Some (file_of album paint_black "out" march_first 1 "d.png") /\
  file_of album paint_black "out" march_first 1 "a.png"
  = file_of album paint_black "out" march_first 1 "d.png".
Proof.
  assert (H0 : forall p img, album p = Some img -> decodable img = true)
    by exact decodable_album.
  assert (H1 : ["b.png"; "a.png"] !! 1%nat = Some "a.png") by reflexivity.
  assert (H2 : ["c.png"; "d.png"; "b.png"] !! 1%nat = Some "d.png") by reflexivity.
  assert (H3 : album "a.png" = album "d.png") by reflexivity.
  assert (H4 := written_album "2024-03-01_09-30" march_first ["b.png"; "a.png"]
                  "out" 1 "a.png" valid_march_first H1).
  assert (H5 := written_album "2024-03-01_09-30" march_first
                  ["c.png"; "d.png"; "b.png"] "out" 1 "d.png" valid_march_first H2).
  assert (R1 := album_second_pass "b.png" thumbnail ["a.png"] eq_refl).
  assert (R2 := album_second_pass "c.png" strip ["d.png"; "b.png"] eq_refl).
  rewrite proposed_res_thumbnail in R1. rewrite proposed_res_strip in R2.
  split; [exact H0|]. split; [exact H1|]. split; [exact H2|]. split; [exact H3|].
  split; [exact R1|]. split; [exact R2|].
  split; [apply processed_proposed_res|]. split; [apply processed_proposed_res|].
  split; [exact H4|]. split; [exact H5|].
  exact (C10_output_independent_of_batch album paint_black "2024-03-01_09-30" "out"
           ["b.png"; "a.png"] ["c.png"; "d.png"; "b.png"] 1 "a.png" "d.png"
           _ _ H0 H1 H2 H3 H4 H5).
Defined.

(* ===================================================================== *)
(** * The run, pass by pass *)
(* ===================================================================== *)

Module RunFacts.

Section Run.

Variable imread : string -> option ndarray.
Variable interp : ndarray -> Z -> Z -> nat -> nat -> pixel.

Local Open Scope Z_scope.

(** The proposed dimensions of a decodable image, read off the planner. *)
Lemma proposed_res_range img :
  decodable img = true ->
  0 <= (proposed_res img).1 <= 1920 /\ 0 <= (proposed_res img).2 <= 810.
Proof.
  intros Hdec. destruct (AppFacts.decodable_spec img Hdec) as (Hh & Hw & _).
  destruct (PlanCases.proposed_analysis _ _ Hw Hh) as (pw & ph & E & Hc & _).
  rewrite (proposed_res_eq img ph pw E). cbn [fst snd]. lia.
Qed.

(** A prefix of processable paths is processed; the loop goes on from the
    first path after it. *)
Lemma loop_app_processable l1 :
  forall l2 d out t i0 acc,
    Forall (processable imread) l1 ->
    exists d',
      loop imread interp d (l1 ++ l2) out t i0 acc
      = loop imread interp d' l2 out t (i0 + length l1)
          (acc ++ imap (fun j p => file_of imread interp out t (i0 + j) p) l1).
Proof.
  induction l1 as [|p l1 IH]; intros l2 d out t i0 acc HF.
  - exists d. cbn [app length imap]. rewrite Nat.add_0_r, app_nil_r. reflexivity.
  - apply Forall_cons in HF as [Hp HF].
    destruct (iteration_processable imread interp d p out t i0 Hp) as (d1 & Eit).
    destruct (IH l2 d1 out t (S i0) (acc ++ [file_of imread interp out t i0 p]) HF)
      as (d' & E).
    exists d'. cbn [app loop]. rewrite Eit, E. cbn [length imap].
    f_equal; [lia|]. rewrite <- app_assoc. cbn [app]. f_equal.
    rewrite Nat.add_0_r. f_equal.
    apply imap_ext. intros j q _. cbn. f_equal. lia.
Qed.

(** How the loop ends: after a number [k] of passes, with the files of the
    first [k] paths written; at the end of the list, or at a path that
    cannot be read, or at an image one of whose proposed dimensions is 0. *)
Lemma loop_outcome paths :
  forall d out t i0 acc,
    (forall p img, imread p = Some img -> decodable img = true) ->
    exists k,
      written (loop imread interp d paths out t i0 acc)
      = acc ++ imap (fun j p => file_of imread interp out t (i0 + j) p)
                    (take k paths) /\
      (k = length paths /\
       ended (loop imread interp d paths out t i0 acc) = Completed \/
       exists p,
         paths !! k = Some p /\
         (imread p = None /\
          ended (loop imread interp d paths out t i0 acc) = Uncaught AttributeError \/
          exists img,
            imread p = Some img /\
            ((proposed_res img).1 = 0 \/ (proposed_res img).2 = 0) /\
            ended (loop imread interp d paths out t i0 acc) = Uncaught Cv2Error)).
Proof.
  induction paths as [|p rest IH]; intros d out t i0 acc Hdec.
  - exists 0%nat. cbn. rewrite app_nil_r. split; [reflexivity|]. left. split; reflexivity.
  - cbn [loop]. destruct (imread p) as [img|] eqn:Hread.
    + rewrite (iteration_decodable imread interp d p img out t i0 Hread (Hdec p img Hread)).
      destruct (proposed_res_range img (Hdec p img Hread)) as [Hph Hpw].
      destruct (Z.ltb_spec 0 (proposed_res img).1) as [H1|H1];
        [destruct (Z.ltb_spec 0 (proposed_res img).2) as [H2|H2]|]; cbn [andb].
      * destruct (IH (processed interp d img (proposed_res img).1 (proposed_res img).2)
                     out t (S i0) (acc ++ [file_of imread interp out t i0 p]) Hdec)
          as (k & Ew & Hend).
        exists (S k). split.
        { rewrite Ew. cbn [take imap]. rewrite <- app_assoc. cbn [app].
          rewrite Nat.add_0_r. do 2 f_equal.
          apply imap_ext. intros j q _. cbn. f_equal. lia. }
        destruct Hend as [[-> He]|(q & Hq & He)]; [left; split; [reflexivity|exact He]|].
        right. exists q. split; [exact Hq|exact He].
      * exists 0%nat. cbn. rewrite app_nil_r. split; [reflexivity|].
        right. exists p. split; [reflexivity|]. right. exists img.
        split; [exact Hread|]. split; [right; lia|reflexivity].
      * exists 0%nat. cbn. rewrite app_nil_r. split; [reflexivity|].
        right. exists p. split; [reflexivity|]. right. exists img.
        split; [exact Hread|]. split; [left; lia|reflexivity].
    + rewrite (iteration_undecoded imread interp d p out t i0 Hread).
      exists 0%nat. cbn. rewrite app_nil_r. split; [reflexivity|].
      right. exists p. split; [reflexivity|]. left. split; [exact Hread|reflexivity].
Qed.

(** A loop that runs to the end has found every path processable. *)
Lemma loop_completed paths :
  forall d out t i0 acc,
    (forall p img, imread p = Some img -> decodable img = true) ->
    ended (loop imread interp d paths out t i0 acc) = Completed ->
    Forall (processable imread) paths.
Proof.
  induction paths as [|p rest IH]; intros d out t i0 acc Hdec; [constructor|].
  cbn [loop]. destruct (imread p) as [img|] eqn:Hread.
  - rewrite (iteration_decodable imread interp d p img out t i0 Hread (Hdec p img Hread)).
    destruct (Z.ltb_spec 0 (proposed_res img).1) as [H1|H1];
      [destruct (Z.ltb_spec 0 (proposed_res img).2) as [H2|H2]|]; cbn [andb];
      try (intros H; discriminate H).
    intros H. constructor; [|exact (IH _ _ _ _ _ Hdec H)].
    exists img. split; [exact Hread|]. split; [exact (Hdec p img Hread)|].
    split; assumption.
  - rewrite (iteration_undecoded imread interp d p out t i0 Hread).
    intros H. discriminate H.
Qed.

(** What a pass that returns has done. *)
Lemma iteration_ok d0 path img out t i d file :
  imread path = Some img -> decodable img = true ->
  iteration imread interp d0 path out t i = Ok (d, file) ->
  0 < (proposed_res img).1 <= 1920 /\ 0 < (proposed_res img).2 <= 810 /\
  d = processed interp d0 img (proposed_res img).1 (proposed_res img).2 /\
  file = output interp img (proposed_res img).1 (proposed_res img).2 out t i.
Proof.
  intros Hread Hdec.
  rewrite (iteration_decodable imread interp d0 path img out t i Hread Hdec).
  destruct (proposed_res_range img Hdec) as [Hph Hpw].
  destruct (Z.ltb_spec 0 (proposed_res img).1) as [H1|H1];
    [destruct (Z.ltb_spec 0 (proposed_res img).2) as [H2|H2]|]; cbn [andb];
    try (intros H; discriminate H).
  unfold file_of. rewrite Hread. intros [= <- <-].
  repeat split; lia.
Qed.

(** The run stops at the first path that is not processable, with the
    files of the paths before it written. *)
Lemma loop_first_failure paths k p :
  forall d out t,
    (forall q img, imread q = Some img -> decodable img = true) ->
    paths !! k = Some p ->
    Forall (processable imread) (take k paths) -> ~ processable imread p ->
    loop imread interp d paths out t 0 []
    = {| ended := Uncaught match imread p with
                           | None => AttributeError
                           | Some _ => Cv2Error
                           end;
         written := imap (fun i q => file_of imread interp out t i q)
                         (take k paths) |}.
Proof.
  intros d out t Hdec Hp HF Hnot.
  rewrite <- (take_drop_middle paths k p Hp) at 1.
  destruct (loop_app_processable (take k paths) (p :: drop (S k) paths)
              d out t 0%nat [] HF) as (d' & ->).
  cbn [loop app Nat.add]. destruct (imread p) as [img|] eqn:Hread.
  - rewrite (iteration_decodable imread interp d' p img out t _ Hread (Hdec p img Hread)).
    destruct (Z.ltb_spec 0 (proposed_res img).1) as [H1|H1];
      [destruct (Z.ltb_spec 0 (proposed_res img).2) as [H2|H2]|]; cbn [andb];
      try reflexivity.
    exfalso. apply Hnot. exists img.
    split; [exact Hread|]. split; [exact (Hdec p img Hread)|]. split; assumption.
  - rewrite (iteration_undecoded imread interp d' p out t _ Hread). reflexivity.
Qed.

End Run.

End RunFacts.

(* ===================================================================== *)
(** * The pixels of the buffer *)
(* ===================================================================== *)

Module PictureFacts.

Import Picture.

Local Open Scope Z_scope.

Lemma lookup_map {A B} (f : A -> B) l i : map f l !! i = f <$> l !! i.
Proof.
  revert i. induction l as [|a l IH]; intros [|i]; cbn; try reflexivity. apply IH.
Qed.

Lemma pixel_at_tabulate h w f y x :
  (y < h)%nat -> (x < w)%nat -> pixel_at (tabulate h w f) y x = Some (f y x).
Proof.
  intros Hy Hx. unfold pixel_at, tabulate, ndarray.
  rewrite lookup_map, lookup_seq_lt by lia.
  cbn [fmap option_fmap option_map mbind option_bind].
  rewrite lookup_map, lookup_seq_lt by lia. reflexivity.
Qed.

Lemma lookup_gray_row n x :
  (x < n)%nat -> replicate n gray !! x = Some gray.
Proof. intros H. apply lookup_replicate_2. exact H. Qed.

(** A row of the canvas with [vrow] pasted from column [l]. *)
Lemma lookup_pasted_row (vrow : list pixel) l w x :
  length vrow = w -> (l + w <= 1080)%nat -> (x < 1080)%nat ->
  (take l (replicate 1080 gray) ++ vrow ++ drop (l + w) (replicate 1080 gray)) !! x
  = if ((l <=? x) && (x <? l + w))%nat then vrow !! (x - l)%nat else Some gray.
Proof.
  intros Hlen Hl Hx.
  rewrite take_replicate, drop_replicate, Nat.min_l by lia.
  destruct (Nat.leb_spec l x) as [H1|H1]; cbn [andb].
  - rewrite lookup_app_r by (rewrite length_replicate; lia).
    rewrite length_replicate.
    destruct (Nat.ltb_spec x (l + w)) as [H2|H2].
    + rewrite lookup_app_l by lia. reflexivity.
    + rewrite lookup_app_r by lia. apply lookup_gray_row. lia.
  - rewrite lookup_app_l by (rewrite length_replicate; lia).
    apply lookup_gray_row. lia.
Qed.

Section Buffer.

Variable interp : ndarray -> Z -> Z -> nat -> nat -> pixel.

(** The buffer, pixel by pixel: the resized image inside the placement
    rectangle, the fill of the canvas outside. *)
Lemma pixel_at_rendered img ph pw y x :
  0 <= ph <= 1920 -> 0 <= pw <= 1080 -> 0 <= y < 1920 -> 0 <= x < 1080 ->
  pixel_at (rendered interp img ph pw) (Z.to_nat y) (Z.to_nat x)
  = if (top ph <=? y) && (y <? top ph + ph) && (left pw <=? x) && (x <? left pw + pw)
    then Some (interp img ph pw (Z.to_nat (y - top ph)) (Z.to_nat (x - left pw)))
    else Some gray.
Proof.
  intros Hph Hpw Hy Hx.
  assert (Htop : 0 <= top ph /\ top ph + ph <= 1920)
    by (unfold top; Z.div_mod_to_equations; lia).
  assert (Hleft : 0 <= left pw /\ left pw + pw <= 1080)
    by (unfold left; Z.div_mod_to_equations; lia).
  unfold pixel_at, rendered, gray_canvas, ndarray.
  change (128, 128, 128) with gray.
  change (Z.to_nat 1920) with 1920%nat. change (Z.to_nat 1080) with 1080%nat.
  rewrite !drop_replicate, !take_replicate.
  rewrite (Nat.min_l (Z.to_nat (top ph))), (Nat.min_l (Z.to_nat ph)) by lia.
  destruct (Z.leb_spec (top ph) y) as [H1|H1]; cbn [andb].
  - rewrite lookup_app_r by (rewrite length_replicate; lia).
    rewrite length_replicate.
    destruct (Z.ltb_spec y (top ph + ph)) as [H2|H2]; cbn [andb].
    + rewrite lookup_app_l
        by (rewrite length_zip_with, length_replicate, AppFacts.length_tabulate; lia).
      rewrite lookup_zip_with, lookup_replicate_2 by lia. cbn [mbind option_bind].
      unfold tabulate. rewrite lookup_map, lookup_seq_lt by lia.
      cbn [fmap option_fmap option_map mbind option_bind].
      replace (Z.to_nat (left pw + pw)) with (Z.to_nat (left pw) + Z.to_nat pw)%nat
        by lia.
      rewrite lookup_pasted_row by (rewrite ?length_map, ?length_seq; lia).
      destruct (Z.leb_spec (left pw) x) as [H3|H3];
        destruct (Z.ltb_spec x (left pw + pw)) as [H4|H4]; cbn [andb].
      * destruct (Nat.leb_spec (Z.to_nat (left pw)) (Z.to_nat x)); [|lia].
        destruct (Nat.ltb_spec (Z.to_nat x) (Z.to_nat (left pw) + Z.to_nat pw)); [|lia].
        cbn [andb]. rewrite lookup_map, lookup_seq_lt by lia. cbn.
        do 2 f_equal; lia.
      * destruct (Nat.ltb_spec (Z.to_nat x) (Z.to_nat (left pw) + Z.to_nat pw)); [lia|].
        rewrite andb_false_r. reflexivity.
      * destruct (Nat.leb_spec (Z.to_nat (left pw)) (Z.to_nat x)); [lia|]. reflexivity.
      * destruct (Nat.leb_spec (Z.to_nat (left pw)) (Z.to_nat x)); [lia|]. reflexivity.
    + rewrite lookup_app_r
        by (rewrite length_zip_with, length_replicate, AppFacts.length_tabulate; lia).
      rewrite length_zip_with, length_replicate, AppFacts.length_tabulate.
      rewrite lookup_replicate_2 by lia. cbn [mbind option_bind].
      apply lookup_gray_row. lia.
  - rewrite lookup_app_l by (rewrite length_replicate; lia).
    rewrite lookup_replicate_2 by lia. cbn [mbind option_bind].
    apply lookup_gray_row. lia.
Qed.

(** The keys of the dictionary after a pass: the ones the stages assign
    are there, every other key is as it was. *)
Lemma processed_frame d0 img ph pw k :
  k ∉ pass_keys -> processed interp d0 img ph pw !! k = d0 !! k.
Proof.
  unfold pass_keys. intros Hk.
  repeat (apply not_elem_of_cons in Hk as [? Hk]).
  unfold processed, composited, planned.
  rewrite !lookup_insert_ne by (apply not_eq_sym; assumption). reflexivity.
Qed.

Lemma processed_keys d0 img ph pw k :
  k ∈ pass_keys -> is_Some (processed interp d0 img ph pw !! k).
Proof.
  unfold pass_keys. intros Hk.
  repeat (apply elem_of_cons in Hk as [->|Hk]); [..|inversion Hk];
    unfold processed, composited, planned;
    repeat (rewrite lookup_insert_ne by discriminate);
    rewrite lookup_insert_eq; eexists; reflexivity.
Qed.

End Buffer.

End PictureFacts.

(* ===================================================================== *)
(** * The names of the files *)
(* ===================================================================== *)

Module NameFacts.

Import AppFacts.

Lemma length_append (a b : string) :
  String.length (a +:+ b) = (String.length a + String.length b)%nat.
Proof.
  induction a as [|c a IH]; [reflexivity|]. simpl. rewrite IH. reflexivity.
Qed.

Lemma append_cancel_l (p a b : string) : p +:+ a = p +:+ b -> a = b.
Proof.
  induction p as [|c p IH]; cbn; [trivial|]. intros [= H]. exact (IH H).
Qed.

Lemma append_cancel_r (s a : string) : forall b, a +:+ s = b +:+ s -> a = b.
Proof.
  induction a as [|c a IH]; intros [|c' b] H.
  - reflexivity.
  - apply (f_equal String.length) in H.
    change (EmptyString +:+ s) with s in H.
    rewrite (length_append (String c' b) s) in H. simpl in H. lia.
  - apply (f_equal String.length) in H.
    change (EmptyString +:+ s) with s in H.
    rewrite (length_append (String c a) s) in H. simpl in H. lia.
  - change (String c (a +:+ s) = String c' (b +:+ s)) in H.
    injection H as -> H. f_equal. exact (IH b H).
Qed.

(** The name of a file is a stem the timestamp fixes, the index, and the
    extension; the stem is not empty. *)
Lemma file_name_split t :
  exists c stem, forall i,
    dest_name t i = String c (stem +:+ pretty i +:+ ".jpg").
Proof.
  destruct (year_text (year t) +:+ zpad 2 (month t) +:+ zpad 2 (day t) +:+ "_"
            +:+ zpad 2 (hour t) +:+ zpad 2 (minute t) +:+ "_") as [|c stem] eqn:E.
  - apply (f_equal String.length) in E. rewrite !length_append in E.
    simpl in E. lia.
  - exists c, stem. intros i.
    change (String c (stem +:+ pretty i +:+ ".jpg"))
      with (String c stem +:+ pretty i +:+ ".jpg").
    rewrite <- E, !append_assoc. reflexivity.
Qed.

(** [os.path.join] puts the same text in front of every name that starts
    with the same character. *)
Lemma path_join_prefix out c :
  exists pre, forall s, path_join out (String c s) = pre +:+ String c s.
Proof.
  unfold path_join.
  destruct (last (list_ascii_of_string out)) as [l|];
    [destruct (Ascii.eqb l "/")|];
    destruct c as [[] [] [] [] [] [] [] []];
    first [ exists EmptyString; intros s; reflexivity
          | exists out; intros s; reflexivity
          | exists (out +:+ "/"); intros s; rewrite append_assoc; reflexivity ].
Qed.

(** Two indices that give the same destination are the same index. *)
Lemma file_dest_inj out t i j :
  path_join out (dest_name t i) = path_join out (dest_name t j) -> i = j.
Proof.
  destruct (file_name_split t) as (c & stem & E).
  destruct (path_join_prefix out c) as (pre & Ep).
  rewrite !E, !Ep. intros H.
  apply append_cancel_l in H. injection H as H.
  apply append_cancel_l, append_cancel_r in H.
  exact (pretty_nat_inj _ _ H).
Qed.

Section Names.

Variable imread : string -> option ndarray.
Variable interp : ndarray -> Z -> Z -> nat -> nat -> pixel.

Ltac step_bind :=
  match goal with
  | |- mbind _ ?m = _ -> _ =>
      destruct m; cbn [mbind result_bind]; [|intros H; discriminate H]
  end.

(** The destination of the writer is made of the output directory, the
    timestamp and the index only. *)
Lemma process_image_name d out t i d' name buffer :
  process_image interp d out t i = Ok (d', (name, buffer)) ->
  name = path_join out (dest_name t i).
Proof.
  unfold process_image. rewrite strftime_date, strftime_time.
  repeat step_bind. rewrite file_dest_eq. intros [= _ <- _]. reflexivity.
Qed.

Lemma iteration_name d out t i path d' name buffer :
  iteration imread interp d path out t i = Ok (d', (name, buffer)) ->
  name = path_join out (dest_name t i).
Proof.
  unfold iteration. repeat step_bind. apply process_image_name.
Qed.

(** The names of the files a loop writes after the ones of [acc]: one per
    pass, with the indices from [i0] on. *)
Lemma loop_names paths :
  forall d out t i0 acc,
    exists k,
      map fst (written (loop imread interp d paths out t i0 acc))
      = map fst acc
        ++ map (fun i => path_join out (dest_name t i)) (seq i0 k).
Proof.
  induction paths as [|p rest IH]; intros d out t i0 acc; cbn [loop].
  - exists 0%nat. cbn. rewrite app_nil_r. reflexivity.
  - destruct (iteration imread interp d p out t i0) as [[d1 [name buffer]]|e] eqn:Eit.
    + destruct (IH d1 out t (S i0) (acc ++ [(name, buffer)])) as (k & E).
      exists (S k). rewrite E, map_app, <- app_assoc. cbn.
      rewrite (iteration_name _ _ _ _ _ _ _ _ Eit). reflexivity.
    + exists 0%nat. cbn. rewrite app_nil_r. reflexivity.
Qed.

End Names.

End NameFacts.

(* ===================================================================== *)
(** * The length of an accepted date; the digits in the file names *)
(* ===================================================================== *)

Module DateTextFacts.

Import DateFormat DateText DateFacts.

Local Open Scope Z_scope.




(** ** The digits [strftime] writes *)

Lemma digit_chars_spec c : is_digit c = true -> In c digit_chars.
Proof. exact (is_digit_cases c). Qed.

Lemma two_digits_all :
  forallb (fun a => forallb (two_digits_kept a) digit_chars) digit_chars = true.
Proof. vm_compute. reflexivity. Qed.

Lemma four_digits_all :
  forallb (fun a => forallb (fun b => forallb (fun c =>
    forallb (four_digits_kept a b c) digit_chars) digit_chars) digit_chars)
    digit_chars = true.
Proof. vm_compute. reflexivity. Qed.

Lemma zpad_two_digits a b :
  is_digit a = true -> is_digit b = true ->
  zpad 2 (digits_value 0 [a; b]) = string_of_list_ascii [a; b].
Proof.
  intros Ha Hb. apply digit_chars_spec in Ha, Hb.
  pose proof two_digits_all as H.
  rewrite forallb_forall in H. specialize (H a Ha).
  rewrite forallb_forall in H. specialize (H b Hb).
  apply String.eqb_eq. exact H.
Qed.

Lemma year_four_digits a b c d :
  is_digit a = true -> is_digit b = true -> is_digit c = true ->
  is_digit d = true -> 1000 <= digits_value 0 [a; b; c; d] ->
  year_text (digits_value 0 [a; b; c; d]) = string_of_list_ascii [a; b; c; d].
Proof.
  intros Ha Hb Hc Hd Hy. apply digit_chars_spec in Ha, Hb, Hc, Hd.
  pose proof four_digits_all as H.
  rewrite forallb_forall in H. specialize (H a Ha).
  rewrite forallb_forall in H. specialize (H b Hb).
  rewrite forallb_forall in H. specialize (H c Hc).
  rewrite forallb_forall in H. specialize (H d Hd).
  unfold four_digits_kept in H. apply orb_true_iff in H as [H|H].
  - apply Z.ltb_lt in H. lia.
  - apply String.eqb_eq. exact H.
Qed.

(** The name of a file, from the text of a date of the pattern whose year
    has four significant digits. *)
Lemma file_name_stamp s i :
  Spec.matches_pattern s = true -> 1000 <= year (Spec.fields s) ->
  dest_name (Spec.fields s) i = stamp s +:+ "_" +:+ pretty i +:+ ".jpg".
Proof.
  unfold Spec.matches_pattern, Spec.fields, stamp, dest_name.
  destruct (list_ascii_of_string s)
    as [|y1 [|y2 [|y3 [|y4 [|s1 [|m1 [|m2 [|s2 [|d1 [|d2 [|s3 [|h1 [|h2
        [|s4 [|n1 [|n2 [|x l]]]]]]]]]]]]]]]]]; try discriminate.
  cbn [forallb year month day hour minute]. rewrite !andb_true_iff.
  intros [[[[(Hy1 & Hy2 & Hy3 & Hy4 & Hm1 & Hm2 & Hd1 & Hd2 & Hh1 & Hh2 & Hn1 & Hn2 & _)
              _] _] _] _] Hyear.
  rewrite (year_four_digits y1 y2 y3 y4), !zpad_two_digits by assumption.
  reflexivity.
Qed.

End DateTextFacts.

(* ===================================================================== *)
(** * Further properties of the script *)
(* ===================================================================== *)

Section Further.

Import AppFacts Picture DateText.

Variable imread : string -> option ndarray.
Variable interp : ndarray -> Z -> Z -> nat -> nat -> pixel.

Local Open Scope Z_scope.

Local Abbreviation plan d path :=
  (resize_type imread d path ig_defined_res screen_factor scale_tolerance).

(* --------------------------------------------------------------------- *)
(** ** The planner *)

(** X1: The proposal keeps the proportions of the image to within one pixel.
    Either the proposed width is 810 (three quarters of the canvas width)
    and the proposed height, at most the full 1920 of the canvas, is the
    exact 810 * height / width rounded down, or one less when that is a
    whole number; or the proposed height is 1440 and the proposed width, at
    most 720, is the exact 1440 * width / height rounded down, or one less
    when that is a whole number. The second case arises only when the exact
    height of the first is 1921 or more. *)
Theorem proposal_keeps_proportion d0 path img :
  imread path = Some img -> decodable img = true ->
  exists d ph pw,
    plan d0 path = Ok d /\
    get d "proposed_res" = Ok (VTuple ph pw) /\
    (pw = 810 /\ 0 <= ph <= 1920 /\
     (shape img).2 * ph <= 810 * (shape img).1 <= (shape img).2 * (ph + 1) \/
     ph = 1440 /\ 0 <= pw <= 720 /\
     (shape img).1 * pw <= 1440 * (shape img).2 <= (shape img).1 * (pw + 1) /\
     1921 * (shape img).2 <= 810 * (shape img).1).
Proof.
  intros Hread Hdec.
  destruct (resize_type_planned imread d0 path img Hread Hdec)
    as (ph & pw & Eplan & Espec & _).
  destruct (decodable_spec img Hdec) as (Hh & Hw & _).
  destruct (PlanExact.proposed_exact _ _ Hw Hh) as (pw' & ph' & E & Hc).
  rewrite E in Espec. injection Espec as -> ->.
  exists (planned d0 img ph pw), ph, pw.
  split; [exact Eplan|]. split; [apply planned_proposed_res|exact Hc].
Qed.

(** X2: For an image whose exact first candidate fits the canvas (810 *
    height <= 1920 * width) the direction and the validity flag depend on
    the natural width alone: from 810 pixels on the image is shrunk and the
    flag is None; below 810 it is enlarged, by the factor floor(810 /
    width), and the flag is True exactly when the width is more than 270
    pixels. *)
Theorem validity_by_width d0 path img :
  imread path = Some img -> decodable img = true ->
  810 * (shape img).1 <= 1920 * (shape img).2 ->
  exists d,
    plan d0 path = Ok d /\
    get d "proposed_resize_dir"
      = Ok (VStr (if 810 <=? (shape img).2 then "shrink" else "scale")) /\
    get d "proposed_resize_factor" = Ok (VInt (810 / (shape img).2)) /\
    get d "resize_validity"
      = Ok (if 810 <=? (shape img).2 then VNone
            else VBool (270 <? (shape img).2)).
Proof.
  intros Hread Hdec Hratio.
  destruct (resize_type_planned imread d0 path img Hread Hdec)
    as (ph & pw & Eplan & Espec & _).
  destruct (decodable_spec img Hdec) as (Hh & Hw & _).
  destruct (PlanExact.proposed_positive _ _ Hw Hh)
    as (pw' & ph' & E & _ & _ & _ & Hfirst).
  rewrite E in Espec. injection Espec as -> ->.
  rewrite (Hfirst Hratio) in Eplan.
  exists (planned d0 img ph 810). split; [exact Eplan|].
  unfold planned. repeat split; dict; try reflexivity.
  destruct (810 <=? (shape img).2); [reflexivity|].
  do 2 f_equal. clear interp Eplan E Hfirst.
  destruct (Z.leb_spec (810 / (shape img).2) 2) as [Hq|Hq];
    destruct (Z.ltb_spec 270 (shape img).2) as [Hn|Hn]; try reflexivity; exfalso.
  - pose proof (Z.div_le_lower_bound 810 (shape img).2 3 ltac:(lia) ltac:(lia)). lia.
  - pose proof (Z.div_lt_upper_bound 810 (shape img).2 3 ltac:(lia) ltac:(lia)). lia.
Qed.

(* --------------------------------------------------------------------- *)
(** ** Which images a pass can write *)

(** X3: An image whose width is at most 810 times its height and whose
    height is less than 1440 times its width is always written: the pass
    raises nothing and hands one file to cv2.imwrite, under the name of its
    index. *)
Theorem moderate_ratio_written d0 path img out t i :
  imread path = Some img -> decodable img = true ->
  (shape img).2 <= 810 * (shape img).1 ->
  (shape img).1 < 1440 * (shape img).2 ->
  exists d buffer,
    iteration imread interp d0 path out t i
    = Ok (d, (path_join out (dest_name t i), buffer)).
Proof.
  intros Hread Hdec Hflat Htall.
  destruct (decodable_spec img Hdec) as (Hh & Hw & _).
  destruct (PlanExact.proposed_positive _ _ Hw Hh) as (pw & ph & E & Hpos & _).
  destruct (Hpos Hflat Htall) as [Hph Hpw].
  rewrite (iteration_decodable imread interp d0 path img out t i Hread Hdec).
  rewrite (proposed_res_eq img ph pw E). cbn [fst snd].
  destruct (Z.ltb_spec 0 ph); [|lia]. destruct (Z.ltb_spec 0 pw); [|lia].
  cbn [andb]. unfold file_of. rewrite Hread. unfold output.
  eexists _, _. reflexivity.
Qed.

(** X4: An image more than 810 times as wide as high, or more than 1440
    times as high as wide, is never written: one of its proposed dimensions
    is 0 and the pass ends in the cv2.error of cv2.resize. *)
Theorem extreme_ratio_raises d0 path img out t i :
  imread path = Some img -> decodable img = true ->
  810 * (shape img).1 < (shape img).2 \/ 1440 * (shape img).2 < (shape img).1 ->
  iteration imread interp d0 path out t i = Raise Cv2Error.
Proof.
  intros Hread Hdec Hextreme.
  destruct (decodable_spec img Hdec) as (Hh & Hw & _).
  destruct (PlanExact.proposed_positive _ _ Hw Hh)
    as (pw & ph & E & _ & Hflat & Hthin & _).
  rewrite (iteration_decodable imread interp d0 path img out t i Hread Hdec).
  rewrite (proposed_res_eq img ph pw E). cbn [fst snd].
  destruct Hextreme as [H|H].
  - rewrite (Hflat H). reflexivity.
  - rewrite (Hthin H). change (0 <? 0) with false.
    rewrite andb_false_r. reflexivity.
Qed.

(* --------------------------------------------------------------------- *)
(** ** The compositor *)

(** X5: The rectangle the compositor stores has the proposed dimensions and
    is centred: the margin below it is the margin above it or one pixel
    more, the margin on its right is the margin on its left or one pixel
    more, and the margin on the left is at least 135 pixels. *)
Theorem placement_centred d0 path img :
  imread path = Some img -> decodable img = true ->
  exists d ph pw d' c y1 x1 y2 x2,
    plan d0 path = Ok d /\
    get d "proposed_res" = Ok (VTuple ph pw) /\
    add_pip_vars d = Ok d' /\
    get d' "pip_coords" = Ok (VDict c) /\
    c !! "y1" = Some y1 /\ c !! "x1" = Some x1 /\
    c !! "y2" = Some y2 /\ c !! "x2" = Some x2 /\
    y2 - y1 = ph /\ x2 - x1 = pw /\
    0 <= (1920 - y2) - y1 <= 1 /\
    0 <= (1080 - x2) - x1 <= 1 /\
    135 <= x1.
Proof.
  intros Hread Hdec.
  destruct (resize_type_planned imread d0 path img Hread Hdec)
    as (ph & pw & Eplan & _ & Hph & Hpw & _ & Hpw1).
  exists (planned d0 img ph pw), ph, pw,
         (composited (planned d0 img ph pw) ph pw), (pip_coords ph pw),
         (top ph), (left pw), (top ph + ph), (left pw + pw).
  split; [exact Eplan|]. split; [apply planned_proposed_res|]. split.
  { apply add_pip_vars_composited;
      [apply planned_defined_res|apply planned_proposed_res|lia|lia]. }
  split; [unfold composited; dict; reflexivity|].
  repeat (split; [reflexivity|]).
  unfold top, left. clear interp Eplan.
  repeat split; Z.div_mod_to_equations; lia.
Qed.

(* --------------------------------------------------------------------- *)
(** ** The writer *)

(** X6: The writer pastes into the canvas of the dictionary itself, not into
    a copy: after a pass img_vars['canvas'] is the very buffer that was
    written, paste included, and img_vars['img_obj'] is still the image as
    it was read. *)
Theorem canvas_is_written_buffer d0 path img out t i d name buffer :
  imread path = Some img -> decodable img = true ->
  iteration imread interp d0 path out t i = Ok (d, (name, buffer)) ->
  get d "canvas" = Ok (VArray buffer) /\
  get d "img_obj" = Ok (VArray img).
Proof.
  intros Hread Hdec Hit.
  destruct (RunFacts.iteration_ok imread interp d0 path img out t i d _ Hread Hdec Hit)
    as (_ & _ & -> & Hfile).
  unfold output in Hfile. injection Hfile as _ ->.
  unfold processed, composited. split; dict; [reflexivity|apply planned_img_obj].
Qed.

(** X7: A pass leaves every key of img_vars it does not assign as it was,
    and every one of the twelve keys the three stages assign is present
    after it. *)
Theorem pass_frame d0 path img out t i d file :
  imread path = Some img -> decodable img = true ->
  iteration imread interp d0 path out t i = Ok (d, file) ->
  (forall k, k ∉ pass_keys -> d !! k = d0 !! k) /\
  (forall k, k ∈ pass_keys -> is_Some (d !! k)).
Proof.
  intros Hread Hdec Hit.
  destruct (RunFacts.iteration_ok imread interp d0 path img out t i d _ Hread Hdec Hit)
    as (_ & _ & -> & _).
  split; intros k Hk.
  - apply PictureFacts.processed_frame. exact Hk.
  - apply PictureFacts.processed_keys. exact Hk.
Qed.

(** X8: The buffer that is written, pixel by pixel: inside the placement
    rectangle it holds the resized image, from its first row and column on;
    everywhere else it holds the gray (128, 128, 128) of the canvas. *)
Theorem written_pixels d0 path img out t i d name buffer :
  imread path = Some img -> decodable img = true ->
  iteration imread interp d0 path out t i = Ok (d, (name, buffer)) ->
  exists ph pw,
    get d "proposed_res" = Ok (VTuple ph pw) /\
    forall y x, 0 <= y < 1920 -> 0 <= x < 1080 ->
      pixel_at buffer (Z.to_nat y) (Z.to_nat x)
      = if (top ph <=? y) && (y <? top ph + ph)
           && (left pw <=? x) && (x <? left pw + pw)
        then Some (interp img ph pw (Z.to_nat (y - top ph)) (Z.to_nat (x - left pw)))
        else Some gray.
Proof.
  intros Hread Hdec Hit.
  destruct (RunFacts.iteration_ok imread interp d0 path img out t i d _ Hread Hdec Hit)
    as (Hph & Hpw & -> & Hfile).
  unfold output in Hfile. injection Hfile as _ ->.
  exists (proposed_res img).1, (proposed_res img).2. split.
  { unfold processed, composited. dict. apply planned_proposed_res. }
  intros y x Hy Hx. apply PictureFacts.pixel_at_rendered; lia.
Qed.

(* --------------------------------------------------------------------- *)
(** ** The run *)

(** X9: How a run on an accepted date and at least one path ends, when
    cv2.imread gives decodable images only: it writes the files of the first
    k paths, in order, and then either it has reached the end of the list
    and completes, or the next path cannot be read and the run dies with
    AttributeError, or one proposed dimension of the next image is 0 and the
    run dies with cv2.error. No other exception ends a run. *)
Theorem run_outcomes date t paths out :
  (forall p img, imread p = Some img -> decodable img = true) ->
  valid_date date = Ok t -> paths <> [] ->
  exists k,
    written (main imread interp date paths out)
    = imap (fun i p => file_of imread interp out t i p) (take k paths) /\
    (k = length paths /\
     ended (main imread interp date paths out) = Completed \/
     exists p,
       paths !! k = Some p /\
       (imread p = None /\
        ended (main imread interp date paths out) = Uncaught AttributeError \/
        exists img,
          imread p = Some img /\
          ((proposed_res img).1 = 0 \/ (proposed_res img).2 = 0) /\
          ended (main imread interp date paths out) = Uncaught Cv2Error)).
Proof.
  intros Hdec Hdate Hne. unfold main. rewrite Hdate.
  destruct paths as [|p rest]; [congruence|].
  exact (RunFacts.loop_outcome imread interp (p :: rest) ∅ out t 0%nat [] Hdec).
Qed.

(** X10: A run stops at the first path that is not processable: the files of
    the paths before it are written and stay, no later path is looked at,
    and the exception is AttributeError when the path cannot be read and
    cv2.error when it can. *)
Theorem run_stops_at_first_failure date t paths out k p :
  (forall q img, imread q = Some img -> decodable img = true) ->
  valid_date date = Ok t -> paths !! k = Some p ->
  Forall (processable imread) (take k paths) -> ~ processable imread p ->
  main imread interp date paths out
  = {| ended := Uncaught match imread p with
                         | None => AttributeError
                         | Some _ => Cv2Error
                         end;
       written := imap (fun i q => file_of imread interp out t i q)
                       (take k paths) |}.
Proof.
  intros Hdec Hdate Hp HF Hnot. unfold main. rewrite Hdate.
  destruct paths as [|q rest]; [discriminate Hp|].
  exact (RunFacts.loop_first_failure imread interp (q :: rest) k p ∅ out t
           Hdec Hp HF Hnot).
Qed.

(** X11: A run completes exactly when the date is accepted, at least one
    path is given and every path is processable. *)
Theorem run_completes_iff date paths out :
  (forall p img, imread p = Some img -> decodable img = true) ->
  ended (main imread interp date paths out) = Completed <->
  (exists t, valid_date date = Ok t) /\ paths <> [] /\
  Forall (processable imread) paths.
Proof.
  intros Hdec. unfold main. split.
  - destruct (valid_date date) as [t|e].
    + destruct paths as [|p rest].
      * rewrite DateFacts.parser_error_uncaught. intros H. discriminate H.
      * intros H. split; [exists t; reflexivity|]. split; [discriminate|].
        exact (RunFacts.loop_completed imread interp (p :: rest) ∅ out t 0%nat []
                 Hdec H).
    + rewrite DateFacts.parser_error_uncaught. intros H. discriminate H.
  - intros ((t & ->) & Hne & HF). destruct paths as [|p rest]; [congruence|].
    rewrite (loop_processable imread interp (p :: rest) ∅ out t 0%nat [] HF).
    reflexivity.
Qed.

(** X12: No two files of one run have the same destination: a run never
    overwrites a file it has written. *)
Theorem file_names_distinct date paths out :
  NoDup (map fst (written (main imread interp date paths out))).
Proof.
  unfold main. destruct (valid_date date) as [t|e]; [|constructor].
  destruct paths as [|p rest]; [constructor|].
  destruct (NameFacts.loop_names imread interp (p :: rest) ∅ out t 0%nat [])
    as (k & ->).
  cbn [map app].
  change (NoDup ((fun i => path_join out (dest_name t i)) <$> seq 0 k)).
  apply NoDup_fmap_2; [|apply NoDup_seq].
  intros i j. apply NameFacts.file_dest_inj.
Qed.

(* --------------------------------------------------------------------- *)
(** ** The date argument *)


(** X14: The names of the files carry the digits of the argument: for an
    execution_date of the pattern YYYY-MM-DD_HH-MM with a year from 1000 on,
    the file written at index i goes to YYYYMMDD_HHMM_i.jpg in the output
    directory, with the digits as they were typed. *)
Theorem names_carry_date_digits date paths out i name buffer :
  Spec.matches_pattern date = true -> 1000 <= year (Spec.fields date) ->
  written (main imread interp date paths out) !! i = Some (name, buffer) ->
  name = path_join out (stamp date +:+ "_" +:+ pretty i +:+ ".jpg").
Proof.
  intros Hshape Hyear. unfold main.
  rewrite (DateFacts.valid_date_shape date Hshape).
  destruct (valid_datetime (Spec.fields date)); [|intros H; discriminate H].
  destruct paths as [|p rest]; [intros H; discriminate H|].
  intros H.
  apply loop_written in H as [H|(q & d' & d'' & _ & _ & Hit)]; [discriminate H|].
  cbn [length] in Hit. rewrite Nat.sub_0_r in Hit. cbn [Nat.add] in Hit.
  rewrite (NameFacts.iteration_name imread interp _ _ _ _ _ _ _ _ Hit).
  rewrite (DateTextFacts.file_name_stamp date i Hshape Hyear). reflexivity.
Qed.

End Further.

(* ===================================================================== *)
(** * The further properties at concrete inputs *)
(* ===================================================================== *)

Import Picture DateText MoreExamples.

Local Open Scope Z_scope.

Lemma decodable_ribbon : decodable ribbon = true.
Proof. vm_compute. reflexivity. Qed.

Lemma decodable_shelf p img : shelf p = Some img -> decodable img = true.
Proof.
  unfold shelf. destruct (String.eqb p "gone.png"); [discriminate|].
  destruct (String.eqb p "a.png"); intros [= <-]; vm_compute; reflexivity.
Qed.

(** One pass on the thumbnail, from the empty dictionary. *)
Lemma iteration_thumbnail :
  iteration (disk thumbnail) paint_black ∅ "in.jpg" "out" march_first 0
  = Ok (processed paint_black ∅ thumbnail 810 810,
        (path_join "out" (dest_name march_first 0),
         rendered paint_black thumbnail 810 810)).
Proof.
  rewrite (iteration_decodable (disk thumbnail) paint_black ∅ "in.jpg" thumbnail
             "out" march_first 0 eq_refl decodable_thumbnail).
  unfold file_of, disk. cbv beta iota. rewrite proposed_res_thumbnail. reflexivity.
Qed.

Lemma proposal_keeps_proportion_witness :
  disk strip "in.jpg" = Some strip /\
  decodable strip = true /\
  exists d ph pw,
    resize_type (disk strip) ∅ "in.jpg" ig_defined_res screen_factor
                scale_tolerance = Ok d /\
    get d "proposed_res" = Ok (VTuple ph pw) /\
    (pw = 810 /\ 0 <= ph <= 1920 /\
     (shape strip).2 * ph <= 810 * (shape strip).1 <= (shape strip).2 * (ph + 1) \/
     ph = 1440 /\ 0 <= pw <= 720 /\
     (shape strip).1 * pw <= 1440 * (shape strip).2 <= (shape strip).1 * (pw + 1) /\
     1921 * (shape strip).2 <= 810 * (shape strip).1).
Proof.
  assert (H1 : disk strip "in.jpg" = Some strip) by reflexivity.
  assert (H2 : decodable strip = true) by (vm_compute; reflexivity).
  split; [exact H1|]. split; [exact H2|].
  exact (proposal_keeps_proportion (disk strip) ∅ "in.jpg" strip H1 H2).
Defined.

Lemma validity_by_width_witness :
  disk thumbnail "in.jpg" = Some thumbnail /\
  decodable thumbnail = true /\
  810 * (shape thumbnail).1 <= 1920 * (shape thumbnail).2 /\
  exists d,
    resize_type (disk thumbnail) ∅ "in.jpg" ig_defined_res screen_factor
                scale_tolerance = Ok d /\
    get d "proposed_resize_dir"
      = Ok (VStr (if 810 <=? (shape thumbnail).2 then "shrink" else "scale")) /\
    get d "proposed_resize_factor" = Ok (VInt (810 / (shape thumbnail).2)) /\
    get d "resize_validity"
      = Ok (if 810 <=? (shape thumbnail).2 then VNone
            else VBool (270 <? (shape thumbnail).2)).
Proof.
  assert (H1 : disk thumbnail "in.jpg" = Some thumbnail) by reflexivity.
  assert (H2 : decodable thumbnail = true) by (vm_compute; reflexivity).
  assert (H3 : 810 * (shape thumbnail).1 <= 1920 * (shape thumbnail).2)
    by (vm_compute; intros H; discriminate H).
  split; [exact H1|]. split; [exact H2|]. split; [exact H3|].
  exact (validity_by_width (disk thumbnail) ∅ "in.jpg" thumbnail H1 H2 H3).
Defined.

Lemma moderate_ratio_written_witness :
  disk thumbnail "in.jpg" = Some thumbnail /\
  decodable thumbnail = true /\
  (shape thumbnail).2 <= 810 * (shape thumbnail).1 /\
  (shape thumbnail).1 < 1440 * (shape thumbnail).2 /\
  exists d buffer,
    iteration (disk thumbnail) paint_black ∅ "in.jpg" "out" march_first 0
    = Ok (d, (path_join "out" (dest_name march_first 0), buffer)).
Proof.
  assert (H1 : disk thumbnail "in.jpg" = Some thumbnail) by reflexivity.
  assert (H2 : decodable thumbnail = true) by (vm_compute; reflexivity).
  assert (H3 : (shape thumbnail).2 <= 810 * (shape thumbnail).1)
    by (vm_compute; intros H; discriminate H).
  assert (H4 : (shape thumbnail).1 < 1440 * (shape thumbnail).2)
    by (vm_compute; reflexivity).
  split; [exact H1|]. split; [exact H2|]. split; [exact H3|]. split; [exact H4|].
  exact (moderate_ratio_written (disk thumbnail) paint_black ∅ "in.jpg" thumbnail
           "out" march_first 0 H1 H2 H3 H4).
Defined.

Lemma extreme_ratio_raises_witness :
  disk ribbon "in.jpg" = Some ribbon /\
  decodable ribbon = true /\
  (810 * (shape ribbon).1 < (shape ribbon).2 \/
   1440 * (shape ribbon).2 < (shape ribbon).1) /\
  iteration (disk ribbon) paint_black ∅ "in.jpg" "out" march_first 0
  = Raise Cv2Error.
Proof.
  assert (H1 : disk ribbon "in.jpg" = Some ribbon) by reflexivity.
  assert (H2 : decodable ribbon = true) by (vm_compute; reflexivity).
  assert (H3 : 810 * (shape ribbon).1 < (shape ribbon).2 \/
               1440 * (shape ribbon).2 < (shape ribbon).1)
    by (left; vm_compute; reflexivity).
  split; [exact H1|]. split; [exact H2|]. split; [exact H3|].
  exact (extreme_ratio_raises (disk ribbon) paint_black ∅ "in.jpg" ribbon
           "out" march_first 0 H1 H2 H3).
Defined.

Lemma placement_centred_witness :
  disk thumbnail "in.jpg" = Some thumbnail /\
  decodable thumbnail = true /\
  exists d ph pw d' c y1 x1 y2 x2,
    resize_type (disk thumbnail) ∅ "in.jpg" ig_defined_res screen_factor
                scale_tolerance = Ok d /\
    get d "proposed_res" = Ok (VTuple ph pw) /\
    add_pip_vars d = Ok d' /\
    get d' "pip_coords" = Ok (VDict c) /\
    c !! "y1" = Some y1 /\ c !! "x1" = Some x1 /\
    c !! "y2" = Some y2 /\ c !! "x2" = Some x2 /\
    y2 - y1 = ph /\ x2 - x1 = pw /\
    0 <= (1920 - y2) - y1 <= 1 /\
    0 <= (1080 - x2) - x1 <= 1 /\
    135 <= x1.
Proof.
  assert (H1 : disk thumbnail "in.jpg" = Some thumbnail) by reflexivity.
  assert (H2 : decodable thumbnail = true) by (vm_compute; reflexivity).
  split; [exact H1|]. split; [exact H2|].
  exact (placement_centred (disk thumbnail) ∅ "in.jpg" thumbnail H1 H2).
Defined.

Lemma canvas_is_written_buffer_witness :
  disk thumbnail "in.jpg" = Some thumbnail /\
  decodable thumbnail = true /\
  iteration (disk thumbnail) paint_black ∅ "in.jpg" "out" march_first 0
  = Ok (processed paint_black ∅ thumbnail 810 810,
        (path_join "out" (dest_name march_first 0),
         rendered paint_black thumbnail 810 810)) /\
  get (processed paint_black ∅ thumbnail 810 810) "canvas"
  = Ok (VArray (rendered paint_black thumbnail 810 810)) /\
  get (processed paint_black ∅ thumbnail 810 810) "img_obj"
  = Ok (VArray thumbnail).
Proof.
  assert (H1 : disk thumbnail "in.jpg" = Some thumbnail) by reflexivity.
  assert (H2 : decodable thumbnail = true) by (vm_compute; reflexivity).
  assert (H3 := iteration_thumbnail).
  split; [exact H1|]. split; [exact H2|]. split; [exact H3|].
  exact (canvas_is_written_buffer (disk thumbnail) paint_black ∅ "in.jpg" thumbnail
           "out" march_first 0 _ _ _ H1 H2 H3).
Defined.

Lemma pass_frame_witness :
  disk thumbnail "in.jpg" = Some thumbnail /\
  decodable thumbnail = true /\
  iteration (disk thumbnail) paint_black ∅ "in.jpg" "out" march_first 0
  = Ok (processed paint_black ∅ thumbnail 810 810,
        (path_join "out" (dest_name march_first 0),
         rendered paint_black thumbnail 810 810)) /\
  (forall k, k ∉ pass_keys ->
     processed paint_black ∅ thumbnail 810 810 !! k
     = (∅ : gmap string value) !! k) /\
  (forall k, k ∈ pass_keys ->
     is_Some (processed paint_black ∅ thumbnail 810 810 !! k)).
Proof.
  assert (H1 : disk thumbnail "in.jpg" = Some thumbnail) by reflexivity.
  assert (H2 : decodable thumbnail = true) by (vm_compute; reflexivity).
  assert (H3 := iteration_thumbnail).
  split; [exact H1|]. split; [exact H2|]. split; [exact H3|].
  exact (pass_frame (disk thumbnail) paint_black ∅ "in.jpg" thumbnail
           "out" march_first 0 _ _ H1 H2 H3).
Defined.

Lemma written_pixels_witness :
  disk thumbnail "in.jpg" = Some thumbnail /\
  decodable thumbnail = true /\
  iteration (disk thumbnail) paint_black ∅ "in.jpg" "out" march_first 0
  = Ok (processed paint_black ∅ thumbnail 810 810,
        (path_join "out" (dest_name march_first 0),
         rendered paint_black thumbnail 810 810)) /\
  exists ph pw,
    get (processed paint_black ∅ thumbnail 810 810) "proposed_res"
    = Ok (VTuple ph pw) /\
    forall y x, 0 <= y < 1920 -> 0 <= x < 1080 ->
      pixel_at (rendered paint_black thumbnail 810 810) (Z.to_nat y) (Z.to_nat x)
      = if (top ph <=? y) && (y <? top ph + ph)
           && (left pw <=? x) && (x <? left pw + pw)
        then Some (paint_black thumbnail ph pw (Z.to_nat (y - top ph))
                               (Z.to_nat (x - left pw)))
        else Some gray.
Proof.
  assert (H1 : disk thumbnail "in.jpg" = Some thumbnail) by reflexivity.
  assert (H2 : decodable thumbnail = true) by (vm_compute; reflexivity).
  assert (H3 := iteration_thumbnail).
  split; [exact H1|]. split; [exact H2|]. split; [exact H3|].
  exact (written_pixels (disk thumbnail) paint_black ∅ "in.jpg" thumbnail
           "out" march_first 0 _ _ _ H1 H2 H3).
Defined.

Lemma run_outcomes_witness :
  (forall p img, shelf p = Some img -> decodable img = true) /\
  valid_date "2024-03-01_09-30" = Ok march_first /\
  ["a.png"; "gone.png"; "b.png"] <> [] /\
  exists k,
    written (main shelf paint_black "2024-03-01_09-30"
                  ["a.png"; "gone.png"; "b.png"] "out")
    = imap (fun i p => file_of shelf paint_black "out" march_first i p)
           (take k ["a.png"; "gone.png"; "b.png"]) /\
    (k = length ["a.png"; "gone.png"; "b.png"] /\
     ended (main shelf paint_black "2024-03-01_09-30"
                 ["a.png"; "gone.png"; "b.png"] "out") = Completed \/
     exists p,
       ["a.png"; "gone.png"; "b.png"] !! k = Some p /\
       (shelf p = None /\
        ended (main shelf paint_black "2024-03-01_09-30"
                    ["a.png"; "gone.png"; "b.png"] "out")
        = Uncaught AttributeError \/
        exists img,
          shelf p = Some img /\
          ((proposed_res img).1 = 0 \/ (proposed_res img).2 = 0) /\
          ended (main shelf paint_black "2024-03-01_09-30"
                      ["a.png"; "gone.png"; "b.png"] "out")
          = Uncaught Cv2Error)).
Proof.
  assert (H1 := decodable_shelf).
  assert (H2 := valid_march_first).
  assert (H3 : ["a.png"; "gone.png"; "b.png"] <> []) by discriminate.
  split; [exact H1|]. split; [exact H2|]. split; [exact H3|].
  exact (run_outcomes shelf paint_black "2024-03-01_09-30" march_first
           ["a.png"; "gone.png"; "b.png"] "out" H1 H2 H3).
Defined.

Lemma processable_shelf_a : processable shelf "a.png".
Proof.
  exists thumbnail. split; [reflexivity|]. split; [exact decodable_thumbnail|].
  split; vm_compute; reflexivity.
Qed.

Lemma run_stops_at_first_failure_witness :
  (forall q img, shelf q = Some img -> decodable img = true) /\
  valid_date "2024-03-01_09-30" = Ok march_first /\
  ["a.png"; "gone.png"; "b.png"] !! 1%nat = Some "gone.png" /\
  Forall (processable shelf) (take 1 ["a.png"; "gone.png"; "b.png"]) /\
  ~ processable shelf "gone.png" /\
  main shelf paint_black "2024-03-01_09-30" ["a.png"; "gone.png"; "b.png"] "out"
  = {| ended := Uncaught match shelf "gone.png" with
                         | None => AttributeError
                         | Some _ => Cv2Error
                         end;
       written := imap (fun i q => file_of shelf paint_black "out" march_first i q)
                       (take 1 ["a.png"; "gone.png"; "b.png"]) |}.
Proof.
  assert (H1 := decodable_shelf).
  assert (H2 := valid_march_first).
  assert (H3 : ["a.png"; "gone.png"; "b.png"] !! 1%nat = Some "gone.png")
    by reflexivity.
  assert (H4 : Forall (processable shelf) (take 1 ["a.png"; "gone.png"; "b.png"]))
    by (repeat constructor; exact processable_shelf_a).
  assert (H5 : ~ processable shelf "gone.png")
    by (intros (img & Hread & _); discriminate Hread).
  split; [exact H1|]. split; [exact H2|]. split; [exact H3|]. split; [exact H4|].
  split; [exact H5|].
  exact (run_stops_at_first_failure shelf paint_black "2024-03-01_09-30" march_first
           ["a.png"; "gone.png"; "b.png"] "out" 1 "gone.png" H1 H2 H3 H4 H5).
Defined.

Lemma run_completes_iff_witness :
  (forall p img, album p = Some img -> decodable img = true) /\
  (ended (main album paint_black "2024-03-01_09-30" ["a.png"; "b.png"] "out")
   = Completed <->
   (exists t, valid_date "2024-03-01_09-30" = Ok t) /\
   ["a.png"; "b.png"] <> [] /\
   Forall (processable album) ["a.png"; "b.png"]).
Proof.
  assert (H1 := decodable_album).
  split; [exact H1|].
  exact (run_completes_iff album paint_black "2024-03-01_09-30" ["a.png"; "b.png"]
           "out" H1).
Defined.


Lemma names_carry_date_digits_witness :
  Spec.matches_pattern "2024-03-01_09-30" = true /\
  1000 <= year (Spec.fields "2024-03-01_09-30") /\
  written (main album paint_black "2024-03-01_09-30" ["a.png"; "b.png"] "out")
    !! 1%nat
  = Some (path_join "out" (dest_name march_first 1),
          rendered paint_black thumbnail 810 810) /\
  path_join "out" (dest_name march_first 1)
  = path_join "out" (stamp "2024-03-01_09-30" +:+ "_" +:+ pretty 1%nat +:+ ".jpg").
Proof.
  assert (H1 : Spec.matches_pattern "2024-03-01_09-30" = true)
    by (vm_compute; reflexivity).
  assert (H2 : 1000 <= year (Spec.fields "2024-03-01_09-30"))
    by (vm_compute; intros H; discriminate H).
  assert (H3 : written (main album paint_black "2024-03-01_09-30"
                             ["a.png"; "b.png"] "out") !! 1%nat
               = Some (path_join "out" (dest_name march_first 1),
                       rendered paint_black thumbnail 810 810)).
  { rewrite (written_album "2024-03-01_09-30" march_first ["a.png"; "b.png"]
               "out" 1 "b.png" valid_march_first eq_refl).
    unfold file_of. change (album "b.png") with (Some thumbnail).
    cbv beta iota. rewrite proposed_res_thumbnail. reflexivity. }
  split; [exact H1|]. split; [exact H2|]. split; [exact H3|].
  exact (names_carry_date_digits album paint_black "2024-03-01_09-30"
           ["a.png"; "b.png"] "out" 1 _ _ H1 H2 H3).
Defined.
